(** * SemanticKITTI statistics pipeline: projection, per-frame aggregation,
      ego-motion and sequence summary

    Shallow embedding of [semantic-kitti/generate_train_statistics.py]
    (and of the projection routine it shares with
    [generate_test_statistics.py]).

    Numbers.  NumPy's [float64] and Python's [float] are IEEE-754 binary64
    with round-to-nearest-even; they are modelled by Rocq's primitive
    [float], whose operations are the same IEEE operations (division by
    zero yields an infinity or NaN, every comparison with NaN is false).
    The point array is [float32]: its entries are binary64 values that are
    representable in single precision, and the one computation NumPy does
    in single precision (the norms of the instance points) rounds every
    operation to binary32.  The sums of products of the matrix and dot
    products are taken from left to right (the statements do not depend
    on that order); [np.sum] and [np.mean] follow NumPy's pairwise
    summation.  The 32-bit packed labels are modelled as [Z] with the bit
    operations of the source.  The few places where the source's
    arithmetic is read in exact arithmetic use [Q] through the [Arith]
    class below; rounding errors of binary64 are measured in [Q] as
    well. *)

From Stdlib Require Import String Ascii.
From Stdlib Require Import Floats ZArith List Sorted FinFun Bool Lia.
From Stdlib Require Import QArith Qfield Lqa Qpower.
From Stdlib Require Import Permutation.
From Stdlib Require Import DecimalString DecimalZ.
From Stdlib Require Uint63.
Import ListNotations.

Set Implicit Arguments.

(* ------------------------------------------------------------------ *)
(** ** Exceptions *)

(** The Python exceptions the modelled code can raise.  All of them are
    subclasses of [Exception]. *)
Inductive exn : Type :=
| IndexError          (* boolean index of the wrong length, list index out of range *)
| FileNotFoundError.  (* raised by the [load_*] wrappers *)

Inductive result (A : Type) : Type :=
| Ok (a : A)
| Raise (e : exn).

Arguments Ok {A} a.
Arguments Raise {A} e.

Definition bind {A B} (m : result A) (k : A -> result B) : result B :=
  match m with
  | Ok a => k a
  | Raise e => Raise e
  end.

Declare Scope result_scope.
Delimit Scope result_scope with result.
Notation "x <- m ;; k" := (bind m (fun x => k))
  (at level 61, m at next level, right associativity) : result_scope.
Notation "' p <- m ;; k" := (bind m (fun p => k))
  (at level 61, p pattern, m at next level, right associativity) : result_scope.

Definition is_ok {A} (m : result A) : bool :=
  match m with Ok _ => true | Raise _ => false end.

(* ------------------------------------------------------------------ *)
(** ** NumPy array primitives *)

Section Arrays.
Context {A : Type}.

(** The elements of [arr] at the positions where [mask] is true. *)
Fixpoint select (arr : list A) (mask : list bool) : list A :=
  match arr, mask with
  | a :: arr', b :: mask' =>
      if b then a :: select arr' mask' else select arr' mask'
  | _, _ => []
  end.

(** [arr[mask]] with a boolean array [mask]: NumPy raises [IndexError]
    when the mask's length differs from the array's first axis. *)
Definition mask_index (arr : list A) (mask : list bool) : result (list A) :=
  if Nat.eqb (length arr) (length mask) then Ok (select arr mask)
  else Raise IndexError.
End Arrays.

(* ------------------------------------------------------------------ *)
(** ** Geometry *)

Open Scope float_scope.

Record point3 : Type := P3 { px : float; py : float; pz : float }.

Record vec4 : Type := V4 { v4x : float; v4y : float; v4z : float; v4w : float }.

(** A 4x4 matrix by rows ([Tr] after [np.vstack] with [0 0 0 1]). *)
Record mat4 : Type := M4 { m4r0 : vec4; m4r1 : vec4; m4r2 : vec4; m4r3 : vec4 }.

(** A 3x4 matrix by rows ([P2]). *)
Record mat34 : Type := M34 { m34r0 : vec4; m34r1 : vec4; m34r2 : vec4 }.

(** One entry of a matrix product: the row times the column, summed from
    left to right. *)
Definition dot4 (r v : vec4) : float :=
  v4x r * v4x v + v4y r * v4y v + v4z r * v4z v + v4w r * v4w v.

Definition mat4_apply (m : mat4) (v : vec4) : vec4 :=
  V4 (dot4 (m4r0 m) v) (dot4 (m4r1 m) v) (dot4 (m4r2 m) v) (dot4 (m4r3 m) v).

Definition mat34_apply (m : mat34) (v : vec4) : float * float * float :=
  (dot4 (m34r0 m) v, dot4 (m34r1 m) v, dot4 (m34r2 m) v).

(** [np.hstack([points, np.ones((n, 1))])], one row. *)
Definition homogenize (p : point3) : vec4 := V4 (px p) (py p) (pz p) 1.

(** One row of [points_cam = (Tr @ points_hom.T).T]. *)
Definition to_camera (Tr : mat4) (p : point3) : vec4 :=
  mat4_apply Tr (homogenize p).

(** [points_cam[:, 2]]: the camera-frame z of a point. *)
Definition camera_z (Tr : mat4) (p : point3) : float := v4z (to_camera Tr p).

(** One row of [P2 @ np.hstack([points_cam[:, :3], ones]).T]: the raw
    projective coordinates [(u', v', w)]. *)
Definition raw_projection (P2 : mat34) (c : vec4) : float * float * float :=
  mat34_apply P2 (V4 (v4x c) (v4y c) (v4z c) 1).

(** One row of [points_img[:, :2] / points_img[:, 2:]].  The division is
    IEEE division; it is not guarded. *)
Definition perspective_divide (r : float * float * float) : float * float :=
  let '(u', v', w) := r in (u' / w, v' / w).

(** One entry of [mask_img]. *)
Definition in_image (uv : float * float) : bool :=
  let '(u, v) := uv in
  (0 <=? u) && (u <? 1242) && (0 <=? v) && (v <? 375).

Local Open Scope result_scope.

(** Lines 64-69 of [project_to_front_view]: the camera transform and the
    front-hemisphere mask.  Returns [points_after_z], [points_cam] and
    [labels_after_z]. *)
Definition front_hemisphere {L : Type}
    (points : list point3) (labels : list L) (Tr : mat4)
  : result (list point3 * list vec4 * list L) :=
  let points_cam := map (to_camera Tr) points in
  let mask_z := map (fun c => 0 <? v4z c) points_cam in
  points_after_z <- mask_index points mask_z ;;
  points_cam <- mask_index points_cam mask_z ;;
  labels_after_z <- mask_index labels mask_z ;;
  Ok (points_after_z, points_cam, labels_after_z).

(** Lines 72-73: the projection and the perspective division, applied to
    the camera-frame points that passed the mask. *)
Definition image_plane (P2 : mat34) (points_cam : list vec4) : list (float * float) :=
  map perspective_divide (map (raw_projection P2) points_cam).

(** [project_to_front_view(points, labels, Tr, P2)]. *)
Definition project_to_front_view {L : Type}
    (points : list point3) (labels : list L) (Tr : mat4) (P2 : mat34)
  : result (list point3 * list (float * float) * list L) :=
  '(points_after_z, points_cam, labels_after_z) <- front_hemisphere points labels Tr ;;
  let points_img := image_plane P2 points_cam in
  let mask_img := map in_image points_img in
  points_front <- mask_index points_after_z mask_img ;;
  points_img <- mask_index points_img mask_img ;;
  labels_front <- mask_index labels_after_z mask_img ;;
  Ok (points_front, points_img, labels_front).

(** The routine of the same name in [generate_test_statistics.py]: the
    same computation, the three arrays masked in another order. *)
Module TestStatistics.
Definition project_to_front_view {L : Type}
    (points : list point3) (labels : list L) (Tr : mat4) (P2 : mat34)
  : result (list point3 * list (float * float) * list L) :=
  let points_cam := map (to_camera Tr) points in
  let mask_z := map (fun c => 0 <? v4z c) points_cam in
  points_cam <- mask_index points_cam mask_z ;;
  labels <- mask_index labels mask_z ;;
  points_world <- mask_index points mask_z ;;
  let proj := image_plane P2 points_cam in
  let mask_img := map in_image proj in
  points_front <- mask_index points_world mask_img ;;
  proj_front <- mask_index proj mask_img ;;
  labels_front <- mask_index labels mask_img ;;
  Ok (points_front, proj_front, labels_front).
End TestStatistics.

(** The image coordinates the source computes for a point. *)
Definition pixel (Tr : mat4) (P2 : mat34) (p : point3) : float * float :=
  perspective_divide (raw_projection P2 (to_camera Tr p)).

(** The third raw projective coordinate of a point. *)
Definition w_value (Tr : mat4) (P2 : mat34) (p : point3) : float :=
  snd (raw_projection P2 (to_camera Tr p)).

(* ------------------------------------------------------------------ *)
(** ** Python dictionaries and NumPy reductions *)

Section Dict.
Variables K V : Type.
Variable eqb : K -> K -> bool.

(** An insertion-ordered dictionary. *)
Definition dict : Type := list (K * V).

(** [d.get(k)] *)
Fixpoint dict_get (d : dict) (k : K) : option V :=
  match d with
  | [] => None
  | (k', v) :: d' => if eqb k' k then Some v else dict_get d' k
  end.

(** [d[k] = v]: an existing key keeps its position and takes the new
    value, a new key goes to the end. *)
Fixpoint dict_set (d : dict) (k : K) (v : V) : dict :=
  match d with
  | [] => [(k, v)]
  | (k', v') :: d' =>
      if eqb k' k then (k', v) :: d' else (k', v') :: dict_set d' k v
  end.

(** [{k: v for k, v in items}] *)
Definition dict_of_items (items : list (K * V)) : dict :=
  fold_left (fun d kv => dict_set d (fst kv) (snd kv)) items [].

Definition dict_keys (d : dict) : list K := map fst d.
Definition dict_values (d : dict) : list V := map snd d.
End Dict.

Arguments dict_get {K V} eqb d k.
Arguments dict_set {K V} eqb d k v.
Arguments dict_of_items {K V} eqb items.
Arguments dict_keys {K V} d.
Arguments dict_values {K V} d.

(** [d.get(k, default)] *)
Definition dict_get_default {K V} (eqb : K -> K -> bool)
    (d : dict K V) (k : K) (default : V) : V :=
  match dict_get eqb d k with Some v => v | None => default end.

(** [s.update(keys)] on a set.  The elements are kept as a duplicate-free
    list, in the order they were first added; the order in which Python
    iterates the set is another matter (see [all_classes]). *)
Fixpoint set_add (s : list string) (k : string) : list string :=
  match s with
  | [] => [k]
  | k' :: s' => if String.eqb k' k then s else k' :: set_add s' k
  end.

Definition set_update (s : list string) (keys : list string) : list string :=
  fold_left set_add keys s.

(** [seq[i]] on a Python list. *)
Definition list_index {A} (l : list A) (i : nat) : result A :=
  match nth_error l i with
  | Some a => Ok a
  | None => Raise IndexError
  end.

(** Sorted insertion without duplicates. *)
Fixpoint insert_unique (x : Z) (l : list Z) : list Z :=
  match l with
  | [] => [x]
  | y :: l' =>
      if (x <? y)%Z then x :: l
      else if (x =? y)%Z then l
      else y :: insert_unique x l'
  end.

(** [np.unique(a)]: the sorted distinct values of [a]. *)
Definition np_unique (a : list Z) : list Z := fold_right insert_unique [] a.

(** The [counts] of [np.unique(a, return_counts=True)]. *)
Definition np_unique_counts (a : list Z) : list Z :=
  map (fun u => Z.of_nat (count_occ Z.eq_dec a u)) (np_unique a).

(** The arithmetic the statistics use, read either in binary64 (what the
    program computes) or in exact rational arithmetic. *)
Class Arith (F : Type) : Type := {
  of_int : Z -> F;
  n_add : F -> F -> F;
  n_mul : F -> F -> F;
  n_div : F -> F -> F
}.

(** Conversion of a Python or NumPy integer to binary64. *)
Definition float_of_Z (z : Z) : float :=
  match z with
  | Z0 => 0
  | Zpos _ => PrimFloat.of_uint63 (Uint63.of_Z z)
  | Zneg _ => - PrimFloat.of_uint63 (Uint63.of_Z (- z))
  end.

#[export] Instance float_Arith : Arith float := {
  of_int := float_of_Z;
  n_add := PrimFloat.add;
  n_mul := PrimFloat.mul;
  n_div := PrimFloat.div
}.

#[export] Instance Q_Arith : Arith Q := {
  of_int := inject_Z;
  n_add := Qplus;
  n_mul := Qmult;
  n_div := Qdiv
}.

Section Reductions.
Context {F : Type} `{Arith F}.

(** The unrolled loop of NumPy's [pairwise_sum] (the summation loop of
    [np.add.reduce] on floating-point arrays) for a block of 8 to 128
    elements: eight running sums, each taking every eighth element; then
    the eight sums added as a balanced tree; then the elements that do
    not fill a group of eight, one by one. *)
Fixpoint unrolled_sum (r0 r1 r2 r3 r4 r5 r6 r7 : F) (rest : list F) : F :=
  match rest with
  | a0 :: a1 :: a2 :: a3 :: a4 :: a5 :: a6 :: a7 :: rest' =>
      unrolled_sum (n_add r0 a0) (n_add r1 a1) (n_add r2 a2) (n_add r3 a3)
                   (n_add r4 a4) (n_add r5 a5) (n_add r6 a6) (n_add r7 a7) rest'
  | _ =>
      fold_left n_add rest
        (n_add (n_add (n_add r0 r1) (n_add r2 r3))
               (n_add (n_add r4 r5) (n_add r6 r7)))
  end.

(** [pairwise_sum(a, n)]: fewer than 8 elements are added from left to
    right (the accumulator starts at [-0.0], which leaves the first
    element as it is); up to 128 elements go through the unrolled loop;
    a longer array is split at [n / 2] rounded down to a multiple of 8
    and the sums of the two parts are added.  [fuel] bounds the depth of
    the splitting; the length of the array is always enough. *)
Fixpoint pairwise_sum (fuel : nat) (a : list F) : F :=
  let n := length a in
  if (n <? 8)%nat then
    match a with
    | [] => of_int 0
    | x :: xs => fold_left n_add xs x
    end
  else if (n <=? 128)%nat then
    match a with
    | r0 :: r1 :: r2 :: r3 :: r4 :: r5 :: r6 :: r7 :: rest =>
        unrolled_sum r0 r1 r2 r3 r4 r5 r6 r7 rest
    | _ => of_int 0
    end
  else
    match fuel with
    | O => of_int 0
    | S fuel' =>
        let n2 := (n / 2)%nat in
        let n2 := (n2 - n2 mod 8)%nat in
        n_add (pairwise_sum fuel' (firstn n2 a)) (pairwise_sum fuel' (skipn n2 a))
    end.

(** [np.sum] of a one-dimensional floating-point array: the reduction
    starts from the identity 0 of the addition and adds the pairwise sum
    of the whole array. *)
Definition np_sum (xs : list F) : F :=
  n_add (of_int 0) (pairwise_sum (length xs) xs).

(** [np.mean]: the sum divided by the number of elements. *)
Definition np_mean (xs : list F) : F :=
  n_div (np_sum xs) (of_int (Z.of_nat (length xs))).
End Reductions.

(** [np.minimum(a, b)]: NaN propagates. *)
Definition np_minimum (a b : float) : float :=
  if (a <? b) || PrimFloat.is_nan a then a else b.

(** [np.min] of an array (the source only calls it on non-empty arrays;
    on an empty array NumPy raises [ValueError], which is not modelled). *)
Definition np_min (xs : list float) : float :=
  match xs with
  | [] => nan
  | x :: xs' => fold_left np_minimum xs' x
  end.

(** Python's [min(xs)] on a non-empty list: the first of the smallest
    elements; an element replaces the current one only when it compares
    strictly below it. *)
Definition py_min (xs : list float) : float :=
  match xs with
  | [] => nan
  | x :: xs' => fold_left (fun m y => if y <? m then y else m) xs' x
  end.

(** Python's [max(xs)] on a non-empty list. *)
Definition py_max (xs : list float) : float :=
  match xs with
  | [] => nan
  | x :: xs' => fold_left (fun m y => if m <? y then y else m) xs' x
  end.

(** Rounding of a binary64 value to binary32 (round to nearest even),
    the result held as a binary64. *)
Definition round_f32 (x : float) : float :=
  match Prim2SF x with
  | S754_finite s m e => SF2Prim (binary_round 24 128 s m e)
  | _ => x
  end.

(** One row of [np.linalg.norm(a, axis=1)] on the [float32] point array:
    [sqrt(add.reduce(x * x))], every operation in single precision. *)
Definition norm_f32 (p : point3) : float :=
  let sq x := round_f32 (x * x) in
  round_f32 (sqrt (round_f32 (round_f32 (sq (px p) + sq (py p)) + sq (pz p)))).

(** [np.linalg.norm(v)] on a binary64 vector of three entries:
    [sqrt(v.dot(v))], the dot product summed from left to right. *)
Definition norm3 (x y z : float) : float := sqrt (x * x + y * y + z * z).

(* ------------------------------------------------------------------ *)
(** ** Labels and the class table *)

(** [label_to_name] *)
Definition label_to_name : dict Z string :=
  [ (0, "unlabeled"); (1, "outlier"); (10, "car"); (11, "bicycle"); (13, "bus");
    (15, "motorcycle"); (16, "on-rails"); (18, "truck"); (20, "other-vehicle");
    (30, "person"); (31, "bicyclist"); (32, "motorcyclist"); (40, "road");
    (44, "parking"); (48, "sidewalk"); (49, "other-ground"); (50, "building");
    (51, "fence"); (52, "vegetation"); (60, "trunk"); (61, "terrain"); (70, "pole");
    (71, "traffic-sign"); (80, "other-object"); (252, "moving-car");
    (253, "moving-bicyclist"); (254, "moving-person"); (255, "moving-motorcyclist");
    (256, "moving-on-rails"); (257, "moving-bus"); (258, "moving-truck");
    (259, "moving-other-vehicle") ]%Z%string.

(** [str(n)] of an integer. *)
Definition str_of_int (n : Z) : string := NilZero.string_of_int (Z.to_int n).

(** [label_to_name.get(label, f"unknown_{label}")] *)
Definition percentage_key (label : Z) : string :=
  dict_get_default Z.eqb label_to_name label ("unknown_" ++ str_of_int label)%string.

(** [label_to_name.get(inst_semantic, "unknown")] *)
Definition instance_class_name (inst_semantic : Z) : string :=
  dict_get_default Z.eqb label_to_name inst_semantic "unknown"%string.

(** [front_labels & 0xFFFF] and [front_labels >> 16], one entry. *)
Definition semantic_of (label : Z) : Z := Z.land label 65535.
Definition instance_of (label : Z) : Z := Z.shiftr label 16.

(* ------------------------------------------------------------------ *)
(** ** Class percentages (lines 130-134) *)

Section Percentages.
Context {F : Type} `{Arith F}.

(** The order in which Python iterates a set of [str]: it depends on the
    hash seed of the process and is taken as given.  [set_iter s] is the
    iteration order of the set whose elements were first added in the
    order [s]. *)
Variable set_iter : list string -> list string.

(** [class_percentages]: keyed by the semantic id. *)
Definition class_percentages (semantic_labels : list Z) : dict Z F :=
  let unique := np_unique semantic_labels in
  let counts := np_unique_counts semantic_labels in
  let total_points :=
    if (0 <? length semantic_labels)%nat
    then Z.of_nat (length semantic_labels) else 1%Z in
  dict_of_items Z.eqb
    (map (fun lc => (fst lc,
                     n_mul (n_div (of_int (snd lc)) (of_int total_points)) (of_int 100)))
         (combine unique counts)).

(** [class_percentages_named]: keyed by the class name. *)
Definition class_percentages_named (semantic_labels : list Z) : dict string F :=
  dict_of_items String.eqb
    (map (fun lp => (percentage_key (fst lp), snd lp))
         (class_percentages semantic_labels)).

(** Lines 221-227: [all_classes] and [average_class_percentages].  The
    set is built by the loop of [update] calls; [all_classes] lists it in
    the order in which it is iterated, by the [for] loop and by
    [list(all_classes)] alike (the set is not modified in between). *)
Definition all_classes_set (class_percentages_list : list (dict string F)) : list string :=
  fold_left (fun s cp => set_update s (dict_keys cp)) class_percentages_list [].

Definition all_classes (class_percentages_list : list (dict string F)) : list string :=
  set_iter (all_classes_set class_percentages_list).

Definition average_class_percentages
    (class_percentages_list : list (dict string F)) : dict string F :=
  fold_left
    (fun avg cls =>
       let percentages :=
         map (fun cp => dict_get_default String.eqb cp cls (of_int 0))
             class_percentages_list in
       dict_set String.eqb avg cls (np_mean percentages))
    (all_classes class_percentages_list) [].
End Percentages.

(* ------------------------------------------------------------------ *)
(** ** Instances (lines 80-94 and 140-165) *)

(** [get_spatial_location(x, y)] with the default image size. *)
Definition get_spatial_location (x y : float) : string :=
  let img_width := 1242 in
  let img_height := 375 in
  let x_loc :=
    if x <? img_width / 3 then "left"%string
    else if x <? 2 * img_width / 3 then "center"%string
    else "right"%string in
  let y_loc :=
    if y <? img_height / 3 then "top"%string
    else if y <? 2 * img_height / 3 then "middle"%string
    else "bottom"%string in
  (y_loc ++ "-" ++ x_loc)%string.

Record instance : Type := Instance {
  inst_class : string;
  inst_instance_id : Z;
  inst_spatial_location : string;
  inst_distance : float
}.

(** The body of the loop over [np.unique(instance_ids)], for one id other
    than 0.  [None] when the [len(inst_points_img) > 0] test fails. *)
Definition instance_entry
    (points_front : list point3) (points_img : list (float * float))
    (semantic_labels instance_ids : list Z) (inst_id : Z)
  : result (option instance) :=
  let mask := map (fun i => (i =? inst_id)%Z) instance_ids in
  sem <- mask_index semantic_labels mask ;;
  inst_semantic <- list_index sem 0 ;;
  let class_name := instance_class_name inst_semantic in
  inst_points_img <- mask_index points_img mask ;;
  inst_points_3d <- mask_index points_front mask ;;
  if (0 <? length inst_points_img)%nat then
    let mean_x := np_mean (map fst inst_points_img) in
    let mean_y := np_mean (map snd inst_points_img) in
    let spatial_loc := get_spatial_location mean_x mean_y in
    let distances := map norm_f32 inst_points_3d in
    let min_distance := np_min distances in
    Ok (Some (Instance class_name inst_id spatial_loc min_distance))
  else Ok None.

(** The loop [for inst_id in np.unique(instance_ids)], appending to
    [instances]. *)
Fixpoint instances_loop
    (points_front : list point3) (points_img : list (float * float))
    (semantic_labels instance_ids : list Z)
    (ids : list Z) (instances : list instance) : result (list instance) :=
  match ids with
  | [] => Ok instances
  | inst_id :: ids' =>
      if (inst_id =? 0)%Z then
        instances_loop points_front points_img semantic_labels instance_ids
                       ids' instances
      else
        e <- instance_entry points_front points_img semantic_labels
                            instance_ids inst_id ;;
        instances_loop points_front points_img semantic_labels instance_ids ids'
                       (match e with
                        | Some i => instances ++ [i]
                        | None => instances
                        end)
  end.

Definition identify_instances
    (points_front : list point3) (points_img : list (float * float))
    (semantic_labels instance_ids : list Z) : result (list instance) :=
  instances_loop points_front points_img semantic_labels instance_ids
                 (np_unique instance_ids) [].

(** [len([inst for inst in instances if inst["class"] in classes])] *)
Definition count_class (classes : list string) (instances : list instance) : nat :=
  length (filter (fun i => existsb (String.eqb (inst_class i)) classes) instances).

(* ------------------------------------------------------------------ *)
(** ** Ego motion (lines 167-178) *)

(** [pose[:3, 3]] *)
Definition translation (pose : mat4) : float * float * float :=
  (v4w (m4r0 pose), v4w (m4r1 pose), v4w (m4r2 pose)).

(** [np.linalg.norm(current_pose[:3, 3] - prev_pose[:3, 3])] *)
Definition displacement_of (current_pose prev_pose : mat4) : float :=
  let '(cx, cy, cz) := translation current_pose in
  let '(qx, qy, qz) := translation prev_pose in
  norm3 (cx - qx) (cy - qy) (cz - qz).

Record ego : Type := Ego {
  ego_speed : float;
  ego_acceleration : float;
  ego_total_distance : float
}.

(** The [if prev_pose is not None: ... else: ...] block, with the
    division operator [divide] of the two guarded quotients made explicit.
    [prev] holds [prev_pose] and [prev_time], which the source sets
    together. *)
Definition ego_motion_with (divide : float -> float -> float)
    (prev : option (mat4 * float)) (prev_speed total_distance : float)
    (current_pose : mat4) (current_time : float) : ego :=
  match prev with
  | Some (prev_pose, prev_time) =>
      let displacement := displacement_of current_pose prev_pose in
      let time_diff := current_time - prev_time in
      let speed := if 0 <? time_diff then divide displacement time_diff else 0 in
      let acceleration :=
        if 0 <? time_diff then divide (speed - prev_speed) time_diff else 0 in
      Ego speed acceleration (total_distance + displacement)
  | None => Ego 0 0 total_distance
  end.

(** The program divides with Python's [/] on floats. *)
Definition ego_motion : option (mat4 * float) -> float -> float -> mat4 -> float -> ego :=
  ego_motion_with PrimFloat.div.

(* ------------------------------------------------------------------ *)
(** ** The sequence processor (lines 96-260) *)

(** The files of one sequence directory, as the loaders decode them.
    [None] stands for a file that is missing or cannot be parsed: each
    [load_*] function turns every failure into [FileNotFoundError]. *)
Record sequence_dir : Type := SequenceDir {
  calib_txt : option (mat4 * mat34);
  poses_txt : option (list mat4);
  times_txt : option (list float);
  frame_files : nat -> option (list point3 * list Z)
}.

Definition load {A} (file : option A) : result A :=
  match file with
  | Some a => Ok a
  | None => Raise FileNotFoundError
  end.

Definition load_calib (sd : sequence_dir) : result (mat4 * mat34) := load (calib_txt sd).
Definition load_poses (sd : sequence_dir) : result (list mat4) := load (poses_txt sd).
Definition load_times (sd : sequence_dir) : result (list float) := load (times_txt sd).
Definition load_frame_data (sd : sequence_dir) (frame_id : nat)
  : result (list point3 * list Z) := load (frame_files sd frame_id).

Record frame_summary : Type := FrameSummary {
  fs_frame_id : nat;
  fs_timestamp : float;
  fs_class_percentages : dict string float;
  fs_unique_classes : list string;
  fs_instances : list instance;
  fs_num_cars : nat;
  fs_num_persons : nat;
  fs_speed : float;
  fs_acceleration : float;
  fs_direction : float
}.

Record object_counts : Type := ObjectCounts {
  oc_timestamp : float;
  oc_car_count : nat;
  oc_person_count : nat
}.

(** The accumulators of the frame loop. *)
Record accum : Type := Accum {
  frame_summaries : list frame_summary;
  total_distance : float;
  speeds : list float;
  class_percentages_list : list (dict string float);
  object_counts_list : list object_counts;
  prev : option (mat4 * float);
  prev_speed : float
}.

Definition initial_accum : accum := Accum [] 0 [] [] [] None 0.

Record time_series_entry : Type := TimeSeriesEntry {
  ts_timestamp : float;
  ts_class_percentages : dict string float;
  ts_car_count : nat;
  ts_person_count : nat
}.

Record sequence_summary : Type := SequenceSummary {
  total_frames : nat;
  total_duration : float;
  ss_total_distance : float;
  average_speed : float;
  min_speed : float;
  max_speed : float;
  average_speed_from_frames : float;
  ss_average_class_percentages : dict string float;
  total_unique_classes : list string;
  time_series : list time_series_entry
}.

Section Pipeline.
(** [np.arctan2] and [np.degrees] are only used for the heading and are
    taken as given. *)
Variable arctan2 : float -> float -> float.
Variable degrees : float -> float.

(** The iteration order of the sets of the process (see [all_classes]). *)
Variable set_iter : list string -> list string.

(** The body of the loop [for frame_id in range(len(poses))]. *)
Definition process_frame
    (sd : sequence_dir) (Tr : mat4) (P2 : mat34)
    (poses : list mat4) (times : list float)
    (acc : accum) (frame_id : nat) : result accum :=
  '(points, labels) <- load_frame_data sd frame_id ;;
  '(points_front, points_img, front_labels) <-
      project_to_front_view points labels Tr P2 ;;
  let semantic_labels := map semantic_of front_labels in
  let instance_ids := map instance_of front_labels in
  let named : dict string float := class_percentages_named semantic_labels in
  let unique_classes := dict_keys named in
  instances <- identify_instances points_front points_img
                                  semantic_labels instance_ids ;;
  let num_cars := count_class ["car"; "moving-car"]%string instances in
  let num_persons := count_class ["person"; "moving-person"]%string instances in
  current_pose <- list_index poses frame_id ;;
  current_time <- list_index times frame_id ;;
  let e := ego_motion (prev acc) (prev_speed acc) (total_distance acc)
                      current_pose current_time in
  let direction :=
    degrees (arctan2 (v4x (m4r1 current_pose)) (v4x (m4r0 current_pose))) in
  let frame_summary :=
    FrameSummary frame_id current_time named unique_classes instances
                 num_cars num_persons
                 (ego_speed e) (ego_acceleration e) direction in
  Ok (Accum (frame_summaries acc ++ [frame_summary])
            (ego_total_distance e)
            (speeds acc ++ [ego_speed e])
            (class_percentages_list acc ++ [named])
            (object_counts_list acc ++ [ObjectCounts current_time num_cars num_persons])
            (Some (current_pose, current_time))
            (ego_speed e)).

Fixpoint frames_loop
    (sd : sequence_dir) (Tr : mat4) (P2 : mat34)
    (poses : list mat4) (times : list float)
    (frame_ids : list nat) (acc : accum) : result accum :=
  match frame_ids with
  | [] => Ok acc
  | frame_id :: rest =>
      acc' <- process_frame sd Tr P2 poses times acc frame_id ;;
      frames_loop sd Tr P2 poses times rest acc'
  end.

(** The comprehension building [time_series]. *)
Fixpoint time_series_of
    (times : list float) (acc : accum) (indices : list nat)
  : result (list time_series_entry) :=
  match indices with
  | [] => Ok []
  | i :: rest =>
      t <- list_index times i ;;
      cp <- list_index (class_percentages_list acc) i ;;
      oc <- list_index (object_counts_list acc) i ;;
      entries <- time_series_of times acc rest ;;
      Ok (TimeSeriesEntry t cp (oc_car_count oc) (oc_person_count oc) :: entries)
  end.

(** Lines 213-251: the sequence-level statistics. *)
Definition summarize (poses : list mat4) (times : list float) (acc : accum)
  : result sequence_summary :=
  let total_frames := length poses in
  let total_duration :=
    match times with
    | t0 :: _ :: _ => last times 0 - t0
    | _ => 0
    end in
  let average_speed :=
    if 0 <? total_duration then total_distance acc / total_duration else 0 in
  let min_speed := match speeds acc with [] => 0 | _ => py_min (speeds acc) end in
  let max_speed := match speeds acc with [] => 0 | _ => py_max (speeds acc) end in
  let avg_speed_frames :=
    match speeds acc with [] => 0 | _ => np_mean (speeds acc) end in
  let classes := all_classes set_iter (class_percentages_list acc) in
  let avg := average_class_percentages set_iter (class_percentages_list acc) in
  time_series <- time_series_of times acc (seq 0 (length times)) ;;
  Ok (SequenceSummary total_frames total_duration (total_distance acc)
                      average_speed min_speed max_speed avg_speed_frames
                      avg classes time_series).

(** [process_sequence]: the result is the content of the two JSON files
    it writes; nothing is written when an exception is raised, since both
    files are opened after the last computation. *)
Definition process_sequence (sd : sequence_dir)
  : result (list frame_summary * sequence_summary) :=
  '(Tr, P2) <- load_calib sd ;;
  poses <- load_poses sd ;;
  times <- load_times sd ;;
  acc <- frames_loop sd Tr P2 poses times (seq 0 (length poses)) initial_accum ;;
  sequence_summary <- summarize poses times acc ;;
  Ok (frame_summaries acc, sequence_summary).

(* ------------------------------------------------------------------ *)
(** ** The batch driver (lines 262-280) *)

(** What [process_all_sequences] prints. *)
Inductive log_line : Type :=
| LogSkipping (seq_id : nat)
| LogProcessing (seq_id : nat)
| LogGenerated (seq_id : nat)
| LogError (seq_id : nat) (e : exn).

(** The [stats] directory (the pair of JSON files of each sequence that
    has one) and the console. *)
Record world : Type := World {
  stats : dict nat (list frame_summary * sequence_summary);
  console : list log_line
}.

(** The body of the loop over the sequence ids: [dataset seq_id] is the
    sequence directory, [None] when it does not exist. *)
Definition process_one
    (dataset : nat -> option sequence_dir) (w : world) (seq_id : nat) : world :=
  match dataset seq_id with
  | None => World (stats w) (console w ++ [LogSkipping seq_id])
  | Some sd =>
      let console1 := console w ++ [LogProcessing seq_id] in
      match process_sequence sd with
      | Ok out =>
          World (dict_set Nat.eqb (stats w) seq_id out)
                (console1 ++ [LogGenerated seq_id])
      | Raise e =>
          World (stats w) (console1 ++ [LogError seq_id e])
      end
  end.

Definition process_all_sequences
    (dataset : nat -> option sequence_dir) (w : world) : world :=
  fold_left (process_one dataset) (seq 0 11) w.
End Pipeline.

(* ------------------------------------------------------------------ *)
(** ** The class percentages of [generate_test_statistics.py] *)

Module TestPercentages.
(** [load_frame_data] of the test file masks the labels when it loads
    them: [labels_raw & 0xFFFF]. *)
Definition load_labels (labels_raw : list Z) : list Z := map semantic_of labels_raw.

Section Percentages.
Context {F : Type} `{Arith F}.

(** [pct = {int(k): float(v) * 100 / total for k, v in zip(uniq, cnts)}] *)
Definition class_percentages (lbl_f : list Z) : dict Z F :=
  let uniq := np_unique lbl_f in
  let cnts := np_unique_counts lbl_f in
  let total :=
    if (0 <? length lbl_f)%nat then Z.of_nat (length lbl_f) else 1%Z in
  dict_of_items Z.eqb
    (map (fun kv => (fst kv,
                     n_div (n_mul (of_int (snd kv)) (of_int 100)) (of_int total)))
         (combine uniq cnts)).

(** [pct_named] *)
Definition class_percentages_named (lbl_f : list Z) : dict string F :=
  dict_of_items String.eqb
    (map (fun kv => (percentage_key (fst kv), snd kv)) (class_percentages lbl_f)).
End Percentages.
End TestPercentages.

(* ------------------------------------------------------------------ *)
(** ** Rendering of a frame ([pcd_to_projection.py]) *)

Module PcdToProjection.
(** [SEMANTIC_KITTI_COLORMAP] *)
Definition SEMANTIC_KITTI_COLORMAP : dict Z (Z * Z * Z) :=
  [ (0, (0, 0, 0)); (1, (255, 255, 255)); (10, (255, 0, 0)); (11, (255, 128, 0));
    (13, (255, 255, 0)); (15, (128, 0, 255)); (16, (255, 0, 255));
    (18, (0, 255, 255)); (20, (128, 128, 0)); (30, (0, 0, 255)); (31, (0, 255, 0));
    (32, (255, 255, 255)); (40, (128, 0, 0)); (44, (128, 128, 128));
    (48, (0, 128, 128)); (49, (128, 0, 128)); (50, (0, 128, 0));
    (51, (128, 128, 128)); (52, (0, 0, 128)); (53, (128, 0, 0)); (54, (0, 128, 128));
    (60, (0, 0, 255)); (61, (255, 255, 0)); (70, (128, 128, 0)); (71, (0, 255, 255));
    (72, (255, 0, 128)); (80, (255, 255, 255)); (81, (255, 255, 255));
    (99, (128, 128, 128)); (252, (255, 0, 0)); (253, (255, 128, 0));
    (254, (0, 0, 255)); (255, (0, 255, 0)); (256, (255, 0, 255));
    (257, (255, 255, 0)) ]%Z.

(** A colour with channels in [0, 1], as the point cloud stores it. *)
Definition color : Type := (float * float * float)%type.

(** What the source keeps of an [open3d] point cloud: its points and
    its colours. *)
Record point_cloud : Type := PointCloud {
  pcd_points : list point3;
  pcd_colors : list color
}.

(** [SEMANTIC_KITTI_COLORMAP.get(label, [0, 0, 0])], divided by 255.0. *)
Definition color_of_label (label : Z) : color :=
  let '(r, g, b) :=
    dict_get_default Z.eqb SEMANTIC_KITTI_COLORMAP label (0, 0, 0)%Z in
  (float_of_Z r / 255, float_of_Z g / 255, float_of_Z b / 255).

(** [load_point_cloud], from the decoded point and label arrays.  (For
    an empty label array the source builds a colour array without a second
    axis, which is handed to [open3d]; that case is left out of the
    statements.) *)
Definition load_point_cloud (points : list point3) (labels_raw : list Z)
  : point_cloud :=
  let labels := map (fun l => Z.land l 65535) labels_raw in
  PointCloud points (map color_of_label labels).

(** [int(x)] on a float: truncation toward zero; [None] where Python
    raises (NaN and the infinities). *)
Definition py_int (x : float) : option Z :=
  match Prim2SF x with
  | S754_zero _ => Some 0%Z
  | S754_finite s m e =>
      let magnitude := Z.shiftl (Z.pos m) e in
      Some (if s then (- magnitude)%Z else magnitude)
  | _ => None
  end.

(** [x.astype(np.uint8)] for one entry: the C conversion truncates; the
    values the source converts lie in [0, 255]. *)
Definition astype_uint8 (x : float) : Z :=
  match py_int x with
  | Some z => (z mod 256)%Z
  | None => 0%Z
  end.

(** [(color * 255).astype(np.uint8)] *)
Definition to_rgb (c : color) : Z * Z * Z :=
  let '(r, g, b) := c in
  (astype_uint8 (r * 255), astype_uint8 (g * 255), astype_uint8 (b * 255)).

(** The 375 x 1242 image, as the pixels written over [np.zeros]. *)
Definition image : Type := dict (Z * Z) (Z * Z * Z).

Definition index_eqb (a b : Z * Z) : bool :=
  ((fst a =? fst b) && (snd a =? snd b))%Z.

(** [img[y, x]] for an index inside the image. *)
Definition img_get (img : image) (y x : Z) : Z * Z * Z :=
  dict_get_default index_eqb img (y, x) (0, 0, 0)%Z.

(** [img[y, x] = v]: NumPy counts a negative index from the end and
    raises [IndexError] outside [-n, n). *)
Definition img_set (img : image) (y x : Z) (v : Z * Z * Z) : option image :=
  if ((-375 <=? y) && (y <? 375) && (-1242 <=? x) && (x <? 1242))%Z
  then Some (dict_set index_eqb img (y mod 375, x mod 1242)%Z v)
  else None.

(** The loop [for pt, color in zip(points_img, colors)]. *)
Fixpoint draw (pairs : list ((float * float) * color)) (img : image) : option image :=
  match pairs with
  | [] => Some img
  | (pt, c) :: rest =>
      match py_int (fst pt), py_int (snd pt) with
      | Some x, Some y =>
          match img_set img y x (to_rgb c) with
          | Some img' => draw rest img'
          | None => None
          end
      | _, _ => None
      end
  end.

(** [project_to_image], from the parsed calibration ([None] when the
    file cannot be read or parsed).  Every exception is caught and turned
    into the result [None]. *)
Definition project_to_image (pcd : point_cloud) (calib : option (mat4 * mat34))
  : option image :=
  match calib with
  | None => None
  | Some (Tr, P2) =>
      let points := pcd_points pcd in
      let points_cam := map (to_camera Tr) points in
      let mask_z := map (fun c => 0 <? v4z c) points_cam in
      match mask_index points_cam mask_z, mask_index (pcd_colors pcd) mask_z with
      | Ok points_cam, Ok colors =>
          let points_img := image_plane P2 points_cam in
          let mask_img := map in_image points_img in
          match mask_index points_img mask_img, mask_index colors mask_img with
          | Ok points_img, Ok colors => draw (combine points_img colors) []
          | _, _ => None
          end
      | _, _ => None
      end
  end.
End PcdToProjection.

(* ------------------------------------------------------------------ *)
(** ** Derived notions used in the statements *)

(** The test a point has to pass to reach the output of the projection. *)
Definition visible (Tr : mat4) (P2 : mat34) (p : point3) : bool :=
  (0 <? camera_z Tr p) && in_image (pixel Tr P2 p).

(** What the frame loop maintains: the recorded speeds are those of the
    frame summaries; before the first frame there is none, afterwards the
    first is 0 and none is negative. *)
Definition speeds_ok (acc : accum) : Prop :=
  speeds acc = map fs_speed (frame_summaries acc) /\
  match prev acc with
  | None => speeds acc = []
  | Some _ =>
      exists rest, speeds acc = 0 :: rest /\ Forall (fun y => (y <? 0) = false) rest
  end.

(** The denominator of the percentages: the number of points, or 1 when
    there is none. *)
Definition total_points (semantic_labels : list Z) : Z :=
  if (0 <? length semantic_labels)%nat
  then Z.of_nat (length semantic_labels) else 1%Z.

(** The percentage the source computes for one class id. *)
Definition percent_of {F : Type} `{Arith F} (semantic_labels : list Z) (u : Z) : F :=
  n_mul (n_div (of_int (Z.of_nat (count_occ Z.eq_dec semantic_labels u)))
               (of_int (total_points semantic_labels)))
        (of_int 100).

(** The order of the binary64 values other than NaN, as a lexicographic
    order on integer triples: the class (negative infinity, negative
    finite, zero, positive finite, positive infinity), then the exponent,
    then the mantissa, the last two negated for negative values. *)
Definition SFkey (f : spec_float) : Z * Z * Z :=
  match f with
  | S754_infinity true => (-2, 0, 0)%Z
  | S754_finite true m e => (-1, - e, - Z.pos m)%Z
  | S754_zero _ => (0, 0, 0)%Z
  | S754_nan => (0, 0, 0)%Z
  | S754_finite false m e => (1, e, Z.pos m)%Z
  | S754_infinity false => (2, 0, 0)%Z
  end.

Definition key_le (a b : Z * Z * Z) : Prop :=
  let '(a1, a2, a3) := a in
  let '(b1, b2, b3) := b in
  (a1 < b1 \/ (a1 = b1 /\ (a2 < b2 \/ (a2 = b2 /\ a3 <= b3))))%Z.

(** [x] is at most [y], for values that are not NaN. *)
Definition float_le (x y : float) : Prop :=
  key_le (SFkey (Prim2SF x)) (SFkey (Prim2SF y)).

(** [instance_ids == inst_id] *)
Definition group_mask (instance_ids : list Z) (inst_id : Z) : list bool :=
  map (fun i => (i =? inst_id)%Z) instance_ids.

(** The entry the instance loop appends for [inst_id]. *)
Definition expected_instance
    (points_front : list point3) (points_img : list (float * float))
    (semantic_labels instance_ids : list Z) (inst_id : Z) : instance :=
  let mask := group_mask instance_ids inst_id in
  Instance (instance_class_name (hd 0%Z (select semantic_labels mask)))
           inst_id
           (get_spatial_location (np_mean (map fst (select points_img mask)))
                                 (np_mean (map snd (select points_img mask))))
           (np_min (map norm_f32 (select points_front mask))).

(** The length of the path through a list of poses: the displacements
    between consecutive poses, added from the first step on. *)
Definition path_length (poses : list mat4) : float :=
  fold_left (fun total pq => total + displacement_of (snd pq) (fst pq))
            (combine poses (tl poses)) 0.

(** What the frame loop has established after [k] frames. *)
Definition run_inv (poses : list mat4) (times : list float)
    (k : nat) (acc : accum) : Prop :=
  let fs := frame_summaries acc in
  (k <= length poses)%nat /\ (k <= length times)%nat /\
  map fs_frame_id fs = seq 0 k /\
  map fs_timestamp fs = firstn k times /\
  speeds acc = map fs_speed fs /\
  class_percentages_list acc = map fs_class_percentages fs /\
  object_counts_list acc =
    map (fun f => ObjectCounts (fs_timestamp f) (fs_num_cars f) (fs_num_persons f)) fs /\
  total_distance acc = path_length (firstn k poses) /\
  prev acc =
    match k with
    | O => None
    | S j =>
        match nth_error poses j, nth_error times j with
        | Some p, Some t => Some (p, t)
        | _, _ => None
        end
    end /\
  prev_speed acc = last (speeds acc) 0 /\
  (forall i f g p q,
     nth_error fs i = Some f -> nth_error fs (S i) = Some g ->
     nth_error poses i = Some p -> nth_error poses (S i) = Some q ->
     let dt := fs_timestamp g - fs_timestamp f in
     fs_speed g = (if 0 <? dt then displacement_of q p / dt else 0) /\
     fs_acceleration g = (if 0 <? dt then (fs_speed g - fs_speed f) / dt else 0)).

(** The iteration order of sets is some order of their elements. *)
Definition set_order (set_iter : list string -> list string) : Prop :=
  forall s, Permutation s (set_iter s).

(** Two sequence summaries that differ at most in the order in which the
    class names are listed. *)
Definition same_up_to_class_order (a b : sequence_summary) : Prop :=
  total_frames a = total_frames b /\
  total_duration a = total_duration b /\
  ss_total_distance a = ss_total_distance b /\
  average_speed a = average_speed b /\
  min_speed a = min_speed b /\
  max_speed a = max_speed b /\
  average_speed_from_frames a = average_speed_from_frames b /\
  Permutation (ss_average_class_percentages a) (ss_average_class_percentages b) /\
  Permutation (total_unique_classes a) (total_unique_classes b) /\
  time_series a = time_series b.

(** The sum of a list of rationals. *)
Definition sumQ (xs : list Q) : Q := fold_right Qplus 0%Q xs.

(** Powers of two, of either sign of the exponent. *)
Definition pow2 (e : Z) : Q := (2 ^ e)%Q.

(** The exact value of a finite binary64 number (0 for the others). *)
Definition SF2Q (f : spec_float) : Q :=
  match f with
  | S754_finite s m e => ((if s then -1 else 1) * inject_Z (Z.pos m) * pow2 e)%Q
  | _ => 0%Q
  end.

Definition Q_of_float (x : float) : Q := SF2Q (Prim2SF x).

(** A positive normal binary64 number with mantissa [m] and exponent [e]. *)
Definition normal_value (x : float) (m : positive) (e : Z) : Prop :=
  Prim2SF x = S754_finite false m e /\ (2 ^ 52 <= Z.pos m < 2 ^ 53)%Z.

(** The unit roundoff of binary64, [2^-53]. *)
Definition u53 : Q := (1 # 9007199254740992)%Q.

(** The distance from 100 that two roundings per percentage allow to the
    sum of the percentages of a frame: [100 * ((1 + 2^-53)^2 - 1)], a
    little above [2.2e-14]. *)
Definition percent_tolerance : Q := (100 * (2 * u53 + u53 * u53))%Q.

(** What a shift-right record of the rounding algorithm says about the
    position of [x] between the integers [shr_m r] and [shr_m r + 1]. *)
Definition rec_ok (x : Q) (r : shr_record) : Prop :=
  let m := inject_Z (shr_m r) in
  match shr_r r, shr_s r with
  | false, false => (m <= x /\ x <= m)%Q
  | false, true => (m < x /\ x < m + (1 # 2))%Q
  | true, false => (m + (1 # 2) <= x /\ x <= m + (1 # 2))%Q
  | true, true => (m + (1 # 2) < x /\ x < m + 1)%Q
  end.

(** The image cell a 2D point falls into: [(int(v), int(u))]. *)
Definition cell (pt : float * float) : Z * Z :=
  (match PcdToProjection.py_int (snd pt) with Some y => y | None => 0%Z end,
   match PcdToProjection.py_int (fst pt) with Some x => x | None => 0%Z end).

(* ------------------------------------------------------------------ *)
(** ** Sample data *)

Module Sample.
(** The identity transform. *)
Definition Tr : mat4 := M4 (V4 1 0 0 0) (V4 0 1 0 0) (V4 0 0 1 0) (V4 0 0 0 1).

(** A pinhole projection with focal length 700 and principal point
    (600, 180). *)
Definition P2 : mat34 := M34 (V4 700 0 600 0) (V4 0 700 180 0) (V4 0 0 1 0).

(** A projection whose third row is [0 0 1 -1]: its depth is [z - 1]. *)
Definition P2_shifted : mat34 :=
  M34 (V4 700 0 600 0) (V4 0 700 180 0) (V4 0 0 1 (-1)).

(** Five points: one straight ahead, one behind, one far to the side,
    one ahead and slightly off-axis, one at the origin. *)
Definition points : list point3 :=
  [P3 0 0 1; P3 0 0 (-1); P3 5 0 1; P3 0.5 0.125 2; P3 0 0 0].

(** Their packed labels: instance 5 of class 10 twice, class 10, the
    unknown class 99, unlabeled. *)
Definition labels : list Z := [327690; 327690; 10; 99; 0]%Z.

(** A pose translated by (3, 4, 0). *)
Definition pose_3_4 : mat4 := M4 (V4 1 0 0 3) (V4 0 1 0 4) (V4 0 0 1 0) (V4 0 0 0 1).

(** A sequence of two frames, at times 0 and 2, both showing the sample
    points. *)
Definition sequence : sequence_dir :=
  SequenceDir (Some (Tr, P2)) (Some [Tr; pose_3_4]) (Some [0; 2])
              (fun _ => Some (points, labels)).

(** The same sequence, with one label missing in its second frame. *)
Definition broken_sequence : sequence_dir :=
  SequenceDir (Some (Tr, P2)) (Some [Tr; pose_3_4]) (Some [0; 2])
              (fun frame_id =>
                 match frame_id with
                 | 1%nat => Some (points, [327690; 327690; 10; 99]%Z)
                 | _ => Some (points, labels)
                 end).

(** A dataset with sequences 00 and 02 sound, sequence 01 broken, and
    the other directories missing. *)
Definition dataset (seq_id : nat) : option sequence_dir :=
  match seq_id with
  | 0%nat => Some sequence
  | 1%nat => Some broken_sequence
  | 2%nat => Some sequence
  | _ => None
  end.

(** A sequence of three frames of ten points each, all straight ahead
    of the camera: one car point among nine road points, road points
    only, two car points among eight road points. *)
Definition car_sequence : sequence_dir :=
  SequenceDir (Some (Tr, P2)) (Some [Tr; Tr; Tr]) (Some [0; 1; 2])
              (fun frame_id =>
                 Some (repeat (P3 0 0 1) 10,
                       match frame_id with
                       | 0%nat => 10 :: repeat 40 9
                       | 1%nat => repeat 40 10
                       | _ => 10 :: 10 :: repeat 40 8
                       end)%Z).

(** Stand-ins for [np.arctan2] and [np.degrees] where a statement is
    evaluated. *)
Definition arctan2 (y x : float) : float := 0.
Definition degrees (x : float) : float := x.

(** An iteration order for sets: the reverse of the insertion order. *)
Definition set_iter (s : list string) : list string := rev s.
End Sample.

(* ================================================================== *)
(** * Properties *)

(* ------------------------------------------------------------------ *)
(** ** Boolean-mask indexing *)

Section ArrayFacts.
Context {A B : Type}.

Lemma mask_index_Ok (arr : list A) (mask : list bool) (r : list A) :
  mask_index arr mask = Ok r ->
  length arr = length mask /\ r = select arr mask.
Proof.
  unfold mask_index.
  destruct (Nat.eqb (length arr) (length mask)) eqn:E; [|discriminate].
  intros [= <-]. apply Nat.eqb_eq in E. now split.
Qed.

Lemma mask_index_same_length (arr : list A) (mask : list bool) :
  length arr = length mask -> mask_index arr mask = Ok (select arr mask).
Proof.
  intros E. unfold mask_index. now rewrite E, Nat.eqb_refl.
Qed.

Lemma mask_index_mismatch (arr : list A) (mask : list bool) :
  length arr <> length mask -> mask_index arr mask = Raise IndexError.
Proof.
  intros E. unfold mask_index.
  destruct (Nat.eqb (length arr) (length mask)) eqn:E'; [|reflexivity].
  apply Nat.eqb_eq in E'. contradiction.
Qed.

(** Selecting from an array computed from [l] with a mask computed from
    [l] is filtering [l]. *)
Lemma select_map_map (f : A -> B) (g : A -> bool) (l : list A) :
  select (map f l) (map g l) = map f (filter g l).
Proof.
  induction l as [|a l IH]; simpl; [reflexivity|].
  destruct (g a); simpl; now rewrite IH.
Qed.

Lemma select_map_self (g : A -> bool) (l : list A) :
  select l (map g l) = filter g l.
Proof.
  induction l as [|a l IH]; simpl; [reflexivity|].
  destruct (g a); simpl; now rewrite IH.
Qed.

Lemma filter_filter (g h : A -> bool) (l : list A) :
  filter h (filter g l) = filter (fun a => g a && h a) l.
Proof.
  induction l as [|a l IH]; simpl; [reflexivity|].
  destruct (g a); simpl; [destruct (h a)|]; now rewrite IH.
Qed.

Lemma fst_combine (l : list A) (l' : list B) :
  length l = length l' -> map fst (combine l l') = l.
Proof.
  revert l'. induction l as [|a l IH]; intros [|b l']; simpl; try discriminate;
    [reflexivity|]. intros [= E]. now rewrite IH.
Qed.

Lemma snd_combine (l : list A) (l' : list B) :
  length l = length l' -> map snd (combine l l') = l'.
Proof.
  revert l'. induction l as [|a l IH]; intros [|b l']; simpl; try discriminate;
    [reflexivity|]. intros [= E]. now rewrite IH.
Qed.
End ArrayFacts.

(* ------------------------------------------------------------------ *)
(** ** Comparisons of binary64 values *)

(** A value that is [<= 0] is not [> 0]. *)
Lemma leb_zero_not_pos (x : float) : (x <=? 0) = true -> (0 <? x) = false.
Proof.
  rewrite leb_spec, ltb_spec.
  change (Prim2SF 0) with (S754_zero false).
  unfold SFleb, SFltb.
  destruct (Prim2SF x) as [s|s| |s m e]; simpl; try discriminate; try reflexivity;
    destruct s; simpl; try discriminate; reflexivity.
Qed.

(* ------------------------------------------------------------------ *)
(** ** The projection *)

Section ProjectionFacts.
Context {L : Type}.
Variables (Tr : mat4) (P2 : mat34).

Lemma front_hemisphere_spec (points : list point3) (labels : list L) paz pcam laz :
  front_hemisphere points labels Tr = Ok (paz, pcam, laz) ->
  length labels = length points /\
  let kept := filter (fun pl => 0 <? camera_z Tr (fst pl)) (combine points labels) in
  paz = map fst kept /\
  pcam = map (fun pl => to_camera Tr (fst pl)) kept /\
  laz = map snd kept.
Proof.
  unfold front_hemisphere. rewrite map_map.
  rewrite (mask_index_same_length points) by now rewrite length_map.
  rewrite (mask_index_same_length (map _ points)) by now rewrite !length_map.
  cbn [bind].
  destruct (mask_index labels _) as [l|e] eqn:El; cbn [bind]; [|discriminate].
  apply mask_index_Ok in El as [Elen ->]. rewrite length_map in Elen.
  intros [= <- <- <-]. split; [assumption|].
  cbn zeta.
  set (g := fun pl : point3 * L => 0 <? camera_z Tr (fst pl)).
  assert (Ep : points = map fst (combine points labels))
    by (symmetry; now apply fst_combine).
  assert (El : labels = map snd (combine points labels))
    by (symmetry; now apply snd_combine).
  assert (Em : map (fun x => 0 <? v4z (to_camera Tr x)) points
               = map g (combine points labels)).
  { rewrite Ep at 1. rewrite map_map. reflexivity. }
  change (fun x : point3 => 0 <? dot4 (m4r2 Tr) (homogenize x))
    with (fun x : point3 => 0 <? v4z (to_camera Tr x)).
  rewrite Em. repeat split.
  - rewrite Ep at 1. apply select_map_map.
  - rewrite Ep at 1. rewrite map_map. apply select_map_map.
  - rewrite El at 1. apply select_map_map.
Qed.

Lemma front_hemisphere_total (points : list point3) (labels : list L) :
  length labels = length points ->
  exists r, front_hemisphere points labels Tr = Ok r.
Proof.
  intros E. unfold front_hemisphere.
  rewrite (mask_index_same_length points) by now rewrite !length_map.
  rewrite (mask_index_same_length (map _ points)) by now rewrite !length_map.
  rewrite (mask_index_same_length labels) by now rewrite !length_map.
  cbn [bind]. eauto.
Qed.

Lemma front_hemisphere_mismatch (points : list point3) (labels : list L) :
  length labels <> length points ->
  front_hemisphere points labels Tr = Raise IndexError.
Proof.
  intros E. unfold front_hemisphere.
  rewrite (mask_index_same_length points) by now rewrite !length_map.
  rewrite (mask_index_same_length (map _ points)) by now rewrite !length_map.
  rewrite (mask_index_mismatch labels) by now rewrite !length_map.
  reflexivity.
Qed.

(** The three returned arrays are the visible (point, label) pairs of
    the input, in input order, with the pixel of each point. *)
Lemma project_to_front_view_spec (points : list point3) (labels : list L) pf pi lf :
  project_to_front_view points labels Tr P2 = Ok (pf, pi, lf) ->
  length labels = length points /\
  let kept := filter (fun pl => visible Tr P2 (fst pl)) (combine points labels) in
  pf = map fst kept /\
  pi = map (fun pl => pixel Tr P2 (fst pl)) kept /\
  lf = map snd kept.
Proof.
  unfold project_to_front_view.
  destruct (front_hemisphere points labels Tr) as [[[paz pcam] laz]|e] eqn:Ef;
    cbn [bind]; [|discriminate].
  apply front_hemisphere_spec in Ef as (Elen & Epaz & Epcam & Elaz).
  cbn zeta in Epaz, Epcam, Elaz.
  set (Z := filter _ (combine points labels)) in *.
  assert (Eimg : image_plane P2 pcam = map (fun pl => pixel Tr P2 (fst pl)) Z).
  { unfold image_plane. rewrite Epcam, !map_map. reflexivity. }
  rewrite Eimg, map_map.
  assert (Lz : forall (X : Type) (f : point3 * L -> X),
             length (map f Z) = length (map (fun x => in_image (pixel Tr P2 (fst x))) Z))
    by (intros; now rewrite !length_map).
  rewrite Epaz, Elaz.
  rewrite !mask_index_same_length by apply Lz. cbn [bind].
  intros [= <- <- <-]. split; [assumption|].
  cbn zeta. rewrite !select_map_map. unfold Z. rewrite filter_filter.
  unfold visible. repeat split.
Qed.

Lemma project_to_front_view_total (points : list point3) (labels : list L) :
  length labels = length points ->
  exists r, project_to_front_view points labels Tr P2 = Ok r.
Proof.
  intros E. unfold project_to_front_view.
  destruct (front_hemisphere points labels Tr) as [[[paz pcam] laz]|e] eqn:Ef.
  - apply front_hemisphere_spec in Ef as (_ & -> & -> & ->). cbn [bind].
    unfold image_plane.
    rewrite !mask_index_same_length by now rewrite !length_map.
    cbn [bind]. eauto.
  - destruct (front_hemisphere_total points labels E) as [r Er]. congruence.
Qed.

Lemma project_to_front_view_mismatch (points : list point3) (labels : list L) :
  length labels <> length points ->
  project_to_front_view points labels Tr P2 = Raise IndexError.
Proof.
  intros E. unfold project_to_front_view.
  now rewrite front_hemisphere_mismatch.
Qed.
End ProjectionFacts.

(** The two copies of the routine agree on every input. *)
Lemma test_statistics_projection {L : Type}
    (points : list point3) (labels : list L) (Tr : mat4) (P2 : mat34) :
  TestStatistics.project_to_front_view points labels Tr P2 =
  project_to_front_view points labels Tr P2.
Proof.
  unfold TestStatistics.project_to_front_view, project_to_front_view,
    front_hemisphere.
  rewrite (mask_index_same_length points) by now rewrite !length_map.
  rewrite (mask_index_same_length (map _ points)) by now rewrite !length_map.
  cbn [bind]. now destruct (mask_index labels _).
Qed.

(** Every returned point is visible. *)
Lemma project_to_front_view_visible {L : Type}
    (points : list point3) (labels : list L) (Tr : mat4) (P2 : mat34)
    (pf : list point3) (pi : list (float * float)) (lf : list L) (p : point3) :
  project_to_front_view points labels Tr P2 = Ok (pf, pi, lf) ->
  In p pf -> visible Tr P2 p = true.
Proof.
  intros H Hp. apply project_to_front_view_spec in H as (_ & -> & _ & _).
  apply in_map_iff in Hp as ([q l] & <- & Hq).
  now apply filter_In in Hq as [_ Hv].
Qed.

Lemma combine_fst_snd {A B} (l : list (A * B)) :
  combine (map fst l) (map snd l) = l.
Proof.
  induction l as [|[a b] l IH]; simpl; [reflexivity|]. now rewrite IH.
Qed.

(** C1.  Whatever the points, labels and calibration matrices, a point
    whose camera-frame z is [<= 0] is not in the output of
    [project_to_front_view] (in either of the two files): every returned
    point has camera-frame z [> 0].  The mask is applied before the
    perspective division: the division only runs over the camera-frame
    points that passed it. *)
Theorem front_hemisphere_filter {L : Type}
    (points : list point3) (labels : list L) (Tr : mat4) (P2 : mat34)
    (pf : list point3) (pi : list (float * float)) (lf : list L) :
  project_to_front_view points labels Tr P2 = Ok (pf, pi, lf) \/
  TestStatistics.project_to_front_view points labels Tr P2 = Ok (pf, pi, lf) ->
  (forall p, In p pf -> (0 <? camera_z Tr p) = true) /\
  (forall p, (camera_z Tr p <=? 0) = true -> ~ In p pf) /\
  exists paz pcam laz,
    front_hemisphere points labels Tr = Ok (paz, pcam, laz) /\
    Forall (fun c => (0 <? v4z c) = true) pcam /\
    pi = select (image_plane P2 pcam) (map in_image (image_plane P2 pcam)).
Proof.
  intros H.
  assert (H' : project_to_front_view points labels Tr P2 = Ok (pf, pi, lf))
    by (destruct H as [H|H]; [|rewrite test_statistics_projection in H]; exact H).
  clear H. rename H' into H.
  assert (Hpos : forall p, In p pf -> (0 <? camera_z Tr p) = true).
  { apply project_to_front_view_spec in H as (_ & -> & _ & _).
    intros p Hp. apply in_map_iff in Hp as ([q l] & <- & Hq).
    apply filter_In in Hq as [_ Hv]. unfold visible in Hv.
    now apply andb_prop in Hv as [Hz _]. }
  split; [exact Hpos|]. split.
  - intros p Hz Hp. apply leb_zero_not_pos in Hz.
    rewrite (Hpos p Hp) in Hz. discriminate.
  - unfold project_to_front_view in H.
    destruct (front_hemisphere points labels Tr) as [[[paz pcam] laz]|e] eqn:Ef;
      cbn [bind] in H; [|discriminate].
    exists paz, pcam, laz. split; [reflexivity|]. split.
    + apply front_hemisphere_spec in Ef as (_ & _ & -> & _).
      apply Forall_forall. intros c Hc.
      apply in_map_iff in Hc as ([q l] & <- & Hq).
      now apply filter_In in Hq as [_ Hq].
    + destruct (mask_index paz _) as [x|]; cbn [bind] in H; [|discriminate].
      destruct (mask_index (image_plane P2 pcam) _) as [y|] eqn:Ey;
        cbn [bind] in H; [|discriminate].
      destruct (mask_index laz _) as [z|]; cbn [bind] in H; [|discriminate].
      injection H as <- <- <-. now apply mask_index_Ok in Ey as [_ ->].
Qed.

Lemma front_hemisphere_filter_witness :
  project_to_front_view Sample.points Sample.labels Sample.Tr Sample.P2
    = Ok ([P3 0 0 1; P3 0.5 0.125 2], [(600, 180); (775, 223.75)], [327690; 99]%Z)
  /\ ~ In (P3 0 0 (-1)) [P3 0 0 1; P3 0.5 0.125 2].
Proof.
  assert (H : project_to_front_view Sample.points Sample.labels Sample.Tr Sample.P2
              = Ok ([P3 0 0 1; P3 0.5 0.125 2], [(600, 180); (775, 223.75)],
                    [327690; 99]%Z)) by (vm_compute; reflexivity).
  split; [exact H|].
  apply (proj1 (proj2 (front_hemisphere_filter _ _ _ _ (or_introl H)))).
  vm_compute; reflexivity.
Defined.

(** C2.  Every 2D point returned by [project_to_front_view] (in either
    of the two files) satisfies [0 <= u < 1242] and [0 <= v < 375].  The
    three returned arrays are co-indexed: they have
    one length, the 2D point at an index is the pixel of the 3D point at
    that index, the (point, label) pairs are pairs of the input, and a
    point whose pixel is out of bounds is in none of them. *)
Theorem image_bounds_filter {L : Type}
    (points : list point3) (labels : list L) (Tr : mat4) (P2 : mat34)
    (pf : list point3) (pi : list (float * float)) (lf : list L) :
  project_to_front_view points labels Tr P2 = Ok (pf, pi, lf) \/
  TestStatistics.project_to_front_view points labels Tr P2 = Ok (pf, pi, lf) ->
  (forall u v, In (u, v) pi ->
     (0 <=? u) = true /\ (u <? 1242) = true /\
     (0 <=? v) = true /\ (v <? 375) = true) /\
  length pf = length pi /\ length lf = length pi /\
  (forall i p, nth_error pf i = Some p -> nth_error pi i = Some (pixel Tr P2 p)) /\
  (forall p l, In (p, l) (combine pf lf) ->
     In (p, l) (combine points labels) /\ in_image (pixel Tr P2 p) = true) /\
  (forall p, in_image (pixel Tr P2 p) = false -> ~ In p pf).
Proof.
  intros H.
  assert (H' : project_to_front_view points labels Tr P2 = Ok (pf, pi, lf))
    by (destruct H as [H|H]; [|rewrite test_statistics_projection in H]; exact H).
  clear H. apply project_to_front_view_spec in H' as (_ & -> & -> & ->).
  set (kept := filter _ (combine points labels)).
  assert (Hk : forall pl, In pl kept ->
             In pl (combine points labels) /\ in_image (pixel Tr P2 (fst pl)) = true).
  { intros pl Hpl. apply filter_In in Hpl as [Hin Hv]. split; [assumption|].
    unfold visible in Hv. now apply andb_prop in Hv as [_ Hv]. }
  repeat split.
  1-4: apply in_map_iff in H as (pl & E & Hpl); apply Hk in Hpl as [_ Hb];
       rewrite E in Hb; unfold in_image in Hb;
       repeat (apply andb_prop in Hb as [Hb ?]); assumption.
  - now rewrite !length_map.
  - now rewrite !length_map.
  - intros i p Hi. rewrite nth_error_map in *.
    destruct (nth_error kept i) as [pl|]; simpl in *; [|discriminate].
    now injection Hi as <-.
  - rewrite combine_fst_snd in H. now apply Hk in H.
  - rewrite combine_fst_snd in H. now apply Hk in H as [_ H].
  - intros p Hp Hin. apply in_map_iff in Hin as (pl & <- & Hpl).
    apply Hk in Hpl as [_ Hb]. congruence.
Qed.

Lemma image_bounds_filter_witness :
  project_to_front_view Sample.points Sample.labels Sample.Tr Sample.P2
    = Ok ([P3 0 0 1; P3 0.5 0.125 2], [(600, 180); (775, 223.75)], [327690; 99]%Z)
  /\ ~ In (P3 5 0 1) [P3 0 0 1; P3 0.5 0.125 2].
Proof.
  assert (H : project_to_front_view Sample.points Sample.labels Sample.Tr Sample.P2
              = Ok ([P3 0 0 1; P3 0.5 0.125 2], [(600, 180); (775, 223.75)],
                    [327690; 99]%Z)) by (vm_compute; reflexivity).
  split; [exact H|].
  apply (proj2 (proj2 (proj2 (proj2 (proj2
           (image_bounds_filter _ _ _ _ (or_introl H))))))).
  vm_compute; reflexivity.
Defined.

(* ------------------------------------------------------------------ *)
(** ** The perspective division *)

Lemma eqb_zero_inv (w : float) :
  (w =? 0) = true -> exists s, Prim2SF w = S754_zero s.
Proof.
  rewrite FloatAxioms.eqb_spec. change (Prim2SF 0) with (S754_zero false).
  unfold SFeqb. destruct (Prim2SF w) as [s|s| |s m e]; simpl;
    try discriminate; try (destruct s; discriminate). eauto.
Qed.

(** A quotient by a zero is a NaN or an infinity, which no image bound
    admits. *)
Lemma div_zero_out_of_range (x w bound : float) (m : positive) (e : Z) :
  (w =? 0) = true ->
  Prim2SF bound = S754_finite false m e ->
  (0 <=? x / w) && (x / w <? bound) = false.
Proof.
  intros Hw Hb. apply eqb_zero_inv in Hw as [s Hw].
  rewrite leb_spec, ltb_spec, div_spec, Hw, Hb.
  change (Prim2SF 0) with (S754_zero false).
  unfold SF64div, SFdiv, SFleb, SFltb.
  destruct (Prim2SF x) as [sx|sx| |sx mx ex]; simpl; try reflexivity;
    destruct (xorb sx s); reflexivity.
Qed.

Lemma zero_depth_not_in_image (u' v' w : float) :
  (w =? 0) = true -> in_image (perspective_divide (u', v', w)) = false.
Proof.
  intros Hw. unfold perspective_divide, in_image.
  erewrite div_zero_out_of_range; [reflexivity|exact Hw|].
  vm_compute. reflexivity.
Qed.

(** C9, as the code has it.  The depth [w] of a point that passed the
    front-hemisphere mask can be zero; the division is IEEE division and
    is not guarded.  A quotient by zero is an infinity or a NaN, so the
    image-bounds mask removes every such point: no returned point has
    [w = 0]. *)
Theorem zero_depth_dropped {L : Type}
    (points : list point3) (labels : list L) (Tr : mat4) (P2 : mat34)
    (pf : list point3) (pi : list (float * float)) (lf : list L) :
  project_to_front_view points labels Tr P2 = Ok (pf, pi, lf) ->
  (forall p, (w_value Tr P2 p =? 0) = true -> in_image (pixel Tr P2 p) = false) /\
  (forall p, In p pf -> (w_value Tr P2 p =? 0) = false).
Proof.
  intros H.
  assert (Hz : forall p, (w_value Tr P2 p =? 0) = true ->
                         in_image (pixel Tr P2 p) = false).
  { intros p Hw. unfold pixel, w_value in *.
    destruct (raw_projection P2 (to_camera Tr p)) as [[u' v'] w].
    now apply zero_depth_not_in_image. }
  split; [exact Hz|].
  intros p Hp. destruct (w_value Tr P2 p =? 0) eqn:Hw; [|reflexivity].
  apply Hz in Hw.
  pose proof (project_to_front_view_visible _ _ _ _ p H Hp) as Hv.
  unfold visible in Hv. apply andb_prop in Hv as [_ Hv]. congruence.
Qed.

Lemma zero_depth_dropped_witness :
  project_to_front_view [P3 0 0 1; P3 0 0 2] [10; 10]%Z Sample.Tr Sample.P2_shifted
    = Ok ([P3 0 0 2], [(1200, 360)], [10%Z])
  /\ ~ In (P3 0 0 1) [P3 0 0 2].
Proof.
  assert (H : project_to_front_view [P3 0 0 1; P3 0 0 2] [10; 10]%Z
                Sample.Tr Sample.P2_shifted
              = Ok ([P3 0 0 2], [(1200, 360)], [10%Z])) by (vm_compute; reflexivity).
  split; [exact H|].
  intros Hin. apply (proj2 (zero_depth_dropped _ _ _ _ H)) in Hin.
  vm_compute in Hin. discriminate.
Defined.

(** C9 as stated fails: with the identity transform and a projection
    whose third row is [0 0 1 -1], the point (0, 0, 1) passes the
    front-hemisphere mask, its depth [w] is exactly 0, and the division
    is carried out (both quotients are infinite). *)
Lemma zero_depth_after_front_filter :
  front_hemisphere [P3 0 0 1] [10%Z] Sample.Tr
    = Ok ([P3 0 0 1], [V4 0 0 1 1], [10%Z]) /\
  (0 <? camera_z Sample.Tr (P3 0 0 1)) = true /\
  (w_value Sample.Tr Sample.P2_shifted (P3 0 0 1) =? 0) = true /\
  image_plane Sample.P2_shifted [V4 0 0 1 1] = [(infinity, infinity)].
Proof. vm_compute. repeat split. Qed.

(* ------------------------------------------------------------------ *)
(** ** Ego motion *)

(** Inversion of a successful [bind]. *)
Ltac bind_ok H :=
  repeat match type of H with
    | bind ?m _ = Ok _ =>
        let E := fresh "E" in
        destruct m eqn:E; cbn [bind] in H; [|discriminate]
    | (let '(_, _) := ?p in _) = Ok _ => destruct p
    end.

(** C6.  With a previous frame: when the elapsed time is positive, the
    speed is displacement / elapsed time and the acceleration is
    (speed - previous speed) / elapsed time; when it is [<= 0] (or not
    positive in any way) both are 0.  The division is never applied to a
    divisor that is not positive: replacing it by any operator that agrees
    with it on positive divisors changes nothing.  Without a previous
    frame, speed and acceleration are 0 and the total distance is
    unchanged; in the frame loop this is the case of the frame processed
    when no previous pose is recorded. *)
Theorem ego_motion_guarded
    (prev_pose current_pose : mat4) (prev_time current_time : float)
    (prev_speed total : float) :
  let dt := current_time - prev_time in
  let d := displacement_of current_pose prev_pose in
  let e := ego_motion (Some (prev_pose, prev_time)) prev_speed total
                      current_pose current_time in
  ((0 <? dt) = true ->
     ego_speed e = d / dt /\ ego_acceleration e = (d / dt - prev_speed) / dt) /\
  ((dt <=? 0) = true -> ego_speed e = 0 /\ ego_acceleration e = 0) /\
  ((0 <? dt) = false -> ego_speed e = 0 /\ ego_acceleration e = 0) /\
  (forall divide : float -> float -> float,
     (forall x y, (0 <? y) = true -> divide x y = x / y) ->
     ego_motion_with divide (Some (prev_pose, prev_time)) prev_speed total
                     current_pose current_time = e) /\
  ego_motion None prev_speed total current_pose current_time = Ego 0 0 total /\
  (forall arctan2 degrees sd Tr P2 poses times acc frame_id acc',
     prev acc = None ->
     process_frame arctan2 degrees sd Tr P2 poses times acc frame_id = Ok acc' ->
     total_distance acc' = total_distance acc /\
     speeds acc' = speeds acc ++ [0] /\
     exists fs, frame_summaries acc' = frame_summaries acc ++ [fs] /\
                fs_speed fs = 0 /\ fs_acceleration fs = 0).
Proof.
  cbv zeta. unfold ego_motion, ego_motion_with.
  repeat split.
  - now rewrite H.
  - now rewrite H.
  - now rewrite (leb_zero_not_pos H).
  - now rewrite (leb_zero_not_pos H).
  - now rewrite H.
  - now rewrite H.
  - intros divide Hd.
    destruct (0 <? current_time - prev_time) eqn:Hdt; [|reflexivity].
    now rewrite !Hd.
  - unfold process_frame in H0. bind_ok H0.
    injection H0 as <-. cbn. now rewrite H.
  - unfold process_frame in H0. bind_ok H0.
    injection H0 as <-. cbn. now rewrite H.
  - unfold process_frame in H0. bind_ok H0.
    injection H0 as <-. cbn. rewrite H. eexists. split; [reflexivity|].
    cbn. split; reflexivity.
Qed.

Lemma ego_motion_guarded_witness :
  (0 <? 1.5 - 1) = true /\
  ego_speed (ego_motion (Some (Sample.Tr, 1)) 0 0
               (M4 (V4 1 0 0 3) (V4 0 1 0 4) (V4 0 0 1 0) (V4 0 0 0 1)) 1.5)
    = displacement_of (M4 (V4 1 0 0 3) (V4 0 1 0 4) (V4 0 0 1 0) (V4 0 0 0 1))
                      Sample.Tr / (1.5 - 1).
Proof.
  split; [vm_compute; reflexivity|].
  apply (proj1 (ego_motion_guarded Sample.Tr
           (M4 (V4 1 0 0 3) (V4 0 1 0 4) (V4 0 0 1 0) (V4 0 0 0 1)) 1 1.5 0 0)).
  vm_compute; reflexivity.
Defined.

(* ------------------------------------------------------------------ *)
(** ** Speeds are never negative *)

Lemma binary_round_aux_not_neg (m e : Z) (l : location) :
  SFltb (binary_round_aux prec emax false m e l) (S754_zero false) = false.
Proof.
  unfold binary_round_aux.
  destruct (shr_fexp prec emax m e l) as [mrs' e'].
  destruct (shr_fexp prec emax _ e' loc_Exact) as [mrs'' e''].
  destruct (shr_m mrs''); [reflexivity| |reflexivity].
  destruct (e'' <=? emax - prec)%Z; reflexivity.
Qed.

(** A square root is a NaN, a zero, or positive. *)
Lemma sqrt_not_neg (x : float) : (sqrt x <? 0) = false.
Proof.
  rewrite ltb_spec, sqrt_spec. change (Prim2SF 0) with (S754_zero false).
  unfold SF64sqrt, SFsqrt.
  destruct (Prim2SF x) as [s|s| |s m e]; try reflexivity.
  - destruct s; reflexivity.
  - destruct s; [reflexivity|].
    destruct (SFsqrt_core_binary prec emax (Z.pos m) e) as [[mz ez] lz].
    apply binary_round_aux_not_neg.
Qed.

(** A value that is not negative, divided by a positive one, is not
    negative. *)
Lemma div_not_neg (x y : float) :
  (x <? 0) = false -> (0 <? y) = true -> (x / y <? 0) = false.
Proof.
  rewrite !ltb_spec, div_spec. change (Prim2SF 0) with (S754_zero false).
  unfold SF64div, SFdiv.
  destruct (Prim2SF x) as [sx|sx| |sx mx ex], (Prim2SF y) as [sy|sy| |sy my ey];
    try destruct sx; try destruct sy; cbn; try discriminate; try reflexivity.
  intros _ _.
  destruct (SFdiv_core_binary prec emax (Z.pos mx) ex (Z.pos my) ey) as [[mz ez] lz].
  apply binary_round_aux_not_neg.
Qed.

Lemma py_min_zero_first (rest : list float) :
  Forall (fun y => (y <? 0) = false) rest -> py_min (0 :: rest) = 0.
Proof.
  unfold py_min. induction 1 as [|y rest Hy _ IH]; cbn [fold_left];
    [reflexivity|]. now rewrite Hy.
Qed.

Section SpeedFacts.
Variables (arctan2 : float -> float -> float) (degrees : float -> float).
Variable set_iter : list string -> list string.
Variables (sd : sequence_dir) (Tr : mat4) (P2 : mat34).
Variables (poses : list mat4) (times : list float).

Lemma ego_speed_not_neg prv prev_speed total pose t :
  (ego_speed (ego_motion prv prev_speed total pose t) <? 0) = false.
Proof.
  unfold ego_motion, ego_motion_with. destruct prv as [[prev_pose prev_time]|];
    [|reflexivity]. cbn [ego_speed].
  destruct (0 <? t - prev_time) eqn:Hdt; [|reflexivity].
  apply div_not_neg; [|exact Hdt].
  unfold displacement_of.
  destruct (translation pose) as [[cx cy] cz].
  destruct (translation prev_pose) as [[qx qy] qz].
  apply sqrt_not_neg.
Qed.

Lemma process_frame_speeds_ok acc frame_id acc' :
  process_frame arctan2 degrees sd Tr P2 poses times acc frame_id = Ok acc' ->
  speeds_ok acc -> speeds_ok acc' /\ prev acc' <> None.
Proof.
  intros H [Hmap Hinv]. unfold process_frame in H. bind_ok H.
  injection H as <-. unfold speeds_ok. cbn. split; [split|discriminate].
  - rewrite map_app, Hmap. reflexivity.
  - destruct (prev acc) as [pv|].
    + destruct Hinv as (rest & -> & Hrest).
      eexists. split; [reflexivity|].
      apply Forall_app. split; [assumption|].
      constructor; [|constructor]. apply ego_speed_not_neg.
    + rewrite Hinv. exists []. split; [reflexivity|constructor].
Qed.

Lemma frames_loop_speeds_ok frame_ids : forall acc acc',
  frames_loop arctan2 degrees sd Tr P2 poses times frame_ids acc = Ok acc' ->
  speeds_ok acc -> speeds_ok acc' /\ (frame_ids <> [] -> prev acc' <> None).
Proof.
  induction frame_ids as [|i rest IH]; intros acc acc' H Hacc.
  - injection H as <-. split; [assumption|congruence].
  - cbn [frames_loop] in H. bind_ok H.
    apply process_frame_speeds_ok in E as [Hok Hprev]; [|assumption].
    destruct (IH _ _ H Hok) as [Hok' Hprev']. split; [assumption|].
    intros _. destruct rest as [|j rest'].
    + injection H as <-. assumption.
    + apply Hprev'. discriminate.
Qed.
End SpeedFacts.

(** C10.  Whenever [process_sequence] produces a summary, its
    [min_speed] is 0: the speed of the first frame is 0, no frame's speed
    is negative, and Python's [min] keeps the first of the smallest
    values. *)
Theorem min_speed_is_zero
    (arctan2 : float -> float -> float) (degrees : float -> float)
    (set_iter : list string -> list string)
    (sd : sequence_dir) (fs : list frame_summary) (ss : sequence_summary) :
  process_sequence arctan2 degrees set_iter sd = Ok (fs, ss) ->
  min_speed ss = 0 /\
  (forall f, hd_error fs = Some f -> fs_speed f = 0) /\
  Forall (fun f => (fs_speed f <? 0) = false) fs.
Proof.
  intros H. unfold process_sequence in H. bind_ok H.
  injection H as <- <-.
  match goal with
  | Hl : frames_loop _ _ _ _ _ _ _ _ _ = Ok ?a |- _ =>
      rename a into acc;
      apply frames_loop_speeds_ok in Hl as [[Hmap Hinv] Hprev];
      [|split; reflexivity]
  end.
  match goal with
  | Hs : summarize _ _ _ _ = Ok _ |- _ =>
      unfold summarize in Hs; bind_ok Hs; injection Hs as <-
  end.
  cbn [min_speed].
  destruct (prev acc) as [pv|].
  - destruct Hinv as (rest & Hs & Hrest). rewrite Hs.
    split; [now apply py_min_zero_first|].
    rewrite Hs in Hmap.
    destruct (frame_summaries acc) as [|f fs']; [discriminate|].
    cbn in Hmap. injection Hmap as Hf Hrest'. split.
    + intros f' [= <-]. now symmetry.
    + constructor; [now rewrite <- Hf|].
      subst rest. apply Forall_map in Hrest. exact Hrest.
  - rewrite Hinv in *. split; [reflexivity|].
    destruct (frame_summaries acc); [|discriminate].
    split; [discriminate|constructor].
Qed.

Lemma min_speed_is_zero_witness :
  exists fs ss,
    process_sequence Sample.arctan2 Sample.degrees Sample.set_iter Sample.sequence = Ok (fs, ss) /\
    length fs = 2%nat /\ min_speed ss = 0.
Proof.
  destruct (process_sequence Sample.arctan2 Sample.degrees Sample.set_iter Sample.sequence)
    as [[fs ss]|e] eqn:E; [|vm_compute in E; discriminate].
  exists fs, ss. split; [reflexivity|]. split.
  - vm_compute in E. now injection E as <- _.
  - exact (proj1 (min_speed_is_zero _ _ _ _ E)).
Defined.

(* ------------------------------------------------------------------ *)
(** ** Dictionaries *)

Section DictFacts.
Variables K V : Type.
Variable eqb : K -> K -> bool.
Hypothesis eqb_eq : forall a b, eqb a b = true <-> a = b.

Lemma eqb_same (a : K) : eqb a a = true.
Proof. now apply eqb_eq. Qed.

Lemma eqb_differ (a b : K) : a <> b -> eqb a b = false.
Proof.
  intros N. destruct (eqb a b) eqn:E; [|reflexivity].
  apply eqb_eq in E. contradiction.
Qed.

Lemma dict_get_In (d : dict K V) (k : K) (v : V) :
  dict_get eqb d k = Some v -> In (k, v) d.
Proof.
  induction d as [|[k' v'] d IH]; simpl; [discriminate|].
  destruct (eqb k' k) eqn:E.
  - apply eqb_eq in E. intros [= ->]. left. now subst.
  - intros H. right. now apply IH.
Qed.

Lemma dict_get_None (d : dict K V) (k : K) :
  dict_get eqb d k = None <-> ~ In k (dict_keys d).
Proof.
  induction d as [|[k' v'] d IH]; simpl; [tauto|].
  destruct (eqb k' k) eqn:E.
  - apply eqb_eq in E. split; [discriminate|]. intros N. exfalso. tauto.
  - rewrite IH. split.
    + intros N [->|Hin]; [|tauto]. now rewrite eqb_same in E.
    + tauto.
Qed.

(** Setting a key that is not there appends the entry. *)
Lemma dict_set_fresh (d : dict K V) (k : K) (v : V) :
  ~ In k (dict_keys d) -> dict_set eqb d k v = d ++ [(k, v)].
Proof.
  induction d as [|[k' v'] d IH]; simpl; [reflexivity|].
  intros N. rewrite eqb_differ by tauto. rewrite IH by tauto. reflexivity.
Qed.

Lemma fold_dict_set_fresh (items : list (K * V)) : forall d : dict K V,
  NoDup (dict_keys (d ++ items)) ->
  fold_left (fun d kv => dict_set eqb d (fst kv) (snd kv)) items d = d ++ items.
Proof.
  induction items as [|[k v] items IH]; intros d Hnd; simpl.
  - now rewrite app_nil_r.
  - unfold dict_keys in Hnd. rewrite map_app in Hnd. simpl in Hnd.
    rewrite dict_set_fresh.
    + rewrite IH; rewrite <- app_assoc; [reflexivity|].
      unfold dict_keys. now rewrite map_app.
    + apply NoDup_remove_2 in Hnd. intros Hin. apply Hnd.
      apply in_or_app. now left.
Qed.

(** A comprehension over items with distinct keys is the list of items. *)
Lemma dict_of_items_NoDup (items : list (K * V)) :
  NoDup (map fst items) -> dict_of_items eqb items = items.
Proof.
  intros Hnd. unfold dict_of_items. now rewrite fold_dict_set_fresh.
Qed.

Lemma dict_get_map_key (f : K -> V) (keys : list K) (k : K) :
  In k keys -> dict_get eqb (map (fun x => (x, f x)) keys) k = Some (f k).
Proof.
  induction keys as [|k' keys IH]; simpl; [tauto|].
  destruct (eqb k' k) eqn:E.
  - apply eqb_eq in E. now subst.
  - intros [->|Hin]; [now rewrite eqb_same in E|now apply IH].
Qed.

Lemma dict_get_set (d : dict K V) (k k' : K) (v : V) :
  dict_get eqb (dict_set eqb d k v) k' =
  if eqb k k' then Some v else dict_get eqb d k'.
Proof.
  induction d as [|[k0 v0] d IH]; simpl.
  - reflexivity.
  - destruct (eqb k0 k) eqn:E0; simpl.
    + apply eqb_eq in E0. subst k0. now destruct (eqb k k').
    + rewrite IH. destruct (eqb k0 k') eqn:E1; [|reflexivity].
      apply eqb_eq in E1. subst k0. now rewrite eqb_differ by
        (intros ->; now rewrite eqb_same in E0).
Qed.
End DictFacts.

Arguments dict_get_In {K V eqb} eqb_eq d k v.
Arguments dict_get_None {K V eqb} eqb_eq d k.
Arguments dict_set_fresh {K V eqb} eqb_eq d k v.
Arguments dict_of_items_NoDup {K V eqb} eqb_eq items.
Arguments dict_get_map_key {K V eqb} eqb_eq f keys k.
Arguments dict_get_set {K V eqb} eqb_eq d k k' v.

Lemma combine_map_r {A B} (f : A -> B) (l : list A) :
  combine l (map f l) = map (fun a => (a, f a)) l.
Proof. induction l as [|a l IH]; simpl; [reflexivity|]. now rewrite IH. Qed.

(* ------------------------------------------------------------------ *)
(** ** [np.unique] *)

Lemma insert_unique_In (x y : Z) (l : list Z) :
  In y (insert_unique x l) <-> y = x \/ In y l.
Proof.
  induction l as [|z l IH]; simpl; [intuition|].
  destruct (Z.ltb_spec x z); [simpl; intuition|].
  destruct (Z.eqb_spec x z); simpl; [subst; intuition|].
  rewrite IH. intuition.
Qed.

Lemma insert_unique_sorted (x : Z) (l : list Z) :
  StronglySorted Z.lt l -> StronglySorted Z.lt (insert_unique x l).
Proof.
  induction 1 as [|z l Hs IH Hall]; simpl; [repeat constructor|].
  destruct (Z.ltb_spec x z).
  - constructor; [now constructor|]. constructor; [assumption|].
    eapply Forall_impl; [|exact Hall]. intros; cbv beta in *; lia.
  - destruct (Z.eqb_spec x z); [now constructor|].
    constructor; [assumption|].
    apply Forall_forall. intros y Hy. apply insert_unique_In in Hy as [->|Hy].
    + lia.
    + rewrite Forall_forall in Hall. now apply Hall.
Qed.

Lemma np_unique_In (x : Z) (a : list Z) : In x (np_unique a) <-> In x a.
Proof.
  induction a as [|y a IH]; simpl; [tauto|].
  rewrite insert_unique_In, IH. intuition.
Qed.

Lemma np_unique_sorted (a : list Z) : StronglySorted Z.lt (np_unique a).
Proof.
  induction a as [|y a IH]; simpl; [constructor|].
  now apply insert_unique_sorted.
Qed.

Lemma np_unique_NoDup (a : list Z) : NoDup (np_unique a).
Proof.
  generalize (np_unique_sorted a).
  induction 1 as [|z l Hs IH Hall]; constructor; [|assumption].
  intros Hin. rewrite Forall_forall in Hall. apply Hall in Hin. lia.
Qed.

(* ------------------------------------------------------------------ *)
(** ** Class names *)

Lemma str_of_int_inj (a b : Z) : str_of_int a = str_of_int b -> a = b.
Proof.
  unfold str_of_int. intros H.
  assert (Hn : forall z, NilZero.int_of_string (NilZero.string_of_int (Z.to_int z))
                         = Some (Z.to_int z)).
  { intros z. apply NilZero.isi.
    - intros E. pose proof (f_equal Z.of_int E) as E'.
      rewrite DecimalZ.of_to in E'. subst z. discriminate E.
    - intros E. pose proof (f_equal Z.of_int E) as E'.
      rewrite DecimalZ.of_to in E'. subst z. discriminate E. }
  apply (f_equal NilZero.int_of_string) in H. rewrite !Hn in H.
  injection H as H. now apply DecimalZ.to_int_inj.
Qed.

Lemma label_names_distinct (k1 k2 : Z) (v : string) :
  In (k1, v) label_to_name -> In (k2, v) label_to_name -> k1 = k2.
Proof.
  assert (H : forallb (fun a => forallb (fun b =>
                implb (String.eqb (snd a) (snd b)) (Z.eqb (fst a) (fst b)))
                label_to_name) label_to_name = true) by (vm_compute; reflexivity).
  intros H1 H2. rewrite forallb_forall in H. specialize (H _ H1).
  rewrite forallb_forall in H. specialize (H _ H2). cbn [fst snd] in H.
  rewrite String.eqb_refl in H. now apply Z.eqb_eq.
Qed.

Lemma label_names_not_unknown (k : Z) (s : string) :
  ~ In (k, ("unknown_" ++ s)%string) label_to_name.
Proof.
  assert (H : forallb (fun a => negb (String.prefix "unknown_" (snd a)))
                label_to_name = true) by (vm_compute; reflexivity).
  intros Hin. rewrite forallb_forall in H. specialize (H _ Hin).
  cbn in H. destruct s; discriminate.
Qed.

(** Of an id that the table lacks, the percentage key is [unknown_<id>]. *)
Lemma percentage_key_unknown (label : Z) :
  dict_get Z.eqb label_to_name label = None ->
  percentage_key label = ("unknown_" ++ str_of_int label)%string.
Proof. intros H. unfold percentage_key, dict_get_default. now rewrite H. Qed.

Lemma percentage_key_inj (a b : Z) : percentage_key a = percentage_key b -> a = b.
Proof.
  unfold percentage_key, dict_get_default.
  destruct (dict_get Z.eqb label_to_name a) as [va|] eqn:Ea;
    destruct (dict_get Z.eqb label_to_name b) as [vb|] eqn:Eb.
  - intros ->. apply (dict_get_In Z.eqb_eq) in Ea, Eb.
    eapply label_names_distinct; eassumption.
  - intros ->. apply (dict_get_In Z.eqb_eq) in Ea.
    now apply label_names_not_unknown in Ea.
  - intros <-. apply (dict_get_In Z.eqb_eq) in Eb.
    now apply label_names_not_unknown in Eb.
  - intros H. apply str_of_int_inj. cbn in H. now injection H.
Qed.

(* ------------------------------------------------------------------ *)
(** ** Class percentages *)

Section PercentageFacts.
Context {F : Type} `{Arith F}.

Lemma class_percentages_eq (semantic_labels : list Z) :
  class_percentages semantic_labels =
  map (fun u => (u, percent_of semantic_labels u)) (np_unique semantic_labels).
Proof.
  unfold class_percentages, np_unique_counts.
  rewrite combine_map_r, map_map. cbn [fst snd].
  rewrite (dict_of_items_NoDup Z.eqb_eq).
  - reflexivity.
  - rewrite map_map. cbn [fst]. rewrite map_id. apply np_unique_NoDup.
Qed.

(** The named map has one entry per class id present, in increasing
    order of the ids. *)
Lemma class_percentages_named_eq (semantic_labels : list Z) :
  class_percentages_named semantic_labels =
  map (fun u => (percentage_key u, percent_of semantic_labels u))
      (np_unique semantic_labels).
Proof.
  unfold class_percentages_named. rewrite class_percentages_eq, map_map.
  cbn [fst snd]. rewrite (dict_of_items_NoDup String.eqb_eq); [reflexivity|].
  rewrite map_map. cbn [fst].
  apply Injective_map_NoDup; [|apply np_unique_NoDup].
  intros a b. apply percentage_key_inj.
Qed.

Lemma class_percentages_named_empty :
  class_percentages_named (F:=F) [] = [].
Proof. reflexivity. Qed.
End PercentageFacts.

Lemma count_indicator (x : Z) (us : list Z) :
  NoDup us -> In x us ->
  fold_right (fun u acc => (if Z.eq_dec x u then 1 else 0) + acc)%nat 0%nat us = 1%nat.
Proof.
  induction 1 as [|u us Hnin Hnd IH]; simpl; [tauto|].
  intros [->|Hin].
  - destruct (Z.eq_dec x x); [|contradiction].
    assert (E : forall l, ~ In x l ->
              fold_right (fun u acc => (if Z.eq_dec x u then 1 else 0) + acc)%nat
                         0%nat l = 0%nat).
    { induction l as [|y l IHl]; simpl; [reflexivity|]. intros N.
      destruct (Z.eq_dec x y); [subst; tauto|]. apply IHl. tauto. }
    now rewrite E.
  - destruct (Z.eq_dec x u); [subst; contradiction|]. now apply IH.
Qed.

(** The counts of the distinct values add up to the number of elements. *)
Lemma count_occ_total (a us : list Z) :
  NoDup us -> (forall x, In x a -> In x us) ->
  fold_right (fun u acc => count_occ Z.eq_dec a u + acc)%nat 0%nat us = length a.
Proof.
  intros Hnd. induction a as [|x a IH]; intros Hin.
  - clear Hnd Hin. induction us as [|u us IHus]; simpl; [reflexivity|exact IHus].
  - assert (E : forall l,
       fold_right (fun u acc => count_occ Z.eq_dec (x :: a) u + acc)%nat 0%nat l =
       (fold_right (fun u acc => (if Z.eq_dec x u then 1 else 0) + acc)%nat 0%nat l
        + fold_right (fun u acc => count_occ Z.eq_dec a u + acc)%nat 0%nat l)%nat).
    { assert (P : forall y, count_occ Z.eq_dec (x :: a) y =
                  ((if Z.eq_dec x y then 1 else 0) + count_occ Z.eq_dec a y)%nat)
        by (intros y; simpl; destruct (Z.eq_dec x y); reflexivity).
      induction l as [|y l IHl]; [reflexivity|].
      cbn [fold_right]. rewrite IHl, P. lia. }
    rewrite E, count_indicator, IH.
    + reflexivity.
    + intros y Hy. apply Hin. now right.
    + exact Hnd.
    + apply Hin. now left.
Qed.

Section ExactArithmetic.
Local Open Scope Q_scope.

Lemma fold_left_Qplus (xs : list Q) (a : Q) :
  fold_left Qplus xs a == a + sumQ xs.
Proof.
  unfold sumQ. revert a. induction xs as [|x xs IH]; intros a; simpl; [ring|].
  rewrite IH. ring.
Qed.

Lemma sumQ_cons (x : Q) (xs : list Q) : sumQ (x :: xs) == x + sumQ xs.
Proof. reflexivity. Qed.

Lemma sumQ_app (l1 l2 : list Q) : sumQ (l1 ++ l2) == sumQ l1 + sumQ l2.
Proof.
  induction l1 as [|x l1 IH]; cbn [app]; rewrite ?sumQ_cons;
    [unfold sumQ; cbn [fold_right]; ring|rewrite IH; ring].
Qed.

(** In exact arithmetic the order of the additions does not matter. *)
Lemma unrolled_sum_Q (k : nat) : forall (rest : list Q) (r0 r1 r2 r3 r4 r5 r6 r7 : Q),
  (length rest <= k)%nat ->
  unrolled_sum r0 r1 r2 r3 r4 r5 r6 r7 rest ==
  r0 + r1 + r2 + r3 + r4 + r5 + r6 + r7 + sumQ rest.
Proof.
  induction k as [|k IH]; intros rest r0 r1 r2 r3 r4 r5 r6 r7 Hk.
  - destruct rest; [|cbn in Hk; lia]. cbn. ring.
  - destruct rest as [|a0 [|a1 [|a2 [|a3 [|a4 [|a5 [|a6 [|a7 rest']]]]]]]];
      cbn [unrolled_sum n_add Q_Arith]; rewrite ?fold_left_Qplus, ?sumQ_cons;
      try (unfold sumQ; cbn [fold_right]; ring).
    rewrite IH by (cbn [length] in Hk; lia). ring.
Qed.

Lemma pairwise_sum_Q (fuel : nat) : forall a : list Q,
  (length a <= fuel)%nat -> pairwise_sum fuel a == sumQ a.
Proof.
  assert (Small : forall a : list Q,
            match a with [] => of_int 0 | x :: xs => fold_left n_add xs x end
            == sumQ a).
  { intros [|x xs]; [reflexivity|]. cbn [n_add Q_Arith]. rewrite sumQ_cons.
    apply fold_left_Qplus. }
  assert (Block : forall a : list Q,
            (8 <= length a)%nat ->
            match a with
            | r0 :: r1 :: r2 :: r3 :: r4 :: r5 :: r6 :: r7 :: rest =>
                unrolled_sum r0 r1 r2 r3 r4 r5 r6 r7 rest
            | _ => of_int 0
            end == sumQ a).
  { intros a Ha.
    destruct a as [|a0 [|a1 [|a2 [|a3 [|a4 [|a5 [|a6 [|a7 rest]]]]]]]];
      cbn [length] in Ha; try lia.
    rewrite (@unrolled_sum_Q (length rest)) by lia. rewrite !sumQ_cons. ring. }
  induction fuel as [|fuel IH]; intros a Hlen; cbn [pairwise_sum].
  - destruct a; [|cbn in Hlen; lia]. reflexivity.
  - destruct (Nat.ltb_spec (length a) 8) as [H8|H8]; [apply Small|].
    destruct (Nat.leb_spec (length a) 128) as [H128|H128]; [now apply Block|].
    cbn [n_add Q_Arith].
    assert (Hdiv : (64 <= length a / 2 <= length a - 1)%nat).
    { split.
      - apply Nat.div_le_lower_bound; lia.
      - pose proof (Nat.div_lt (length a) 2). lia. }
    assert (Hmod : ((length a / 2) mod 8 < 8)%nat) by (apply Nat.mod_upper_bound; lia).
    rewrite !IH.
    + rewrite <- sumQ_app, firstn_skipn. reflexivity.
    + rewrite length_skipn. lia.
    + rewrite length_firstn. lia.
Qed.

Lemma np_sum_Q (xs : list Q) : np_sum xs == sumQ xs.
Proof.
  unfold np_sum. cbn [n_add of_int Q_Arith]. rewrite pairwise_sum_Q by lia.
  change (inject_Z 0) with 0. ring.
Qed.

Lemma percent_sum_Q (a us : list Z) :
  ~ inject_Z (total_points a) == 0 ->
  sumQ (map (percent_of (F:=Q) a) us) ==
  inject_Z (Z.of_nat (fold_right (fun u acc => count_occ Z.eq_dec a u + acc)%nat
                                 0%nat us))
  / inject_Z (total_points a) * 100.
Proof.
  intros HT. induction us as [|u us IH]; cbn [map fold_right].
  - cbn. field. exact HT.
  - rewrite sumQ_cons, IH. unfold percent_of. cbn [of_int n_mul n_div Q_Arith].
    rewrite Nat2Z.inj_add, inject_Z_plus. field. exact HT.
Qed.

End ExactArithmetic.

(** The depth of the splitting is bounded by the length. *)
Lemma pairwise_sum_fuel {F : Type} `{Arith F} (fuel1 : nat) : forall (fuel2 : nat) (a : list F),
  (length a <= fuel1)%nat -> (length a <= fuel2)%nat ->
  pairwise_sum fuel1 a = pairwise_sum fuel2 a.
Proof.
  induction fuel1 as [|fuel1 IH]; intros fuel2 a H1 H2.
  - destruct a; [|cbn in H1; lia]. destruct fuel2; reflexivity.
  - destruct fuel2 as [|fuel2].
    + destruct a; [|cbn in H2; lia]. reflexivity.
    + cbn [pairwise_sum].
      destruct (Nat.ltb_spec (length a) 8) as [H8|H8]; [reflexivity|].
      destruct (Nat.leb_spec (length a) 128) as [H128|H128]; [reflexivity|].
      assert (Hdiv : (64 <= length a / 2 <= length a - 1)%nat).
      { split.
        - apply Nat.div_le_lower_bound; lia.
        - pose proof (Nat.div_lt (length a) 2). lia. }
      assert (Hmod : ((length a / 2) mod 8 < 8)%nat)
        by (apply Nat.mod_upper_bound; lia).
      f_equal; apply IH; rewrite ?length_skipn, ?length_firstn; lia.
Qed.

(* ------------------------------------------------------------------ *)
(** ** Rounding in binary64 *)

Section Rounding.
Local Open Scope Q_scope.

Lemma pow2_pos (e : Z) : 0 < pow2 e.
Proof. apply Qpower_0_lt. reflexivity. Qed.

Lemma pow2_add (a b : Z) : pow2 (a + b) == pow2 a * pow2 b.
Proof. apply Qpower_plus. discriminate. Qed.

Lemma pow2_Z (n : Z) : (0 <= n)%Z -> pow2 n == inject_Z (2 ^ n).
Proof. intros H. unfold pow2. now rewrite Zpower_Qpower. Qed.

Lemma rec_ok_ext (x y : Q) (r : shr_record) : x == y -> rec_ok x r -> rec_ok y r.
Proof.
  intros E. unfold rec_ok. destruct (shr_r r), (shr_s r); rewrite E; tauto.
Qed.

Lemma rec_ok_bounds (x : Q) (r : shr_record) :
  rec_ok x r -> inject_Z (shr_m r) <= x /\ x < inject_Z (shr_m r) + 1.
Proof. unfold rec_ok. destruct (shr_r r), (shr_s r); lra. Qed.

Lemma inject_Z_xI (p : positive) : inject_Z (Z.pos p~1) == 2 * inject_Z (Z.pos p) + 1.
Proof. rewrite Pos2Z.inj_xI, inject_Z_plus, inject_Z_mult. reflexivity. Qed.

Lemma inject_Z_xO (p : positive) : inject_Z (Z.pos p~0) == 2 * inject_Z (Z.pos p).
Proof. rewrite Pos2Z.inj_xO, inject_Z_mult. reflexivity. Qed.

Lemma shr_1_ok (x : Q) (r : shr_record) :
  (0 <= shr_m r)%Z -> rec_ok x r ->
  rec_ok (x * (1 # 2)) (shr_1 r) /\ (0 <= shr_m (shr_1 r))%Z.
Proof.
  destruct r as [m b s]. cbn [shr_m]. intros Hm H.
  destruct m as [|p|p]; [| |lia].
  - unfold rec_ok in *. cbn [shr_m shr_r shr_s shr_1] in *.
    destruct b, s; cbn [orb]; split; try lia; change (inject_Z 0) with 0 in *; lra.
  - destruct p as [p|p|]; unfold rec_ok in *; cbn [shr_m shr_r shr_s shr_1] in *;
      try pose proof (inject_Z_xI p) as E1; try pose proof (inject_Z_xO p) as E2;
      destruct b, s; cbn [orb]; split; try lia;
      change (inject_Z 0) with 0 in *; change (inject_Z 1) with 1 in *; lra.
Qed.

Lemma iter_shr_ok (p : positive) : forall (x : Q) (r : shr_record),
  (0 <= shr_m r)%Z -> rec_ok x r ->
  rec_ok (x / pow2 (Z.pos p)) (SpecFloat.iter_pos shr_1 p r) /\
  (0 <= shr_m (SpecFloat.iter_pos shr_1 p r))%Z.
Proof.
  induction p as [p IH|p IH|]; intros x r Hm H; cbn [SpecFloat.iter_pos].
  - destruct (@shr_1_ok _ _ Hm H) as [H1 Hm1].
    destruct (IH _ _ Hm1 H1) as [H2 Hm2].
    destruct (IH _ _ Hm2 H2) as [H3 Hm3].
    split; [|exact Hm3]. eapply rec_ok_ext; [|exact H3].
    rewrite Pos2Z.inj_xI.
    replace (2 * Z.pos p + 1)%Z with (Z.pos p + Z.pos p + 1)%Z by lia.
    rewrite !pow2_add. change (pow2 1) with 2.
    pose proof (pow2_pos (Z.pos p)). field. lra.
  - destruct (IH _ _ Hm H) as [H2 Hm2].
    destruct (IH _ _ Hm2 H2) as [H3 Hm3].
    split; [|exact Hm3]. eapply rec_ok_ext; [|exact H3].
    rewrite Pos2Z.inj_xO.
    replace (2 * Z.pos p)%Z with (Z.pos p + Z.pos p)%Z by lia.
    rewrite !pow2_add.
    pose proof (pow2_pos (Z.pos p)). field. lra.
  - destruct (@shr_1_ok _ _ Hm H) as [H1 Hm1]. split; [|exact Hm1].
    eapply rec_ok_ext; [|exact H1]. change (pow2 1) with 2. field.
Qed.

Lemma shr_ok (x : Q) (r : shr_record) (e n : Z) :
  (0 <= n)%Z -> (0 <= shr_m r)%Z -> rec_ok x r ->
  rec_ok (x / pow2 n) (fst (shr r e n)) /\
  (0 <= shr_m (fst (shr r e n)))%Z /\ snd (shr r e n) = (e + n)%Z.
Proof.
  intros Hn Hm H. destruct n as [|p|p]; [| |lia]; cbn [shr fst snd].
  - split; [|split; [exact Hm|lia]].
    eapply rec_ok_ext; [|exact H]. change (pow2 0) with 1. field.
  - destruct (@iter_shr_ok p _ _ Hm H) as [H1 Hm1]. now repeat split.
Qed.

Lemma round_nearest_even_ok (x : Q) (r : shr_record) :
  rec_ok x r ->
  let m' := round_nearest_even (shr_m r) (loc_of_shr_record r) in
  inject_Z m' - (1 # 2) <= x /\ x <= inject_Z m' + (1 # 2) /\
  (shr_m r <= m' <= shr_m r + 1)%Z.
Proof.
  destruct r as [m b s]. unfold rec_ok. cbn [shr_m shr_r shr_s loc_of_shr_record].
  destruct b, s; cbn [round_nearest_even]; intros H;
    try destruct (Z.even m); rewrite ?inject_Z_plus;
    change (inject_Z 1) with 1; repeat split; try lia; lra.
Qed.

Lemma digits2_pos_bound (m : positive) :
  (Z.pos m < 2 ^ Z.pos (digits2_pos m))%Z.
Proof.
  induction m as [m IH|m IH|]; cbn [digits2_pos].
  - change (PosDef.Pos.succ (digits2_pos m)) with (Pos.succ (digits2_pos m)).
    rewrite Pos2Z.inj_succ, Z.pow_succ_r by lia. lia.
  - change (PosDef.Pos.succ (digits2_pos m)) with (Pos.succ (digits2_pos m)).
    rewrite Pos2Z.inj_succ, Z.pow_succ_r by lia. lia.
  - reflexivity.
Qed.

Lemma digits2_pos_lower (m : positive) :
  (2 ^ (Z.pos (digits2_pos m) - 1) <= Z.pos m)%Z.
Proof.
  induction m as [m IH|m IH|]; cbn [digits2_pos].
  - change (PosDef.Pos.succ (digits2_pos m)) with (Pos.succ (digits2_pos m)).
    rewrite Pos2Z.inj_succ.
    replace (Z.succ (Z.pos (digits2_pos m)) - 1)%Z
      with (Z.succ (Z.pos (digits2_pos m) - 1))%Z by lia.
    rewrite Z.pow_succ_r by lia. lia.
  - change (PosDef.Pos.succ (digits2_pos m)) with (Pos.succ (digits2_pos m)).
    rewrite Pos2Z.inj_succ.
    replace (Z.succ (Z.pos (digits2_pos m)) - 1)%Z
      with (Z.succ (Z.pos (digits2_pos m) - 1))%Z by lia.
    rewrite Z.pow_succ_r by lia. lia.
  - reflexivity.
Qed.

Lemma digits2_pos_eq (m : positive) (k : Z) :
  (2 ^ (k - 1) <= Z.pos m < 2 ^ k)%Z -> Z.pos (digits2_pos m) = k.
Proof.
  intros [Hlo Hhi].
  pose proof (digits2_pos_bound m) as U. pose proof (digits2_pos_lower m) as L.
  assert (Hk : (0 < k)%Z).
  { destruct (Z.ltb_spec 0 k) as [|Hn]; [assumption|].
    destruct k as [|k|k]; try lia; cbn in Hhi; lia. }
  assert (H1 : (Z.pos (digits2_pos m) - 1 < k)%Z).
  { apply (Z.pow_lt_mono_r_iff 2); lia. }
  assert (H2 : (k - 1 < Z.pos (digits2_pos m))%Z).
  { apply (Z.pow_lt_mono_r_iff 2); lia. }
  lia.
Qed.

Lemma shr_m_of_loc (m : Z) (l : location) : shr_m (shr_record_of_loc m l) = m.
Proof. destruct l as [|[| |]]; reflexivity. Qed.

Lemma Qdiv_lower (y P A : Q) : 0 < P -> A * P <= y -> A <= y / P.
Proof.
  intros HP H. apply Qle_shift_div_l; assumption.
Qed.

Lemma Qdiv_upper (y P A : Q) : 0 < P -> y < A * P -> y / P < A.
Proof.
  intros HP H. apply Qlt_shift_div_r; assumption.
Qed.

Lemma binary_round_aux_spec (s : bool) (mx : positive) (ex : Z) (lx : location) (x : Q) :
  rec_ok (x / pow2 ex) (shr_record_of_loc (Z.pos mx) lx) ->
  let d := Z.pos (digits2_pos mx) in
  (53 <= d)%Z -> (-1074 <= d + ex - 53)%Z -> (d + ex <= 1023)%Z ->
  exists m e,
    binary_round_aux prec emax s (Z.pos mx) ex lx = S754_finite s m e /\
    (2 ^ 52 <= Z.pos m < 2 ^ 53)%Z /\
    (d + ex - 53 <= e <= d + ex - 52)%Z /\
    x * (1 - u53) <= inject_Z (Z.pos m) * pow2 e /\
    inject_Z (Z.pos m) * pow2 e <= x * (1 + u53).
Proof.
  intros Hx d Hd Hlo Hhi.
  pose proof (digits2_pos_bound mx) as U. pose proof (digits2_pos_lower mx) as L.
  fold d in U, L.
  unfold binary_round_aux, shr_fexp. cbn [Zdigits2]. fold d.
  assert (Ef : (fexp prec emax (d + ex) - ex = d - 53)%Z).
  { unfold fexp, emin. change prec with 53%Z. change emax with 1024%Z.
    change IntDef.Z.max with Z.max. change IntDef.Z.sub with Z.sub. lia. }
  change IntDef.Z.sub with Z.sub. change IntDef.Z.add with Z.add.
  rewrite Ef.
  destruct (@shr_ok (x / pow2 ex) (shr_record_of_loc (Z.pos mx) lx) ex (d - 53))
    as (H1 & Hm1 & He1); [lia|rewrite shr_m_of_loc; lia|exact Hx|].
  destruct (shr (shr_record_of_loc (Z.pos mx) lx) ex (d - 53)) as [r1 e1].
  cbn [fst snd] in H1, Hm1, He1.
  set (z := x / pow2 ex / pow2 (d - 53)) in *.
  set (P := pow2 e1).
  assert (HP : 0 < P) by apply pow2_pos.
  assert (HxP : x == z * P).
  { unfold z, P. rewrite He1, pow2_add.
    pose proof (pow2_pos ex). pose proof (pow2_pos (d - 53)). field. lra. }
  (* the scaled value lies between 2^52 and 2^53 *)
  pose proof (@rec_ok_bounds _ _ Hx) as [B1 B2]. rewrite shr_m_of_loc in B1, B2.
  assert (Hz : inject_Z (2 ^ 52) <= z /\ z < inject_Z (2 ^ 53)).
  { assert (E1 : inject_Z (2 ^ (d - 1)) == inject_Z (2 ^ 52) * pow2 (d - 53)).
    { rewrite <- !pow2_Z by lia. rewrite <- pow2_add. f_equiv. lia. }
    assert (E2 : inject_Z (2 ^ d) == inject_Z (2 ^ 53) * pow2 (d - 53)).
    { rewrite <- !pow2_Z by lia. rewrite <- pow2_add. f_equiv. lia. }
    assert (L' : inject_Z (2 ^ (d - 1)) <= inject_Z (Z.pos mx))
      by (rewrite <- Zle_Qle; exact L).
    assert (U' : inject_Z (Z.pos mx) + 1 <= inject_Z (2 ^ d)).
    { change 1 with (inject_Z 1). rewrite <- inject_Z_plus, <- Zle_Qle. lia. }
    pose proof (pow2_pos (d - 53)).
    split; [apply Qdiv_lower|apply Qdiv_upper]; try assumption; lra. }
  destruct Hz as [Hz1 Hz2].
  pose proof (@rec_ok_bounds _ _ H1) as [B3 B4].
  assert (Hr1 : (2 ^ 52 <= shr_m r1 < 2 ^ 53)%Z).
  { split.
    - assert (T : inject_Z (2 ^ 52) < inject_Z (shr_m r1 + 1)).
      { rewrite inject_Z_plus. change (inject_Z 1) with 1. lra. }
      rewrite <- Zlt_Qlt in T. lia.
    - assert (T : inject_Z (shr_m r1) < inject_Z (2 ^ 53)) by lra.
      rewrite <- Zlt_Qlt in T. exact T. }
  destruct (@round_nearest_even_ok _ _ H1) as (R1 & R2 & R3).
  set (m2 := round_nearest_even (shr_m r1) (loc_of_shr_record r1)) in *.
  assert (Hcase : (m2 < 2 ^ 53 \/ m2 = 2 ^ 53)%Z) by lia.
  assert (He1' : (e1 = d + ex - 53)%Z) by lia.
  change (inject_Z (2 ^ 52)) with (4503599627370496 # 1) in Hz1.
  change (inject_Z (2 ^ 53)) with (9007199254740992 # 1) in Hz2.
  destruct Hcase as [Hlt|Heq].
  - destruct m2 as [|p2|p2] eqn:Em2; try lia.
    assert (Hd2 : Z.pos (digits2_pos p2) = 53%Z) by (apply digits2_pos_eq; lia).
    cbn [Zdigits2]. rewrite Hd2.
    assert (Ef2 : (fexp prec emax (53 + e1) - e1 = 0)%Z).
    { unfold fexp, emin. change prec with 53%Z. change emax with 1024%Z.
      change IntDef.Z.max with Z.max. change IntDef.Z.sub with Z.sub. lia. }
    rewrite Ef2. cbn [shr shr_record_of_loc shr_m].
    assert (Hle : (e1 <=? emax - prec)%Z = true)
      by (apply Z.leb_le; change (emax - prec)%Z with 971%Z; lia).
    change IntDef.Z.leb with Z.leb. rewrite Hle.
    exists p2, e1. split; [reflexivity|]. split; [lia|]. split; [lia|].
    fold P. unfold u53.
    assert (T1 : 0 <= P * (inject_Z (Z.pos p2) - z + z * (1 # 9007199254740992)))
      by (apply Qmult_le_0_compat; lra).
    assert (T2 : 0 <= P * (z - inject_Z (Z.pos p2) + z * (1 # 9007199254740992)))
      by (apply Qmult_le_0_compat; lra).
    split; lra.
  - rewrite Heq. cbn [Zdigits2 digits2_pos].
    assert (Ef2 : (fexp prec emax (54 + e1) - e1 = 1)%Z).
    { unfold fexp, emin. change prec with 53%Z. change emax with 1024%Z.
      change IntDef.Z.max with Z.max. change IntDef.Z.sub with Z.sub. lia. }
    change (Z.pos (digits2_pos (Z.to_pos (2 ^ 53)))) with 54%Z.
    change (2 ^ 53)%Z with 9007199254740992%Z.
    cbn [Zdigits2 digits2_pos Pos.succ].
    change (Z.pos 54) with 54%Z.
    rewrite Ef2. cbn [shr shr_record_of_loc shr_m SpecFloat.iter_pos shr_1 orb].
    assert (Hle : (e1 + 1 <=? emax - prec)%Z = true)
      by (apply Z.leb_le; change (emax - prec)%Z with 971%Z; lia).
    change IntDef.Z.leb with Z.leb. rewrite Hle.
    eexists _, (e1 + 1)%Z. split; [reflexivity|]. split; [lia|]. split; [lia|].
    rewrite pow2_add. change (pow2 1) with 2. fold P. unfold u53.
    rewrite Heq in R1, R2. change (inject_Z (2 ^ 53)) with (9007199254740992 # 1) in R1, R2.
    assert (T1 : 0 <= P * ((9007199254740992 # 1) - z + z * (1 # 9007199254740992)))
      by (apply Qmult_le_0_compat; lra).
    assert (T2 : 0 <= P * (z - (9007199254740992 # 1) + z * (1 # 9007199254740992)))
      by (apply Qmult_le_0_compat; lra).
    change (inject_Z (Z.pos 4503599627370496)) with (4503599627370496 # 1).
    split; lra.
Qed.

Lemma new_location_ok (m2 r q : Z) :
  (0 < m2)%Z -> (0 <= r < m2)%Z ->
  rec_ok (inject_Z q + inject_Z r / inject_Z m2)
         (shr_record_of_loc q (new_location m2 r)).
Proof.
  intros Hm [Hr0 Hr].
  assert (Hm' : 0 < inject_Z m2)
    by (change 0 with (inject_Z 0); now rewrite <- Zlt_Qlt).
  set (t := inject_Z r / inject_Z m2).
  assert (Hr' : inject_Z r == t * inject_Z m2) by (unfold t; field; lra).
  assert (E2 : inject_Z (2 * r) == 2 * inject_Z r)
    by (rewrite inject_Z_mult; reflexivity).
  assert (Tlt : (2 * r < m2)%Z -> t < 1 # 2).
  { intros H. rewrite Zlt_Qlt, E2 in H. apply Qlt_shift_div_r; [exact Hm'|lra]. }
  assert (Tgt : (m2 < 2 * r)%Z -> (1 # 2) < t).
  { intros H. rewrite Zlt_Qlt, E2 in H. apply Qlt_shift_div_l; [exact Hm'|lra]. }
  assert (Teq : (2 * r = m2)%Z -> t == 1 # 2).
  { intros H. unfold t. rewrite <- H, E2. field.
    intros N. rewrite <- H, E2 in Hm'. lra. }
  assert (Tpos : (r <> 0)%Z -> 0 < t).
  { intros H. apply Qlt_shift_div_l; [exact Hm'|].
    assert (T : inject_Z 0 < inject_Z r) by (rewrite <- Zlt_Qlt; lia).
    change (inject_Z 0) with 0 in T. lra. }
  assert (Tone : t < 1).
  { apply Qlt_shift_div_r; [exact Hm'|]. rewrite Zlt_Qlt in Hr. lra. }
  assert (T0 : r = 0%Z -> t == 0).
  { intros ->. unfold t. change (inject_Z 0) with 0. field. lra. }
  unfold new_location, new_location_even, new_location_odd.
  change IntDef.Z.even with Z.even. change IntDef.Z.eqb with Z.eqb.
  change IntDef.Z.compare with Z.compare. change IntDef.Z.mul with Z.mul.
  change IntDef.Z.add with Z.add.
  destruct (Z.even m2) eqn:Ev; destruct (Z.eqb_spec r 0) as [R0|R0];
    unfold rec_ok.
  - cbn [shr_record_of_loc shr_m shr_r shr_s]. specialize (T0 R0). lra.
  - specialize (Tpos R0).
    destruct (Z.compare_spec (2 * r) m2) as [C|C|C];
      cbn [shr_record_of_loc shr_m shr_r shr_s];
      [specialize (Teq C)|specialize (Tlt C)|specialize (Tgt C)]; lra.
  - cbn [shr_record_of_loc shr_m shr_r shr_s]. specialize (T0 R0). lra.
  - specialize (Tpos R0).
    assert (Hodd : (2 * r <> m2)%Z).
    { intros <-. rewrite Z.even_mul in Ev. discriminate. }
    destruct (Z.compare_spec (2 * r + 1) m2) as [C|C|C];
      cbn [shr_record_of_loc shr_m shr_r shr_s].
    + assert (C' : (2 * r < m2)%Z) by lia. specialize (Tlt C'). lra.
    + assert (C' : (2 * r < m2)%Z) by lia. specialize (Tlt C'). lra.
    + assert (C' : (m2 < 2 * r)%Z) by lia. specialize (Tgt C'). lra.
Qed.

Lemma div_spec_normal (a b : float) (m1 m2 : positive) (e1 e2 : Z) :
  normal_value a m1 e1 -> normal_value b m2 e2 ->
  (-1021 <= e1 - e2 <= 1022)%Z ->
  exists m e,
    normal_value (a / b) m e /\
    (e1 - e2 - 53 <= e <= e1 - e2 - 51)%Z /\
    let x := Q_of_float a / Q_of_float b in
    x * (1 - u53) <= Q_of_float (a / b) /\ Q_of_float (a / b) <= x * (1 + u53).
Proof.
  intros [Ea Ha] [Eb Hb] He.
  pose proof (div_spec a b) as Eab. rewrite Ea, Eb in Eab.
  unfold SF64div, SFdiv in Eab. cbn [xorb] in Eab.
  assert (D1 : Z.pos (digits2_pos m1) = 53%Z) by (apply digits2_pos_eq; lia).
  assert (D2 : Z.pos (digits2_pos m2) = 53%Z) by (apply digits2_pos_eq; lia).
  unfold SFdiv_core_binary in Eab. cbn [Zdigits2] in Eab. rewrite D1, D2 in Eab.
  change IntDef.Z.sub with Z.sub in Eab. change IntDef.Z.add with Z.add in Eab.
  change IntDef.Z.min with Z.min in Eab.
  assert (Ee : Z.min (fexp prec emax (53 + e1 - (53 + e2))) (e1 - e2) = (e1 - e2 - 53)%Z).
  { unfold fexp, emin. change prec with 53%Z. change emax with 1024%Z.
    change IntDef.Z.max with Z.max. change IntDef.Z.sub with Z.sub. lia. }
  rewrite Ee in Eab.
  replace (e1 - e2 - (e1 - e2 - 53))%Z with 53%Z in Eab by lia.
  change IntDef.Z.shiftl with Z.shiftl in Eab.
  rewrite Z.shiftl_mul_pow2 in Eab by lia.
  change IntDef.Z.div_eucl with Z.div_eucl in Eab.
  pose proof (Z_div_mod (Z.pos m1 * 2 ^ 53) (Z.pos m2) eq_refl) as DM.
  destruct (Z.div_eucl (Z.pos m1 * 2 ^ 53) (Z.pos m2)) as [q r].
  destruct DM as [DM Hr].
  assert (Hq : (2 ^ 52 <= q < 2 ^ 54)%Z) by nia.
  destruct q as [|pq|pq]; try lia.
  unfold Q_of_float. rewrite Ea, Eb. cbn [SF2Q].
  set (x := 1 * inject_Z (Z.pos m1) * pow2 e1 / (1 * inject_Z (Z.pos m2) * pow2 e2)).
  assert (Hm2 : 0 < inject_Z (Z.pos m2)) by reflexivity.
  assert (Hx : rec_ok (x / pow2 (e1 - e2 - 53))
                      (shr_record_of_loc (Z.pos pq) (new_location (Z.pos m2) r))).
  { eapply rec_ok_ext; [|apply new_location_ok; lia].
    unfold x.
    replace e1 with ((e1 - e2 - 53) + e2 + 53)%Z at 1 by lia.
    rewrite !pow2_add.
    assert (E : inject_Z (Z.pos m1) * pow2 53 ==
                inject_Z (Z.pos m2) * inject_Z (Z.pos pq) + inject_Z r).
    { rewrite pow2_Z by lia. rewrite <- inject_Z_mult, DM, inject_Z_plus, inject_Z_mult.
      reflexivity. }
    pose proof (pow2_pos (e1 - e2 - 53)). pose proof (pow2_pos e2).
    setoid_replace (1 * inject_Z (Z.pos m1) * (pow2 (e1 - e2 - 53) * pow2 e2 * pow2 53) /
                    (1 * inject_Z (Z.pos m2) * pow2 e2) / pow2 (e1 - e2 - 53))
      with ((inject_Z (Z.pos m1) * pow2 53) / inject_Z (Z.pos m2)) by (field; lra).
    rewrite E. field. lra. }
  assert (Dq : (53 <= Z.pos (digits2_pos pq) <= 54)%Z).
  { pose proof (digits2_pos_bound pq) as U. pose proof (digits2_pos_lower pq) as L.
    assert (H1 : (Z.pos (digits2_pos pq) - 1 < 54)%Z)
      by (apply (Z.pow_lt_mono_r_iff 2); lia).
    assert (H2 : (52 < Z.pos (digits2_pos pq))%Z)
      by (apply (Z.pow_lt_mono_r_iff 2); lia).
    lia. }
  destruct (@binary_round_aux_spec false pq (e1 - e2 - 53)
              (new_location (Z.pos m2) r) x Hx) as (m & e & Er & Hm & Hee & B1 & B2);
    try lia.
  rewrite Er in Eab.
  exists m, e. split; [split; [exact Eab|exact Hm]|]. split; [lia|].
  rewrite Eab. cbn [SF2Q]. cbv zeta. split; lra.
Qed.

Lemma binary_round_aux_exact (s : bool) (m : positive) (e : Z) :
  (2 ^ 52 <= Z.pos m < 2 ^ 53)%Z -> (-1074 <= e <= 971)%Z ->
  binary_round_aux prec emax s (Z.pos m) e loc_Exact = S754_finite s m e.
Proof.
  intros Hm He.
  assert (D : Z.pos (digits2_pos m) = 53%Z) by (apply digits2_pos_eq; lia).
  assert (Ef : (fexp prec emax (53 + e) - e = 0)%Z).
  { unfold fexp, emin. change prec with 53%Z. change emax with 1024%Z.
    change IntDef.Z.max with Z.max. change IntDef.Z.sub with Z.sub. lia. }
  unfold binary_round_aux, shr_fexp. cbn [Zdigits2].
  change IntDef.Z.sub with Z.sub. change IntDef.Z.add with Z.add.
  rewrite D, Ef. cbn [shr shr_record_of_loc shr_m loc_of_shr_record round_nearest_even
                      Zdigits2].
  rewrite D, Ef. cbn [shr shr_m].
  change IntDef.Z.leb with Z.leb.
  assert (Hle : (e <=? emax - prec)%Z = true)
    by (apply Z.leb_le; change (emax - prec)%Z with 971%Z; lia).
  now rewrite Hle.
Qed.

Lemma mul_spec_normal (a b : float) (m1 m2 : positive) (e1 e2 : Z) :
  normal_value a m1 e1 -> normal_value b m2 e2 ->
  (-1126 <= e1 + e2 <= 917)%Z ->
  exists m e,
    normal_value (a * b) m e /\
    (e1 + e2 + 52 <= e <= e1 + e2 + 54)%Z /\
    let x := Q_of_float a * Q_of_float b in
    x * (1 - u53) <= Q_of_float (a * b) /\ Q_of_float (a * b) <= x * (1 + u53).
Proof.
  intros [Ea Ha] [Eb Hb] He.
  pose proof (mul_spec a b) as Eab. rewrite Ea, Eb in Eab.
  unfold SF64mul, SFmul in Eab. cbn [xorb] in Eab.
  change PosDef.Pos.mul with Pos.mul in Eab. change IntDef.Z.add with Z.add in Eab.
  unfold Q_of_float. rewrite Ea, Eb. cbn [SF2Q].
  set (x := 1 * inject_Z (Z.pos m1) * pow2 e1 * (1 * inject_Z (Z.pos m2) * pow2 e2)).
  assert (Hp : (2 ^ 104 <= Z.pos (m1 * m2) < 2 ^ 106)%Z).
  { rewrite Pos2Z.inj_mul.
    change (2 ^ 104)%Z with (2 ^ 52 * 2 ^ 52)%Z.
    change (2 ^ 106)%Z with (2 ^ 53 * 2 ^ 53)%Z. nia. }
  assert (Hx : rec_ok (x / pow2 (e1 + e2))
                      (shr_record_of_loc (Z.pos (m1 * m2)) loc_Exact)).
  { unfold rec_ok. cbn [shr_record_of_loc shr_m shr_r shr_s].
    assert (E : x / pow2 (e1 + e2) == inject_Z (Z.pos (m1 * m2))).
    { unfold x. rewrite Pos2Z.inj_mul, inject_Z_mult, pow2_add.
      pose proof (pow2_pos e1). pose proof (pow2_pos e2). field. lra. }
    rewrite E. split; apply Qle_refl. }
  assert (Dq : (105 <= Z.pos (digits2_pos (m1 * m2)) <= 106)%Z).
  { pose proof (digits2_pos_bound (m1 * m2)) as U.
    pose proof (digits2_pos_lower (m1 * m2)) as L.
    assert (H1 : (Z.pos (digits2_pos (m1 * m2)) - 1 < 106)%Z)
      by (apply (Z.pow_lt_mono_r_iff 2); lia).
    assert (H2 : (104 < Z.pos (digits2_pos (m1 * m2)))%Z)
      by (apply (Z.pow_lt_mono_r_iff 2); lia).
    lia. }
  destruct (@binary_round_aux_spec false (m1 * m2) (e1 + e2) loc_Exact x Hx)
    as (m & e & Er & Hm & Hee & B1 & B2); try lia.
  rewrite Er in Eab.
  exists m, e. split; [split; [exact Eab|exact Hm]|]. split; [lia|].
  rewrite Eab. cbn [SF2Q]. cbv zeta. split; lra.
Qed.

Lemma iter_xO (k : positive) (p : positive) :
  Z.pos (PosDef.Pos.iter xO p k) = (Z.pos p * 2 ^ Z.pos k)%Z.
Proof.
  change (@PosDef.Pos.iter positive) with (@Pos.iter positive). revert p.
  induction k as [|k IH] using Pos.peano_ind; intros p.
  - cbn. lia.
  - rewrite Pos.iter_succ, Pos2Z.inj_xO, IH, Pos2Z.inj_succ, Z.pow_succ_r by lia. lia.
Qed.

Lemma float_of_Z_exact (c : Z) :
  (0 < c < 2 ^ 53)%Z ->
  exists m e,
    normal_value (float_of_Z c) m e /\ (-52 <= e <= 0)%Z /\
    Q_of_float (float_of_Z c) == inject_Z c.
Proof.
  intros [Hc0 Hc]. destruct c as [|p|p]; try lia.
  cbn [float_of_Z].
  pose proof (of_uint63_spec (Uint63.of_Z (Z.pos p))) as E.
  rewrite Uint63.of_Z_spec in E.
  rewrite Z.mod_small in E
    by (split; [lia|]; eapply Z.lt_trans; [exact Hc|reflexivity]).
  cbn [binary_normalize] in E. unfold binary_round in E.
  pose proof (digits2_pos_bound p) as U. pose proof (digits2_pos_lower p) as L.
  set (d := Z.pos (digits2_pos p)) in *.
  assert (Hd : (1 <= d <= 53)%Z).
  { split; [unfold d; lia|].
    assert (H1 : (d - 1 < 53)%Z) by (apply (Z.pow_lt_mono_r_iff 2); lia). lia. }
  change IntDef.Z.add with Z.add in E.
  assert (Ef : fexp prec emax (d + 0) = (d - 53)%Z).
  { unfold fexp, emin. change prec with 53%Z. change emax with 1024%Z.
    change IntDef.Z.max with Z.max. change IntDef.Z.sub with Z.sub. lia. }
  rewrite Ef in E. unfold shl_align in E. change IntDef.Z.sub with Z.sub in E.
  unfold Q_of_float.
  destruct (d - 53 - 0)%Z as [|k|k] eqn:Ek; try lia.
  - rewrite binary_round_aux_exact in E by (try lia; replace 52%Z with (d - 1)%Z by lia;
      replace 53%Z with d by lia; lia).
    exists p, 0%Z. split; [split; [exact E|]|].
    + replace 52%Z with (d - 1)%Z by lia. replace 53%Z with d at 2 by lia. lia.
    + split; [lia|]. rewrite E. cbn [SF2Q]. change (pow2 0) with 1. ring.
  - pose proof (iter_xO k p) as Ei.
    assert (E53 : (2 ^ 53 = 2 ^ d * 2 ^ Z.pos k)%Z).
    { rewrite <- Z.pow_add_r by lia. f_equal. lia. }
    assert (E52 : (2 ^ 52 = 2 ^ (d - 1) * 2 ^ Z.pos k)%Z).
    { rewrite <- Z.pow_add_r by lia. f_equal. lia. }
    assert (Hk : (0 < 2 ^ Z.pos k)%Z) by (apply Z.pow_pos_nonneg; lia).
    rewrite binary_round_aux_exact in E by (try lia; rewrite Ei, E52, E53; nia).
    exists (PosDef.Pos.iter xO p k), (d - 53)%Z.
    split; [split; [exact E|rewrite Ei, E52, E53; nia]|].
    split; [lia|]. rewrite E. cbn [SF2Q]. rewrite Ei, inject_Z_mult.
    rewrite <- pow2_Z by lia.
    setoid_replace (1 * (inject_Z (Z.pos p) * pow2 (Z.pos k)) * pow2 (d - 53))
      with (inject_Z (Z.pos p) * (pow2 (Z.pos k) * pow2 (d - 53))) by ring.
    rewrite <- pow2_add. replace (Z.pos k + (d - 53))%Z with 0%Z by lia.
    change (pow2 0) with 1. ring.
Qed.

(** One percentage in binary64: the count and the total convert exactly,
    the quotient and the product are rounded once each. *)
Lemma percent_of_binary64 (labels : list Z) (u : Z) :
  In u labels -> (Z.of_nat (length labels) < 2 ^ 53)%Z ->
  exists m e,
    normal_value (percent_of (F:=float) labels u) m e /\
    percent_of (F:=Q) labels u * ((1 - u53) * (1 - u53))
      <= Q_of_float (percent_of (F:=float) labels u) /\
    Q_of_float (percent_of (F:=float) labels u)
      <= percent_of (F:=Q) labels u * ((1 + u53) * (1 + u53)).
Proof.
  intros Hin Hlen.
  assert (Hc : (0 < count_occ Z.eq_dec labels u <= length labels)%nat).
  { split; [now apply count_occ_In|apply count_occ_bound]. }
  assert (HT : total_points labels = Z.of_nat (length labels)).
  { unfold total_points. destruct labels; [destruct Hin|reflexivity]. }
  unfold percent_of. cbn [n_mul n_div of_int float_Arith Q_Arith]. rewrite HT.
  set (c := Z.of_nat (count_occ Z.eq_dec labels u)).
  set (T := Z.of_nat (length labels)) in *.
  destruct (@float_of_Z_exact c) as (mc & ec & Nc & Hec & Qc); [unfold c; lia|].
  destruct (@float_of_Z_exact T) as (mT & eT & NT & HeT & QT); [unfold T; lia|].
  destruct (@div_spec_normal _ _ _ _ _ _ Nc NT) as (mq & eq & Nq & Heq & B1 & B2); [lia|].
  assert (N100 : normal_value (float_of_Z 100) 7036874417766400 (-46)).
  { split; [vm_compute; reflexivity|lia]. }
  assert (Q100 : Q_of_float (float_of_Z 100) == 100).
  { unfold Q_of_float. rewrite (proj1 N100). vm_compute. reflexivity. }
  destruct (@mul_spec_normal _ _ _ _ _ _ Nq N100) as (mv & ev & Nv & _ & B3 & B4); [lia|].
  exists mv, ev. split; [exact Nv|].
  cbv zeta in B1, B2, B3, B4. rewrite Qc, QT in B1, B2. rewrite Q100 in B3, B4.
  change (inject_Z 100) with 100.
  set (x0 := inject_Z c / inject_Z T) in *.
  set (q := Q_of_float (float_of_Z c / float_of_Z T)) in *.
  set (v := Q_of_float (float_of_Z c / float_of_Z T * float_of_Z 100)) in *.
  unfold u53 in *. split; lra.
Qed.

(** The percentages of a list of classes of the frame: all finite and
    positive, their sum within two roundings of the exact sum. *)
Lemma percent_sum_binary64 (labels : list Z) (us : list Z) :
  (forall u, In u us -> In u labels) -> (Z.of_nat (length labels) < 2 ^ 53)%Z ->
  Forall (fun v => exists m e, Prim2SF v = S754_finite false m e)
         (map (percent_of (F:=float) labels) us) /\
  sumQ (map (percent_of (F:=Q) labels) us) * ((1 - u53) * (1 - u53))
    <= sumQ (map Q_of_float (map (percent_of (F:=float) labels) us)) /\
  sumQ (map Q_of_float (map (percent_of (F:=float) labels) us))
    <= sumQ (map (percent_of (F:=Q) labels) us) * ((1 + u53) * (1 + u53)).
Proof.
  intros Hin Hlen. induction us as [|u us IH]; cbn [map sumQ fold_right].
  - split; [constructor|]. split; lra.
  - destruct IH as (IH1 & IH2 & IH3); [intros x Hx; apply Hin; now right|].
    destruct (@percent_of_binary64 labels u) as (m & e & [Nv _] & B1 & B2);
      [apply Hin; now left|exact Hlen|].
    split; [constructor; [now exists m, e|exact IH1]|].
    fold (sumQ (map (percent_of (F:=Q) labels) us)).
    fold (sumQ (map Q_of_float (map (percent_of (F:=float) labels) us))).
    split; lra.
Qed.
End Rounding.

Section PercentageSum.
Local Open Scope Q_scope.

(** C7.  For a frame with at least one point (and fewer than 2^53), the
    values of the class-percentage map that the program computes, in
    binary64, are finite and positive, and their sum is within
    [percent_tolerance] (two roundings per value, about 2.2e-14) of 100;
    in exact arithmetic the sum is exactly 100.  With no point the map is
    empty.  The map of a frame summary is this map, computed from the
    labels that the projection returned. *)
Theorem class_percentages_sum (semantic_labels : list Z) :
  (semantic_labels <> [] -> (Z.of_nat (length semantic_labels) < 2 ^ 53)%Z ->
   let values := dict_values (class_percentages_named (F:=float) semantic_labels) in
   Forall (fun v => exists m e, Prim2SF v = S754_finite false m e) values /\
   100 - percent_tolerance <= sumQ (map Q_of_float values) /\
   sumQ (map Q_of_float values) <= 100 + percent_tolerance) /\
  (semantic_labels <> [] ->
   np_sum (dict_values (class_percentages_named (F:=Q) semantic_labels)) == 100) /\
  (semantic_labels = [] ->
   class_percentages_named (F:=Q) semantic_labels = [] /\
   class_percentages_named (F:=float) semantic_labels = []) /\
  (forall arctan2 degrees sd Tr P2 poses times acc frame_id acc'
          points labels pf pi lf,
     frame_files sd frame_id = Some (points, labels) ->
     project_to_front_view points labels Tr P2 = Ok (pf, pi, lf) ->
     process_frame arctan2 degrees sd Tr P2 poses times acc frame_id = Ok acc' ->
     exists fs,
       frame_summaries acc' = frame_summaries acc ++ [fs] /\
       fs_class_percentages fs = class_percentages_named (map semantic_of lf)).
Proof.
  assert (Exact : semantic_labels <> [] ->
            sumQ (map (percent_of (F:=Q) semantic_labels) (np_unique semantic_labels))
            == 100).
  { intros Hne.
    assert (HT : total_points semantic_labels = Z.of_nat (length semantic_labels)).
    { unfold total_points. destruct semantic_labels; [contradiction|reflexivity]. }
    assert (HT0 : ~ inject_Z (total_points semantic_labels) == 0).
    { rewrite HT. destruct semantic_labels; [contradiction|].
      unfold Qeq. cbn. lia. }
    rewrite percent_sum_Q by exact HT0.
    rewrite count_occ_total.
    + rewrite <- HT. field. exact HT0.
    + apply np_unique_NoDup.
    + intros x. apply np_unique_In. }
  split; [|split; [|split]].
  - intros Hne Hlen. cbv zeta. rewrite class_percentages_named_eq.
    unfold dict_values. rewrite map_map. cbn [snd].
    destruct (@percent_sum_binary64 semantic_labels (np_unique semantic_labels))
      as (Hfin & B1 & B2); [intros u; apply np_unique_In|exact Hlen|].
    split; [exact Hfin|].
    rewrite (Exact Hne) in B1, B2.
    change (fun x : Z => percent_of semantic_labels x)
      with (percent_of (F:=float) semantic_labels).
    unfold percent_tolerance, u53 in *. split; lra.
  - intros Hne. rewrite class_percentages_named_eq.
    unfold dict_values. rewrite map_map. cbn [snd].
    rewrite np_sum_Q. now apply Exact.
  - intros ->. split; reflexivity.
  - intros arctan2 degrees sd Tr P2 poses times acc frame_id acc'
           points labels pf pi lf Hf Hp H.
    unfold process_frame, load_frame_data in H. rewrite Hf in H.
    cbn [load bind] in H. rewrite Hp in H. cbn [bind] in H. bind_ok H.
    injection H as <-. eexists. split; reflexivity.
Qed.

Lemma class_percentages_sum_witness :
  let values :=
    dict_values (class_percentages_named (F:=float) [10; 10; 99; 40; 10; 300]%Z) in
  100 - percent_tolerance <= sumQ (map Q_of_float values) /\
  sumQ (map Q_of_float values) <= 100 + percent_tolerance.
Proof.
  apply (proj1 (class_percentages_sum [10; 10; 99; 40; 10; 300]%Z));
    [discriminate|cbn; lia].
Defined.

End PercentageSum.

(** Three classes of one point each: every value is 33.333333333333329
    in binary64, and NumPy's sum of the three is 99.999999999999986. *)
Example binary64_percentages_rounded :
  np_sum (dict_values (class_percentages_named (F:=float) [10; 40; 50]%Z))
    = 0x1.8ffffffffffffp+6.
Proof. vm_compute. reflexivity. Qed.

(* ------------------------------------------------------------------ *)
(** ** Unknown class ids *)

Lemma instance_class_name_unknown (inst_semantic : Z) :
  dict_get Z.eqb label_to_name inst_semantic = None ->
  instance_class_name inst_semantic = "unknown"%string.
Proof. intros H. unfold instance_class_name, dict_get_default. now rewrite H. Qed.

(** A class id that occurs in a frame has its key in the percentage map,
    whether the table knows it or not. *)
Lemma percentage_key_present {F : Type} `{Arith F} (semantic_labels : list Z) (id : Z) :
  In id semantic_labels ->
  In (percentage_key id) (dict_keys (class_percentages_named (F:=F) semantic_labels)).
Proof.
  intros Hin. rewrite class_percentages_named_eq. unfold dict_keys.
  rewrite map_map. cbn [fst]. apply in_map. now apply np_unique_In.
Qed.

(** C5, evaluated.  A frame with a single point of class id 99 (which the
    table lacks) and instance id 7: the percentage map has the key
    [unknown_99], but the instance derived from the same point has the
    class label [unknown], without the id. *)
Theorem unknown_id_instance_label :
  let front_labels := [458851%Z] in
  let semantic_labels := map semantic_of front_labels in
  let instance_ids := map instance_of front_labels in
  semantic_labels = [99%Z] /\ instance_ids = [7%Z] /\
  dict_get Z.eqb label_to_name 99%Z = None /\
  class_percentages_named (F:=float) semantic_labels = [("unknown_99"%string, 100)] /\
  identify_instances [P3 0 0 2] [(600, 180)] semantic_labels instance_ids
    = Ok [Instance "unknown" 7%Z "middle-center" 2].
Proof. vm_compute. repeat split. Qed.

(* ------------------------------------------------------------------ *)
(** ** Average class percentages *)

Lemma set_add_In (s : list string) (k x : string) :
  In x (set_add s k) <-> x = k \/ In x s.
Proof.
  induction s as [|k' s IH]; simpl; [intuition|].
  destruct (String.eqb_spec k' k); simpl.
  - subst. intuition.
  - rewrite IH. intuition.
Qed.

Lemma set_add_NoDup (s : list string) (k : string) :
  NoDup s -> NoDup (set_add s k).
Proof.
  induction 1 as [|k' s Hnin Hnd IH]; simpl; [repeat constructor; tauto|].
  destruct (String.eqb_spec k' k); [now constructor|].
  constructor; [|assumption]. rewrite set_add_In. intuition.
Qed.

Lemma set_update_In (keys s : list string) (x : string) :
  In x (set_update s keys) <-> In x s \/ In x keys.
Proof.
  unfold set_update. revert s. induction keys as [|k keys IH]; intros s; simpl;
    [tauto|]. rewrite IH, set_add_In. intuition.
Qed.

Lemma set_update_NoDup (keys s : list string) :
  NoDup s -> NoDup (set_update s keys).
Proof.
  unfold set_update. revert s. induction keys as [|k keys IH]; intros s Hs;
    simpl; [assumption|]. apply IH. now apply set_add_NoDup.
Qed.

Section AverageFacts.
Context {F : Type} `{Arith F}.
Variable set_iter : list string -> list string.
Hypothesis set_iter_order : set_order set_iter.

Lemma all_classes_from (cps : list (dict string F)) : forall s x,
  In x (fold_left (fun s cp => set_update s (dict_keys cp)) cps s) <->
  In x s \/ exists cp, In cp cps /\ In x (dict_keys cp).
Proof.
  induction cps as [|cp cps IH]; intros s x; simpl.
  - split; [tauto|]. intros [Hs|(cp & [] & _)]. exact Hs.
  - rewrite IH, set_update_In. split.
    + intros [[Hs|Hk]|(cp' & Hin & Hx)]; eauto 6.
    + intros [Hs|(cp' & [<-|Hin] & Hx)]; eauto 6.
Qed.

Lemma all_classes_set_NoDup (cps : list (dict string F)) : NoDup (all_classes_set cps).
Proof.
  unfold all_classes_set. generalize (@nil string) (NoDup_nil string).
  induction cps as [|cp cps IH]; intros s Hs; simpl; [assumption|].
  apply IH. now apply set_update_NoDup.
Qed.

(** [all_classes] is the union of the keys of all frames, in whatever
    order the set is iterated. *)
Lemma all_classes_In (cps : list (dict string F)) (x : string) :
  In x (all_classes set_iter cps) <-> exists cp, In cp cps /\ In x (dict_keys cp).
Proof.
  unfold all_classes.
  transitivity (In x (all_classes_set cps)).
  - split; apply Permutation_in; [symmetry|]; apply set_iter_order.
  - unfold all_classes_set. rewrite all_classes_from. simpl. tauto.
Qed.

Lemma all_classes_NoDup (cps : list (dict string F)) : NoDup (all_classes set_iter cps).
Proof.
  unfold all_classes. eapply Permutation_NoDup; [apply set_iter_order|].
  apply all_classes_set_NoDup.
Qed.

Lemma fold_dict_set_keys (f : string -> F) (keys : list string) :
  forall d : dict string F,
  fold_left (fun avg cls => dict_set String.eqb avg cls (f cls)) keys d =
  fold_left (fun d kv => dict_set String.eqb d (fst kv) (snd kv))
            (map (fun cls => (cls, f cls)) keys) d.
Proof.
  induction keys as [|k keys IH]; intros d; simpl; [reflexivity|]. apply IH.
Qed.

(** The average map has one entry per class of [all_classes], in the
    order of [all_classes]: the mean of the class's percentage over all
    frames, 0 where a frame lacks it. *)
Lemma average_class_percentages_eq (cps : list (dict string F)) :
  average_class_percentages set_iter cps =
  map (fun cls =>
         (cls, np_mean (map (fun cp => dict_get_default String.eqb cp cls (of_int 0))
                            cps)))
      (all_classes set_iter cps).
Proof.
  unfold average_class_percentages. rewrite fold_dict_set_keys.
  apply (dict_of_items_NoDup String.eqb_eq).
  rewrite map_map. cbn [fst]. rewrite map_id. apply all_classes_NoDup.
Qed.
End AverageFacts.

(* ------------------------------------------------------------------ *)
(** ** The order of binary64 values and [np.min] *)

Lemma key_le_refl a : key_le a a.
Proof. destruct a as [[a1 a2] a3]. unfold key_le. lia. Qed.

Lemma key_le_trans a b c : key_le a b -> key_le b c -> key_le a c.
Proof.
  destruct a as [[a1 a2] a3], b as [[b1 b2] b3], c as [[c1 c2] c3].
  unfold key_le. lia.
Qed.

Lemma SFleb_key (f1 f2 : spec_float) :
  f1 <> S754_nan -> f2 <> S754_nan ->
  SFleb f1 f2 = true <-> key_le (SFkey f1) (SFkey f2).
Proof.
  intros N1 N2. unfold SFleb.
  destruct f1 as [s1|s1| |s1 m1 e1]; try contradiction;
    destruct f2 as [s2|s2| |s2 m2 e2]; try contradiction;
    try destruct s1; try destruct s2; cbn -[Z.compare];
    try change (PosDef.Pos.compare_cont Eq m1 m2) with (Pos.compare m1 m2);
    try (destruct (Z.compare_spec e1 e2);
         [destruct (Pos.compare_spec m1 m2)| |]; cbn);
    (split; [intros; try discriminate; lia|intros; try reflexivity; lia]).
Qed.

Lemma SFltb_key (f1 f2 : spec_float) :
  f1 <> S754_nan -> f2 <> S754_nan ->
  SFltb f1 f2 = false <-> key_le (SFkey f2) (SFkey f1).
Proof.
  intros N1 N2. unfold SFltb.
  destruct f1 as [s1|s1| |s1 m1 e1]; try contradiction;
    destruct f2 as [s2|s2| |s2 m2 e2]; try contradiction;
    try destruct s1; try destruct s2; cbn -[Z.compare];
    try change (PosDef.Pos.compare_cont Eq m1 m2) with (Pos.compare m1 m2);
    try (destruct (Z.compare_spec e1 e2);
         [destruct (Pos.compare_spec m1 m2)| |]; cbn);
    (split; [intros; try discriminate; lia|intros; try reflexivity; lia]).
Qed.

Lemma not_nan_SF (x : float) : PrimFloat.is_nan x = false -> Prim2SF x <> S754_nan.
Proof.
  unfold PrimFloat.is_nan. rewrite FloatAxioms.eqb_spec. intros H E.
  rewrite E in H. discriminate.
Qed.

Lemma leb_float_le (x y : float) :
  PrimFloat.is_nan x = false -> PrimFloat.is_nan y = false ->
  (x <=? y) = true <-> float_le x y.
Proof.
  intros Hx Hy. rewrite leb_spec. apply SFleb_key; now apply not_nan_SF.
Qed.

Lemma ltb_float_le (x y : float) :
  PrimFloat.is_nan x = false -> PrimFloat.is_nan y = false ->
  (x <? y) = false <-> float_le y x.
Proof.
  intros Hx Hy. rewrite ltb_spec. apply SFltb_key; now apply not_nan_SF.
Qed.

Lemma ltb_true_float_le (x y : float) : (x <? y) = true -> float_le x y.
Proof.
  rewrite ltb_spec. unfold SFltb, float_le.
  destruct (Prim2SF x) as [s1|s1| |s1 m1 e1]; destruct (Prim2SF y) as [s2|s2| |s2 m2 e2];
    try destruct s1; try destruct s2; cbn -[Z.compare];
    try change (PosDef.Pos.compare_cont Eq m1 m2) with (Pos.compare m1 m2);
    try (destruct (Z.compare_spec e1 e2);
         [destruct (Pos.compare_spec m1 m2)| |]; cbn);
    intros; try discriminate; lia.
Qed.

(** Folding [np.minimum] over values that are not NaN yields one of them
    that is at most every one of them. *)
Lemma fold_np_minimum (xs : list float) : forall acc,
  PrimFloat.is_nan acc = false ->
  Forall (fun y => PrimFloat.is_nan y = false) xs ->
  let m := fold_left np_minimum xs acc in
  PrimFloat.is_nan m = false /\ (m = acc \/ In m xs) /\
  float_le m acc /\ Forall (float_le m) xs.
Proof.
  induction xs as [|y xs IH]; intros acc Hacc Hxs; cbn [fold_left].
  - cbv zeta. repeat split; auto. apply key_le_refl.
  - inversion Hxs as [|? ? Hy Hxs']; subst.
    assert (Hstep : PrimFloat.is_nan (np_minimum acc y) = false /\
                    (np_minimum acc y = acc \/ np_minimum acc y = y) /\
                    float_le (np_minimum acc y) acc /\
                    float_le (np_minimum acc y) y).
    { unfold np_minimum. rewrite Hacc, orb_false_r.
      destruct (acc <? y) eqn:E.
      - repeat split; auto; [apply key_le_refl|now apply ltb_true_float_le].
      - repeat split; auto; [|apply key_le_refl]. now apply ltb_float_le in E. }
    destruct Hstep as (Hn & Hsel & Hle1 & Hle2).
    destruct (IH _ Hn Hxs') as (Hn' & Hsel' & Hle' & Hall).
    cbv zeta. repeat split.
    + exact Hn'.
    + destruct Hsel' as [->|Hin]; [|right; now right].
      destruct Hsel as [->| ->]; [now left|right; now left].
    + unfold float_le in *. eapply key_le_trans; eassumption.
    + constructor; [|exact Hall].
      unfold float_le in *. eapply key_le_trans; eassumption.
Qed.

(** [np.min] of values that are not NaN is the smallest of them. *)
Lemma np_min_smallest (x : float) (xs : list float) :
  Forall (fun y => PrimFloat.is_nan y = false) (x :: xs) ->
  In (np_min (x :: xs)) (x :: xs) /\
  Forall (fun y => (np_min (x :: xs) <=? y) = true) (x :: xs).
Proof.
  intros Hall. inversion Hall as [|? ? Hx Hxs]; subst.
  destruct (@fold_np_minimum xs x Hx Hxs) as (Hn & Hsel & Hle & Hles).
  cbv zeta in *. cbn [np_min]. split.
  - destruct Hsel as [->|Hin]; [now left|now right].
  - constructor.
    + now apply leb_float_le.
    + rewrite Forall_forall in *. intros y Hy.
      apply leb_float_le; auto.
Qed.

(* ------------------------------------------------------------------ *)
(** ** Instances *)

Lemma group_mask_length (ids : list Z) (id : Z) :
  length (group_mask ids id) = length ids.
Proof. apply length_map. Qed.

Lemma select_group_nonempty {A} (ids : list Z) (id : Z) : forall arr : list A,
  length arr = length ids ->
  (In id ids <-> select arr (group_mask ids id) <> []).
Proof.
  induction ids as [|i ids IH]; intros [|a arr]; simpl; try discriminate.
  - intros _. split; [tauto|congruence].
  - intros [= E]. destruct (Z.eqb_spec i id).
    + split; [discriminate|auto].
    + rewrite <- (IH arr E). split; [intros [?|?]; [contradiction|assumption]|auto].
Qed.

Section InstanceFacts.
Variables (points_front : list point3) (points_img : list (float * float)).
Variables (semantic_labels instance_ids : list Z).
Hypothesis len_points : length points_front = length instance_ids.
Hypothesis len_img : length points_img = length instance_ids.
Hypothesis len_sem : length semantic_labels = length instance_ids.

Lemma instance_entry_spec (inst_id : Z) :
  In inst_id instance_ids ->
  instance_entry points_front points_img semantic_labels instance_ids inst_id =
  Ok (Some (expected_instance points_front points_img semantic_labels
                              instance_ids inst_id)).
Proof.
  intros Hin. unfold instance_entry, expected_instance.
  fold (group_mask instance_ids inst_id).
  rewrite !mask_index_same_length by now rewrite group_mask_length.
  cbn [bind].
  pose proof (proj1 (@select_group_nonempty _ instance_ids inst_id
                       semantic_labels len_sem) Hin) as Hs.
  pose proof (proj1 (@select_group_nonempty _ instance_ids inst_id
                       points_img len_img) Hin) as Hi.
  destruct (select semantic_labels _) as [|s0 sem']; [contradiction|].
  cbn [list_index nth_error bind hd].
  destruct (select points_img _) as [|i0 img']; [contradiction|].
  reflexivity.
Qed.

Lemma instances_loop_spec (ids : list Z) : forall instances,
  (forall i, In i ids -> In i instance_ids) ->
  instances_loop points_front points_img semantic_labels instance_ids ids instances =
  Ok (instances ++
      map (expected_instance points_front points_img semantic_labels instance_ids)
          (filter (fun i => negb (i =? 0)%Z) ids)).
Proof.
  induction ids as [|i ids IH]; intros instances Hin; cbn [instances_loop filter map].
  - now rewrite app_nil_r.
  - destruct (i =? 0)%Z; cbn [negb].
    + apply IH. intros j Hj. apply Hin. now right.
    + rewrite instance_entry_spec by (apply Hin; now left). cbn [bind].
      rewrite IH by (intros j Hj; apply Hin; now right).
      cbn [map]. now rewrite <- app_assoc.
Qed.

(** One entry per distinct instance id other than 0, in increasing order
    of the ids. *)
Lemma identify_instances_spec :
  identify_instances points_front points_img semantic_labels instance_ids =
  Ok (map (expected_instance points_front points_img semantic_labels instance_ids)
          (filter (fun i => negb (i =? 0)%Z) (np_unique instance_ids))).
Proof.
  unfold identify_instances. rewrite instances_loop_spec; [reflexivity|].
  intros i. apply np_unique_In.
Qed.
End InstanceFacts.

Lemma np_unique_zero_five (ids : list Z) :
  (forall i, In i ids -> i = 0%Z \/ i = 5%Z) -> In 5%Z ids ->
  filter (fun i => negb (i =? 0)%Z) (np_unique ids) = [5%Z].
Proof.
  intros Hall Hin.
  assert (Hform : np_unique ids = [] \/ np_unique ids = [0%Z] \/
                  np_unique ids = [5%Z] \/ np_unique ids = [0%Z; 5%Z]).
  { clear Hin. induction ids as [|i ids IH]; [now left|].
    cbn [np_unique fold_right]. fold (np_unique ids).
    destruct (Hall i (or_introl eq_refl)) as [-> | ->];
      destruct IH as [E|[E|[E|E]]];
      try (intros j Hj; apply Hall; now right);
      rewrite E; cbn; auto. }
  apply np_unique_In in Hin.
  destruct Hform as [E|[E|[E|E]]]; rewrite E in *; try reflexivity.
  - destruct Hin.
  - destruct Hin as [Hin|[]]. discriminate.
Qed.

(** C3.  In general, [identify_instances] returns one entry per distinct
    instance id other than 0, in increasing order of the ids, and the
    [distance] of an entry is [np.min] of the Euclidean norms
    [sqrt(x*x + y*y + z*z)] of the 3D points of that instance, each norm
    computed in single precision as NumPy does on the [float32] point
    array.  In particular, when the points that carry a non-zero instance
    id are exactly three points of instance 5 and class 10, the result is
    a single entry of class "car" whose distance is [np.min] of the three
    norms: one of the three and at most each of them (when none is NaN).
    The [instances] of a frame summary are the result of
    [identify_instances] on what the projection returned. *)
Theorem instance_aggregation :
  let euclid := fun p : point3 =>
    round_f32 (sqrt (round_f32 (round_f32 (round_f32 (px p * px p)
                                           + round_f32 (py p * py p))
                                + round_f32 (pz p * pz p)))) in
  (forall (points_front : list point3) (points_img : list (float * float))
          (front_labels : list Z),
     length points_front = length front_labels ->
     length points_img = length front_labels ->
     let semantic_labels := map semantic_of front_labels in
     let instance_ids := map instance_of front_labels in
     exists instances,
       identify_instances points_front points_img semantic_labels instance_ids
         = Ok instances /\
       map inst_instance_id instances =
         filter (fun i => negb (i =? 0)%Z) (np_unique instance_ids) /\
       Forall (fun i =>
                 inst_distance i =
                 np_min (map euclid
                           (select points_front
                                   (group_mask instance_ids (inst_instance_id i)))))
              instances) /\
  (forall (points_front : list point3) (points_img : list (float * float))
          (front_labels : list Z) (p1 p2 p3 : point3),
     length points_front = length front_labels ->
     length points_img = length front_labels ->
     let semantic_labels := map semantic_of front_labels in
     let instance_ids := map instance_of front_labels in
     (forall l, In l front_labels ->
        instance_of l = 0%Z \/ (instance_of l = 5%Z /\ semantic_of l = 10%Z)) ->
     select points_front (group_mask instance_ids 5) = [p1; p2; p3] ->
     let d := np_min [euclid p1; euclid p2; euclid p3] in
     let pixels := select points_img (group_mask instance_ids 5) in
     let loc := get_spatial_location (np_mean (map fst pixels))
                                     (np_mean (map snd pixels)) in
     identify_instances points_front points_img semantic_labels instance_ids
       = Ok [Instance "car" 5 loc d] /\
     (PrimFloat.is_nan (euclid p1) = false ->
      PrimFloat.is_nan (euclid p2) = false ->
      PrimFloat.is_nan (euclid p3) = false ->
      In d [euclid p1; euclid p2; euclid p3] /\
      (d <=? euclid p1) = true /\ (d <=? euclid p2) = true /\
      (d <=? euclid p3) = true)) /\
  (forall arctan2 degrees sd Tr P2 poses times acc frame_id acc'
          points labels pf pi lf,
     frame_files sd frame_id = Some (points, labels) ->
     project_to_front_view points labels Tr P2 = Ok (pf, pi, lf) ->
     process_frame arctan2 degrees sd Tr P2 poses times acc frame_id = Ok acc' ->
     exists fs,
       frame_summaries acc' = frame_summaries acc ++ [fs] /\
       identify_instances pf pi (map semantic_of lf) (map instance_of lf)
         = Ok (fs_instances fs)).
Proof.
  cbv zeta. change (fun p : point3 => _) with norm_f32.
  split; [|split].
  - intros pf pi labels Hpf Hpi.
    eexists. split; [apply identify_instances_spec; now rewrite !length_map|].
    split.
    + rewrite map_map. cbn [inst_instance_id expected_instance]. apply map_id.
    + apply Forall_forall. intros i Hi.
      apply in_map_iff in Hi as (id & <- & _). reflexivity.
  - intros pf pi labels p1 p2 p3 Hpf Hpi Hall Hsel. split.
    + assert (Hin : In 5%Z (map instance_of labels)).
      { apply (@select_group_nonempty _ (map instance_of labels) 5%Z pf);
          [now rewrite length_map|].
        rewrite Hsel. discriminate. }
      rewrite identify_instances_spec by now rewrite !length_map.
      rewrite np_unique_zero_five; [|
        intros i Hi; apply in_map_iff in Hi as (l & <- & Hl);
        destruct (Hall l Hl) as [?|[? _]]; auto | exact Hin].
      cbn [map]. unfold expected_instance. rewrite Hsel. cbn [map].
      do 3 f_equal.
      unfold group_mask. rewrite map_map, select_map_map.
      assert (Hf : forall l, In l (filter (fun x => (instance_of x =? 5)%Z) labels) ->
                             semantic_of l = 10%Z).
      { intros l Hl. apply filter_In in Hl as [Hl H5]. apply Z.eqb_eq in H5.
        destruct (Hall l Hl) as [H0|[_ Hs]]; [congruence|exact Hs]. }
      assert (Hne : filter (fun x => (instance_of x =? 5)%Z) labels <> []).
      { apply in_map_iff in Hin as (l & H5 & Hl). intros E.
        assert (Hl' : In l (filter (fun x => (instance_of x =? 5)%Z) labels))
          by (apply filter_In; split; [assumption|now apply Z.eqb_eq]).
        rewrite E in Hl'. destruct Hl'. }
      destruct (filter _ labels) as [|l0 ls]; [contradiction|].
      cbn [map hd]. rewrite (Hf l0 (or_introl eq_refl)). reflexivity.
    + intros N1 N2 N3.
      destruct (@np_min_smallest (norm_f32 p1) [norm_f32 p2; norm_f32 p3])
        as [Hin Hle]; [repeat constructor; assumption|].
      split; [exact Hin|].
      inversion Hle as [|? ? H1 Hle1]; subst.
      inversion Hle1 as [|? ? H2 Hle2]; subst.
      inversion Hle2 as [|? ? H3 _]; subst. auto.
  - intros arctan2 degrees sd Tr P2 poses times acc frame_id acc'
           points labels pf pi lf Hf Hp H.
    unfold process_frame, load_frame_data in H. rewrite Hf in H.
    cbn [load bind] in H. rewrite Hp in H. cbn [bind] in H.
    destruct (identify_instances pf pi (map semantic_of lf) (map instance_of lf))
      as [instances|] eqn:Ei; cbn [bind] in H; [|discriminate].
    bind_ok H. injection H as <-. eexists. split; reflexivity.
Qed.

(** Three points of instance 5 and class 10 at distances 5, 1 and 2 from
    the sensor, among other points: one car at distance 1. *)
Lemma instance_aggregation_witness :
  identify_instances
    [P3 3 4 0; P3 0 0 9; P3 1 0 0; P3 0 0 2] [(1, 1); (7, 7); (2, 2); (3, 3)]
    (map semantic_of [327690; 40; 327690; 327690]%Z)
    (map instance_of [327690; 40; 327690; 327690]%Z)
  = Ok [Instance "car" 5 "top-left" 1].
Proof.
  refine (eq_trans
            (proj1 (proj1 (proj2 instance_aggregation)
               [P3 3 4 0; P3 0 0 9; P3 1 0 0; P3 0 0 2]
               [(1, 1); (7, 7); (2, 2); (3, 3)]
               [327690; 40; 327690; 327690]%Z (P3 3 4 0) (P3 1 0 0) (P3 0 0 2)
               eq_refl eq_refl _ _)) _).
  - intros l [<-|[<-|[<-|[<-|[]]]]]; vm_compute; auto.
  - vm_compute. reflexivity.
  - vm_compute. reflexivity.
Defined.

(* ------------------------------------------------------------------ *)
(** ** Failures of a sequence and the batch *)

Section BatchFacts.
Variables (arctan2 : float -> float -> float) (degrees : float -> float).
Variable set_iter : list string -> list string.


Lemma frames_loop_raise sd Tr P2 poses times frame_id e (frame_ids : list nat) :
  In frame_id frame_ids ->
  (forall acc,
     process_frame arctan2 degrees sd Tr P2 poses times acc frame_id = Raise e) ->
  forall acc, exists e',
    frames_loop arctan2 degrees sd Tr P2 poses times frame_ids acc = Raise e'.
Proof.
  intros Hin Hraise. induction frame_ids as [|i rest IH]; [destruct Hin|].
  intros acc. cbn [frames_loop].
  destruct Hin as [->|Hin].
  - rewrite Hraise. cbn [bind]. eauto.
  - destruct (process_frame _ _ _ _ _ _ _ acc i) as [acc'|e0]; cbn [bind]; eauto.
Qed.


Lemma process_one_stats dataset w i j :
  dict_get Nat.eqb (stats (process_one arctan2 degrees set_iter dataset w i)) j =
  match dataset i with
  | Some sd =>
      match process_sequence arctan2 degrees set_iter sd with
      | Ok out => if Nat.eqb i j then Some out else dict_get Nat.eqb (stats w) j
      | Raise _ => dict_get Nat.eqb (stats w) j
      end
  | None => dict_get Nat.eqb (stats w) j
  end.
Proof.
  unfold process_one. destruct (dataset i) as [sd|]; [|reflexivity].
  destruct (process_sequence arctan2 degrees set_iter sd) as [out|e]; [|reflexivity].
  cbn [stats]. apply (dict_get_set Nat.eqb_eq).
Qed.

(** After the loop, the files of a sequence are those its own processing
    produced, whatever happened to the other sequences; the files of a
    sequence that failed or was skipped are untouched. *)
Lemma process_loop_stats dataset j (ids : list nat) : forall w,
  dict_get Nat.eqb (stats (fold_left (process_one arctan2 degrees set_iter dataset) ids w)) j =
  match dataset j with
  | Some sd =>
      match process_sequence arctan2 degrees set_iter sd with
      | Ok out => if existsb (Nat.eqb j) ids then Some out
                  else dict_get Nat.eqb (stats w) j
      | Raise _ => dict_get Nat.eqb (stats w) j
      end
  | None => dict_get Nat.eqb (stats w) j
  end.
Proof.
  induction ids as [|i ids IH]; intros w; cbn [fold_left existsb].
  - destruct (dataset j) as [sd|]; [|reflexivity].
    now destruct (process_sequence arctan2 degrees set_iter sd).
  - rewrite IH, process_one_stats.
    destruct (Nat.eqb_spec j i) as [->|Hne].
    + rewrite Nat.eqb_refl. cbn [orb].
      destruct (dataset i) as [sd|]; [|reflexivity].
      destruct (process_sequence arctan2 degrees set_iter sd) as [out|e]; [|reflexivity].
      now destruct (existsb (Nat.eqb i) ids).
    + cbn [orb]. destruct (Nat.eqb_spec i j) as [->|_]; [contradiction|].
      destruct (dataset j) as [sd|].
      * destruct (process_sequence arctan2 degrees set_iter sd) as [out|e];
          destruct (dataset i) as [sdi|]; try reflexivity;
          destruct (process_sequence arctan2 degrees set_iter sdi); reflexivity.
      * destruct (dataset i) as [sdi|]; try reflexivity;
          destruct (process_sequence arctan2 degrees set_iter sdi); reflexivity.
Qed.



End BatchFacts.



(* ------------------------------------------------------------------ *)
(** ** Well-formed sequences are processed to the end *)

Lemma list_index_lt {A} (l : list A) (i : nat) :
  (i < length l)%nat -> exists a, list_index l i = Ok a.
Proof.
  intros Hlt. unfold list_index.
  destruct (nth_error l i) as [a|] eqn:E; [eauto|].
  apply nth_error_None in E. lia.
Qed.

Section Totality.
Variables (arctan2 : float -> float -> float) (degrees : float -> float).
Variable set_iter : list string -> list string.
Variables (sd : sequence_dir) (Tr : mat4) (P2 : mat34).
Variables (poses : list mat4) (times : list float).

Hypothesis frames_well_formed : forall i,
  (i < length poses)%nat ->
  exists points labels,
    frame_files sd i = Some (points, labels) /\ length labels = length points.
Hypothesis one_time_per_pose : length times = length poses.

Lemma process_frame_total acc frame_id :
  (frame_id < length poses)%nat ->
  exists acc',
    process_frame arctan2 degrees sd Tr P2 poses times acc frame_id = Ok acc' /\
    length (class_percentages_list acc') = S (length (class_percentages_list acc)) /\
    length (object_counts_list acc') = S (length (object_counts_list acc)).
Proof.
  intros Hlt. destruct (frames_well_formed Hlt) as (points & labels & Hf & Hlen).
  unfold process_frame, load_frame_data. rewrite Hf. cbn [load bind].
  destruct (project_to_front_view_total Tr P2 points labels Hlen) as [[[pf pi] lf] Hp].
  rewrite Hp. cbn [bind].
  apply project_to_front_view_spec in Hp as (_ & -> & -> & ->).
  rewrite identify_instances_spec by now rewrite !length_map.
  cbn [bind].
  destruct (list_index_lt poses Hlt) as [pose ->].
  assert (Hlt' : (frame_id < length times)%nat) by lia.
  destruct (list_index_lt times Hlt') as [t ->].
  cbn [bind]. eexists. split; [reflexivity|].
  cbn. rewrite !length_app. cbn. lia.
Qed.

Lemma frames_loop_total (count : nat) : forall start acc,
  (start + count <= length poses)%nat ->
  exists acc',
    frames_loop arctan2 degrees sd Tr P2 poses times (seq start count) acc = Ok acc' /\
    length (class_percentages_list acc')
      = (length (class_percentages_list acc) + count)%nat /\
    length (object_counts_list acc')
      = (length (object_counts_list acc) + count)%nat.
Proof.
  induction count as [|count IH]; intros start acc Hle; cbn [seq frames_loop].
  - exists acc. repeat split; lia.
  - destruct (@process_frame_total acc start) as (acc1 & -> & H1 & H2); [lia|].
    cbn [bind].
    destruct (IH (S start) acc1) as (acc' & -> & H1' & H2'); [lia|].
    exists acc'. repeat split; lia.
Qed.

Lemma time_series_of_total acc (indices : list nat) :
  (forall i, In i indices ->
     (i < length times)%nat /\
     (i < length (class_percentages_list acc))%nat /\
     (i < length (object_counts_list acc))%nat) ->
  exists entries, time_series_of times acc indices = Ok entries.
Proof.
  induction indices as [|i rest IH]; intros Hall; cbn [time_series_of]; [eauto|].
  destruct (Hall i (or_introl eq_refl)) as (Ht & Hc & Ho).
  destruct (list_index_lt _ Ht) as [t ->].
  destruct (list_index_lt _ Hc) as [cp ->].
  destruct (list_index_lt _ Ho) as [oc ->].
  cbn [bind].
  destruct IH as [entries ->]; [intros j Hj; apply Hall; now right|].
  cbn [bind]. eauto.
Qed.

(** A sequence whose calibration, poses and times load, with one time
    per pose and as many labels as points in each frame, is processed
    without an exception. *)
Lemma process_sequence_total :
  calib_txt sd = Some (Tr, P2) ->
  poses_txt sd = Some poses ->
  times_txt sd = Some times ->
  exists out, process_sequence arctan2 degrees set_iter sd = Ok out.
Proof.
  intros Hc Hp Ht. unfold process_sequence, load_calib, load_poses, load_times.
  rewrite Hc, Hp, Ht. cbn [load bind].
  destruct (@frames_loop_total (length poses) 0%nat initial_accum)
    as (acc & -> & H1 & H2); [lia|].
  cbn [bind]. unfold summarize.
  destruct (@time_series_of_total acc (seq 0 (length times))) as [entries ->].
  - intros i Hi. apply in_seq in Hi. cbn in H1, H2. lia.
  - cbn [bind]. eauto.
Qed.
End Totality.

(* ================================================================== *)
(** * Further properties of the statistics pipeline *)

(* ------------------------------------------------------------------ *)
(** ** The packed label *)

(** The two fields that lines 126-127 read from a 32-bit label are its
    low and high halves: each is below 65536, together they give the
    label back, and a label packed from two such fields decodes to
    them. *)
Theorem label_fields_partition :
  (forall label : Z,
     (0 <= label < 4294967296)%Z ->
     (0 <= semantic_of label < 65536)%Z /\
     (0 <= instance_of label < 65536)%Z /\
     label = (instance_of label * 65536 + semantic_of label)%Z) /\
  (forall inst sem : Z,
     (0 <= inst < 65536)%Z -> (0 <= sem < 65536)%Z ->
     semantic_of (inst * 65536 + sem) = sem /\
     instance_of (inst * 65536 + sem) = inst).
Proof.
  assert (Hs : forall l, semantic_of l = (l mod 65536)%Z).
  { intros l. unfold semantic_of. change 65535%Z with (Z.ones 16).
    now rewrite Z.land_ones by lia. }
  assert (Hi : forall l, instance_of l = (l / 65536)%Z).
  { intros l. unfold instance_of. now rewrite Z.shiftr_div_pow2 by lia. }
  split.
  - intros label Hl. rewrite Hs, Hi.
    pose proof (Z.mod_pos_bound label 65536 ltac:(lia)).
    pose proof (Z.div_mod label 65536 ltac:(lia)).
    assert (0 <= label / 65536)%Z by (apply Z.div_pos; lia).
    assert (label / 65536 < 65536)%Z by (apply Z.div_lt_upper_bound; lia).
    lia.
  - intros inst sem Hinst Hsem. rewrite Hs, Hi. split.
    + rewrite Z.add_comm, Z.mod_add by lia. apply Z.mod_small. lia.
    + rewrite Z.add_comm, Z.div_add by lia. rewrite Z.div_small by lia. lia.
Qed.

Lemma label_fields_partition_witness :
  (0 <= 458851 < 4294967296)%Z /\
  458851%Z = (instance_of 458851 * 65536 + semantic_of 458851)%Z.
Proof.
  split; [lia|].
  apply (proj1 label_fields_partition 458851%Z). lia.
Defined.

(* ------------------------------------------------------------------ *)
(** ** Spatial buckets *)

Lemma is_nan_SF (x : float) : PrimFloat.is_nan x = true -> Prim2SF x = S754_nan.
Proof.
  unfold PrimFloat.is_nan. rewrite FloatAxioms.eqb_spec. unfold SFeqb.
  destruct (Prim2SF x) as [s|s| |s m e]; cbn -[Z.compare]; try discriminate;
    try reflexivity; try (destruct s; discriminate).
  change (PosDef.Pos.compare_cont Eq m m) with (Pos.compare m m).
  rewrite Z.compare_refl, Pos.compare_refl. destruct s; discriminate.
Qed.

Lemma ltb_nan_l (x y : float) : PrimFloat.is_nan x = true -> (x <? y) = false.
Proof. intros H. rewrite ltb_spec, (@is_nan_SF _ H). reflexivity. Qed.

Lemma ltb_nan_r (x y : float) : PrimFloat.is_nan y = true -> (x <? y) = false.
Proof.
  intros H. rewrite ltb_spec, (@is_nan_SF _ H). unfold SFltb.
  now destruct (Prim2SF x) as [s|s| |s m e].
Qed.

Lemma leb_not_nan (x y : float) :
  (x <=? y) = true -> PrimFloat.is_nan x = false /\ PrimFloat.is_nan y = false.
Proof.
  intros H.
  destruct (PrimFloat.is_nan x) eqn:Ex.
  { rewrite leb_spec, (@is_nan_SF _ Ex) in H. discriminate. }
  destruct (PrimFloat.is_nan y) eqn:Ey; [|now split].
  rewrite leb_spec, (@is_nan_SF _ Ey) in H. unfold SFleb in H.
  now destruct (Prim2SF x) as [s|s| |s m e].
Qed.

(** [bound <= x] excludes [x < bound]. *)
Lemma leb_ltb_false (bound x : float) : (bound <=? x) = true -> (x <? bound) = false.
Proof.
  intros H. destruct (@leb_not_nan _ _ H) as [Hb Hx].
  apply ltb_float_le; [assumption..|]. now apply leb_float_le.
Qed.

(** [get_spatial_location] cuts the image at a third and at two thirds
    of its width and height, which are exactly 414, 828, 125 and 250; a
    coordinate on a cut belongs to the band after it, and a coordinate
    that is at least the second cut, or NaN, falls in the last band. *)
Theorem spatial_location_bands (x y : float) :
  exists row col : string,
    get_spatial_location x y = (row ++ "-" ++ col)%string /\
    In row ["top"; "middle"; "bottom"]%string /\
    In col ["left"; "center"; "right"]%string /\
    ((x <? 414) = true -> col = "left"%string) /\
    ((414 <=? x) = true -> (x <? 828) = true -> col = "center"%string) /\
    ((828 <=? x) = true -> col = "right"%string) /\
    (PrimFloat.is_nan x = true -> col = "right"%string) /\
    ((y <? 125) = true -> row = "top"%string) /\
    ((125 <=? y) = true -> (y <? 250) = true -> row = "middle"%string) /\
    ((250 <=? y) = true -> row = "bottom"%string) /\
    (PrimFloat.is_nan y = true -> row = "bottom"%string).
Proof.
  unfold get_spatial_location. cbv zeta.
  change (1242 / 3) with 414. change (2 * 1242 / 3) with 828.
  change (375 / 3) with 125. change (2 * 375 / 3) with 250.
  assert (Hx : (828 <=? x) = true -> (x <? 414) = false).
  { intros H. destruct (@leb_not_nan _ _ H) as [_ Hn].
    apply ltb_float_le; [assumption|reflexivity|].
    apply leb_float_le in H; [|reflexivity|assumption].
    unfold float_le in *. eapply key_le_trans; [|exact H].
    vm_compute. right. split; [reflexivity|]. left. reflexivity. }
  assert (Hy : (250 <=? y) = true -> (y <? 125) = false).
  { intros H. destruct (@leb_not_nan _ _ H) as [_ Hn].
    apply ltb_float_le; [assumption|reflexivity|].
    apply leb_float_le in H; [|reflexivity|assumption].
    unfold float_le in *. eapply key_le_trans; [|exact H].
    vm_compute. right. split; [reflexivity|]. left. reflexivity. }
  eexists. eexists. split; [reflexivity|].
  split; [destruct (y <? 125), (y <? 250); cbn; auto|].
  split; [destruct (x <? 414), (x <? 828); cbn; auto|].
  repeat split.
  - intros H. now rewrite H.
  - intros H1 H2. now rewrite (@leb_ltb_false _ _ H1), H2.
  - intros H. rewrite (@leb_ltb_false _ _ H).
    now rewrite (Hx H).
  - intros H. now rewrite !(@ltb_nan_l _ _ H).
  - intros H. now rewrite H.
  - intros H1 H2. now rewrite (@leb_ltb_false _ _ H1), H2.
  - intros H. now rewrite (@leb_ltb_false _ _ H), (Hy H).
  - intros H. now rewrite !(@ltb_nan_l _ _ H).
Qed.

Lemma spatial_location_bands_witness :
  (414 <=? 414) = true /\ (414 <? 828) = true /\
  get_spatial_location 414 125 = "middle-center"%string.
Proof.
  split; [vm_compute; reflexivity|]. split; [vm_compute; reflexivity|].
  destruct (spatial_location_bands 414 125)
    as (row & col & E & _ & _ & _ & Hc & _ & _ & _ & Hr & _).
  rewrite E, Hc, Hr by (vm_compute; reflexivity). reflexivity.
Defined.

(* ------------------------------------------------------------------ *)
(** ** Keys of the percentage map *)

(** The named percentage map of a frame has exactly one key per distinct
    semantic id of the frame, in increasing order of the ids: two ids
    never share a key, so no entry overwrites another; each id that
    occurs is found under its name with its own percentage, and a name
    of no occurring id is absent.  ([unique_classes] is this key list.) *)
Theorem percentage_keys_distinct (semantic_labels : list Z) :
  let named := class_percentages_named (F:=float) semantic_labels in
  dict_keys named = map percentage_key (np_unique semantic_labels) /\
  NoDup (dict_keys named) /\
  (forall u, In u semantic_labels ->
     dict_get String.eqb named (percentage_key u)
       = Some (percent_of semantic_labels u)) /\
  (forall k, (forall u, In u semantic_labels -> percentage_key u <> k) ->
     dict_get String.eqb named k = None).
Proof.
  cbv zeta. rewrite class_percentages_named_eq.
  assert (Hk : dict_keys
                 (map (fun u => (percentage_key u,
                                 percent_of (F:=float) semantic_labels u))
                      (np_unique semantic_labels))
               = map percentage_key (np_unique semantic_labels)).
  { unfold dict_keys. rewrite map_map. reflexivity. }
  split; [exact Hk|]. split; [|split].
  - rewrite Hk. apply Injective_map_NoDup; [|apply np_unique_NoDup].
    intros a b. apply percentage_key_inj.
  - intros u Hu. apply (proj2 (np_unique_In u semantic_labels)) in Hu. clear Hk.
    induction (np_unique semantic_labels) as [|v l IH]; [destruct Hu|].
    cbn [map dict_get].
    destruct (String.eqb_spec (percentage_key v) (percentage_key u)) as [E|N].
    + apply percentage_key_inj in E. now subst.
    + destruct Hu as [->|Hu]; [now elim N|now apply IH].
  - intros k Hk'. apply (dict_get_None String.eqb_eq). rewrite Hk.
    intros Hin. apply in_map_iff in Hin as (u & E & Hu).
    apply (proj1 (np_unique_In u semantic_labels)) in Hu. exact (Hk' u Hu E).
Qed.

Lemma percentage_keys_distinct_witness :
  In 99%Z [10; 99; 10; 300]%Z /\
  dict_get String.eqb (class_percentages_named (F:=float) [10; 99; 10; 300]%Z)
           "unknown_99"%string = Some 25.
Proof.
  split; [simpl; tauto|].
  pose proof (proj1 (proj2 (proj2 (percentage_keys_distinct [10; 99; 10; 300]%Z)))
                99%Z) as H.
  cbv zeta in H. change "unknown_99"%string with (percentage_key 99).
  rewrite H by (simpl; tauto). vm_compute. reflexivity.
Defined.

(* ------------------------------------------------------------------ *)
(** ** Object counts *)





(* ------------------------------------------------------------------ *)
(** ** The projection as a filter *)

Section ProjectionAlgebra.
Context {L : Type}.
Variables (Tr : mat4) (P2 : mat34).

Lemma project_to_front_view_value (points : list point3) (labels : list L) :
  length labels = length points ->
  let kept := filter (fun pl => visible Tr P2 (fst pl)) (combine points labels) in
  project_to_front_view points labels Tr P2 =
  Ok (map fst kept, map (fun pl => pixel Tr P2 (fst pl)) kept, map snd kept).
Proof.
  intros Hlen. cbv zeta.
  destruct (project_to_front_view_total Tr P2 points labels Hlen)
    as [[[pf pi] lf] H].
  rewrite H. apply project_to_front_view_spec in H as (_ & -> & -> & ->).
  reflexivity.
Qed.


End ProjectionAlgebra.


(* ------------------------------------------------------------------ *)
(** ** Files that do not load *)

Section LoadFailures.
Variables (arctan2 : float -> float -> float) (degrees : float -> float).
Variable set_iter : list string -> list string.

(** A sequence fails, and so writes nothing, when its calibration, pose
    or time file does not load, and when the point or label file of one
    of its frames (one per pose) does not load.  The first three failures
    are reported as [FileNotFoundError]. *)
Theorem unreadable_files_are_fatal (sd : sequence_dir) :
  (calib_txt sd = None \/
   (calib_txt sd <> None /\ poses_txt sd = None) \/
   (calib_txt sd <> None /\ poses_txt sd <> None /\ times_txt sd = None) ->
   process_sequence arctan2 degrees set_iter sd = Raise FileNotFoundError) /\
  (forall poses frame_id,
     poses_txt sd = Some poses ->
     (frame_id < length poses)%nat ->
     frame_files sd frame_id = None ->
     exists e, process_sequence arctan2 degrees set_iter sd = Raise e).
Proof.
  split.
  - unfold process_sequence, load_calib, load_poses, load_times.
    intros [Hc|[[Hc Hp]|(Hc & Hp & Ht)]].
    + now rewrite Hc.
    + destruct (calib_txt sd) as [[Tr P2]|]; [|contradiction].
      now rewrite Hp.
    + destruct (calib_txt sd) as [[Tr P2]|]; [|contradiction].
      destruct (poses_txt sd) as [poses|]; [|contradiction].
      now rewrite Ht.
  - intros poses frame_id Hp Hlt Hf.
    unfold process_sequence, load_poses.
    destruct (load_calib sd) as [[Tr P2]|e]; cbn [bind]; [|eauto].
    rewrite Hp. cbn [load bind].
    destruct (load_times sd) as [times|e]; cbn [bind]; [|eauto].
    destruct (@frames_loop_raise arctan2 degrees sd Tr P2 poses times frame_id
                FileNotFoundError (seq 0 (length poses)))
      with (acc := initial_accum) as [e He].
    + apply in_seq. lia.
    + intros acc. unfold process_frame, load_frame_data. now rewrite Hf.
    + rewrite He. cbn [bind]. eauto.
Qed.
End LoadFailures.

Lemma unreadable_files_are_fatal_witness :
  process_sequence Sample.arctan2 Sample.degrees Sample.set_iter
    (SequenceDir None (Some [Sample.Tr]) (Some [0]) (fun _ => None))
  = Raise FileNotFoundError.
Proof.
  apply (proj1 (unreadable_files_are_fatal Sample.arctan2 Sample.degrees Sample.set_iter
                  (SequenceDir None (Some [Sample.Tr]) (Some [0]) (fun _ => None)))).
  left. reflexivity.
Defined.

(* ------------------------------------------------------------------ *)
(** ** What the frame loop accumulates *)

Lemma firstn_snoc {A} (l : list A) (k : nat) (a : A) :
  nth_error l k = Some a -> firstn (S k) l = firstn k l ++ [a].
Proof.
  revert k. induction l as [|x l IH]; intros [|k] H; try discriminate.
  - now injection H as <-.
  - cbn [firstn app]. f_equal. now apply IH.
Qed.

Lemma last_firstn {A} (l : list A) (k : nat) (a d : A) :
  nth_error l k = Some a -> last (firstn (S k) l) d = a.
Proof.
  intros H. rewrite (firstn_snoc _ _ H). apply last_last.
Qed.

Lemma consecutive_snoc {A} (l : list A) (a d : A) :
  l <> [] ->
  combine (l ++ [a]) (tl (l ++ [a])) = combine l (tl l) ++ [(last l d, a)].
Proof.
  induction l as [|x l IH]; [congruence|]. intros _.
  destruct l as [|y l]; [reflexivity|].
  specialize (IH ltac:(discriminate)).
  change (combine ((x :: y :: l) ++ [a]) (tl ((x :: y :: l) ++ [a])))
    with ((x, y) :: combine ((y :: l) ++ [a]) (tl ((y :: l) ++ [a]))).
  rewrite IH. reflexivity.
Qed.

Lemma path_length_snoc (poses : list mat4) (k : nat) (p q : mat4) :
  nth_error poses k = Some p -> nth_error poses (S k) = Some q ->
  path_length (firstn (S (S k)) poses)
  = path_length (firstn (S k) poses) + displacement_of q p.
Proof.
  intros Hp Hq. unfold path_length.
  rewrite (firstn_snoc _ _ Hq).
  rewrite (@consecutive_snoc _ (firstn (S k) poses) q p).
  - rewrite fold_left_app. cbn [fold_left fst snd].
    now rewrite (last_firstn _ _ p Hp).
  - rewrite (firstn_snoc _ _ Hp). now destruct (firstn k poses).
Qed.

Lemma list_index_Ok {A} (l : list A) (i : nat) (a : A) :
  list_index l i = Ok a -> nth_error l i = Some a /\ (i < length l)%nat.
Proof.
  unfold list_index. destruct (nth_error l i) as [x|] eqn:E; [|discriminate].
  intros [= <-]. split; [reflexivity|]. apply nth_error_Some. congruence.
Qed.

Lemma nth_error_snoc_last {A} (l : list A) (a : A) :
  nth_error (l ++ [a]) (length l) = Some a.
Proof. rewrite nth_error_app2 by lia. now rewrite Nat.sub_diag. Qed.

Section RunFacts.
Variables (arctan2 : float -> float -> float) (degrees : float -> float).
Variable set_iter : list string -> list string.
Variables (sd : sequence_dir) (Tr : mat4) (P2 : mat34).
Variables (poses : list mat4) (times : list float).

Lemma run_inv_initial : run_inv poses times 0 initial_accum.
Proof.
  unfold run_inv. cbn.
  repeat (split; [first [lia|reflexivity]|]).
  intros i f g p q H. now destruct i.
Qed.

Lemma process_frame_run_inv (k : nat) (acc acc' : accum) :
  run_inv poses times k acc ->
  process_frame arctan2 degrees sd Tr P2 poses times acc k = Ok acc' ->
  run_inv poses times (S k) acc'.
Proof.
  intros (Hkp & Hkt & Hid & Hts & Hsp & Hcp & Hoc & Htd & Hprev & Hps & Hpair) H.
  unfold process_frame in H. bind_ok H.
  match goal with
  | Hp : list_index poses k = Ok ?pose, Ht : list_index times k = Ok ?t |- _ =>
      apply list_index_Ok in Hp as [Hpose Hltp];
      apply list_index_Ok in Ht as [Htime Hltt];
      rename pose into pose_k, t into time_k
  end.
  injection H as <-.
  assert (Hlen : length (frame_summaries acc) = k).
  { rewrite <- (length_map fs_frame_id), Hid. apply length_seq. }
  unfold run_inv. cbn [frame_summaries speeds class_percentages_list
    object_counts_list total_distance prev prev_speed].
  rewrite !map_app. cbn [map fs_frame_id fs_timestamp fs_speed
    fs_class_percentages fs_num_cars fs_num_persons].
  split; [lia|]. split; [lia|].
  split; [rewrite Hid; symmetry; apply seq_S|].
  split; [rewrite Hts; symmetry; now apply firstn_snoc|].
  split; [now rewrite Hsp|].
  split; [now rewrite Hcp|].
  split; [now rewrite Hoc|].
  split.
  { destruct k as [|j].
    - rewrite Hprev. cbn [ego_motion ego_motion_with ego_total_distance].
      unfold ego_motion, ego_motion_with. cbn [ego_total_distance].
      rewrite Htd. destruct poses as [|p0 ps]; [discriminate|reflexivity].
    - rewrite Hprev.
      destruct (nth_error poses j) as [p|] eqn:Ep;
        [|apply nth_error_None in Ep; lia].
      destruct (nth_error times j) as [t|] eqn:Et;
        [|apply nth_error_None in Et; lia].
      unfold ego_motion, ego_motion_with. cbn [ego_total_distance].
      rewrite Htd. symmetry. now apply path_length_snoc. }
  split; [now rewrite Hpose, Htime|].
  split; [now rewrite last_last|].
  intros ix f1 g1 p1 q1 Hf Hg Hp Hq.
  assert (Hi : (S ix < S k)%nat).
  { destruct (Nat.lt_ge_cases (S ix) (S k)) as [Hlt|Hge]; [exact Hlt|].
    exfalso.
    match type of Hg with
    | nth_error ?l _ = _ =>
        assert (Hnone : nth_error l (S ix) = None)
          by (apply nth_error_None; rewrite length_app, Hlen; cbn [length]; lia)
    end.
    congruence. }
  destruct (Nat.eq_dec (S ix) k) as [Ei|Ni].
  - revert Hlen. subst k. intros Hlen.
    rewrite nth_error_app2 in Hg by lia.
    rewrite Hlen, Nat.sub_diag in Hg. cbn [nth_error] in Hg.
    injection Hg as <-. cbn [fs_timestamp fs_speed fs_acceleration].
    rewrite nth_error_app1 in Hf by lia.
    rewrite Hprev, Hp in *.
    destruct (nth_error times ix) as [t1|] eqn:Et;
      [|apply nth_error_None in Et; lia].
    assert (Eft : fs_timestamp f1 = t1).
    { apply (map_nth_error fs_timestamp) in Hf. rewrite Hts in Hf.
      rewrite nth_error_firstn in Hf.
      destruct (Nat.ltb_spec ix (S ix)) as [_|]; [|lia]. congruence. }
    assert (Efs : fs_speed f1 = prev_speed acc).
    { rewrite Hps, Hsp.
      assert (Hsplit : frame_summaries acc
                       = firstn ix (frame_summaries acc) ++ [f1]).
      { rewrite <- (firstn_all (frame_summaries acc)) at 1.
        rewrite Hlen. now apply firstn_snoc. }
      rewrite Hsplit, map_app. cbn [map]. now rewrite last_last. }
    rewrite Hq in Hpose. injection Hpose as <-.
    unfold ego_motion, ego_motion_with. cbn [ego_speed ego_acceleration].
    rewrite Eft, Efs. split; reflexivity.
  - rewrite !nth_error_app1 in * by lia. eapply Hpair; eassumption.
Qed.

Lemma frames_loop_run_inv (count : nat) : forall start acc acc',
  run_inv poses times start acc ->
  frames_loop arctan2 degrees sd Tr P2 poses times (seq start count) acc = Ok acc' ->
  run_inv poses times (start + count) acc'.
Proof.
  induction count as [|count IH]; intros start acc acc' Hinv H; cbn [seq frames_loop] in H.
  - injection H as <-. now rewrite Nat.add_0_r.
  - bind_ok H. replace (start + S count)%nat with (S start + count)%nat by lia.
    eapply IH; [|exact H]. eapply process_frame_run_inv; eassumption.
Qed.
End RunFacts.

Lemma map_nth_seq {A} (d : A) (l : list A) :
  map (fun i => nth i l d) (seq 0 (length l)) = l.
Proof.
  induction l as [|a l IH]; [reflexivity|].
  cbn [length seq map nth]. f_equal.
  rewrite <- seq_shift, map_map. exact IH.
Qed.

Lemma time_series_of_Ok (times : list float) (acc : accum) (indices : list nat) :
  forall entries,
  time_series_of times acc indices = Ok entries ->
  Forall (fun i => (i < length times)%nat /\
                   (i < length (class_percentages_list acc))%nat /\
                   (i < length (object_counts_list acc))%nat) indices /\
  entries =
    map (fun i =>
           let oc := nth i (object_counts_list acc) (ObjectCounts 0 0 0) in
           TimeSeriesEntry (nth i times 0) (nth i (class_percentages_list acc) [])
                           (oc_car_count oc) (oc_person_count oc))
        indices.
Proof.
  induction indices as [|i rest IH]; intros entries H; cbn [time_series_of] in H.
  - injection H as <-. split; [constructor|reflexivity].
  - bind_ok H. injection H as <-.
    repeat match goal with
    | Hx : list_index _ _ = Ok _ |- _ => apply list_index_Ok in Hx as [Hx ?]
    end.
    destruct (IH _ eq_refl) as [Hall ->].
    split; [constructor; [now repeat split|exact Hall]|].
    cbn [map]. cbv zeta.
    repeat match goal with
    | Hx : nth_error _ i = Some _ |- _ =>
        rewrite (nth_error_nth _ _ _ Hx); clear Hx
    end.
    reflexivity.
Qed.

Section SequenceFacts.
Variables (arctan2 : float -> float -> float) (degrees : float -> float).
Variable set_iter : list string -> list string.

(** A successful run, taken apart. *)
Lemma process_sequence_Ok (sd : sequence_dir) fs ss :
  process_sequence arctan2 degrees set_iter sd = Ok (fs, ss) ->
  exists Tr P2 poses times acc,
    calib_txt sd = Some (Tr, P2) /\ poses_txt sd = Some poses /\
    times_txt sd = Some times /\
    frames_loop arctan2 degrees sd Tr P2 poses times (seq 0 (length poses))
                initial_accum = Ok acc /\
    run_inv poses times (length poses) acc /\
    fs = frame_summaries acc /\
    summarize set_iter poses times acc = Ok ss.
Proof.
  intros H. unfold process_sequence, load_calib, load_poses, load_times in H.
  destruct (calib_txt sd) as [[Tr P2]|] eqn:Ec; cbn [load bind] in H; [|discriminate].
  destruct (poses_txt sd) as [poses|] eqn:Ep; cbn [load bind] in H; [|discriminate].
  destruct (times_txt sd) as [times|] eqn:Et; cbn [load bind] in H; [|discriminate].
  destruct (frames_loop _ _ _ _ _ _ _ _ _) as [acc|] eqn:El;
    cbn [bind] in H; [|discriminate].
  destruct (summarize set_iter poses times acc) as [ss'|] eqn:Es;
    cbn [bind] in H; [|discriminate].
  injection H as <- <-.
  exists Tr, P2, poses, times, acc.
  split; [reflexivity|]. split; [reflexivity|]. split; [reflexivity|].
  split; [exact El|]. split; [|split; [reflexivity|exact Es]].
  change (run_inv poses times (0 + length poses) acc).
  eapply frames_loop_run_inv; [apply run_inv_initial|exact El].
Qed.

Lemma process_sequence_lengths (sd : sequence_dir) fs ss poses times :
  process_sequence arctan2 degrees set_iter sd = Ok (fs, ss) ->
  poses_txt sd = Some poses -> times_txt sd = Some times ->
  length times = length poses.
Proof.
  intros H Hp Ht.
  apply process_sequence_Ok in H
    as (Tr & P2 & poses' & times' & acc & _ & Hp' & Ht' & _ & Hinv & _ & Hs).
  rewrite Hp in Hp'. injection Hp' as <-. rewrite Ht in Ht'. injection Ht' as <-.
  destruct Hinv as (_ & Hkt & Hid & _ & _ & Hcp & _).
  unfold summarize in Hs. bind_ok Hs.
  match goal with
  | Hx : time_series_of _ _ _ = Ok _ |- _ =>
      apply time_series_of_Ok in Hx as [Hall _]
  end.
  assert (Hcl : length (class_percentages_list acc) = length poses).
  { rewrite Hcp, length_map, <- (length_map fs_frame_id), Hid. apply length_seq. }
  apply Nat.le_antisymm; [|exact Hkt].
  destruct (length times) as [|m] eqn:Em; [lia|].
  rewrite Forall_forall in Hall.
  destruct (Hall m) as (_ & Hm & _); [apply in_seq; lia|]. lia.
Qed.

(** A run that succeeds has read exactly one timestamp per pose.  It
    reports one frame summary and one time-series entry per pose, in
    frame order: the frame ids count up from 0, the timestamps are those
    of the time file, and each time-series entry repeats the
    percentages and the object counts of the frame summary at its
    index. *)
Theorem summary_shape (sd : sequence_dir) (poses : list mat4) (times : list float)
    (fs : list frame_summary) (ss : sequence_summary) :
  process_sequence arctan2 degrees set_iter sd = Ok (fs, ss) ->
  poses_txt sd = Some poses ->
  times_txt sd = Some times ->
  length times = length poses /\
  total_frames ss = length poses /\
  length fs = length poses /\
  map fs_frame_id fs = seq 0 (length poses) /\
  map fs_timestamp fs = times /\
  map ts_timestamp (time_series ss) = times /\
  map ts_class_percentages (time_series ss) = map fs_class_percentages fs /\
  map ts_car_count (time_series ss) = map fs_num_cars fs /\
  map ts_person_count (time_series ss) = map fs_num_persons fs.
Proof.
  intros H Hp Ht.
  apply process_sequence_Ok in H
    as (Tr & P2 & poses' & times' & acc & _ & Hp' & Ht' & _ & Hinv & -> & Hs).
  rewrite Hp in Hp'. injection Hp' as <-. rewrite Ht in Ht'. injection Ht' as <-.
  destruct Hinv as (_ & Hkt & Hid & Hts & _ & Hcp & Hoc & _).
  unfold summarize in Hs. bind_ok Hs. injection Hs as <-.
  cbn [total_frames time_series].
  match goal with
  | Hx : time_series_of _ _ _ = Ok _ |- _ =>
      apply time_series_of_Ok in Hx as [Hall ->]
  end.
  assert (Hlen : length (frame_summaries acc) = length poses).
  { rewrite <- (length_map fs_frame_id), Hid. apply length_seq. }
  assert (Hcl : length (class_percentages_list acc) = length poses)
    by (now rewrite Hcp, length_map).
  assert (Hol : length (object_counts_list acc) = length poses)
    by (now rewrite Hoc, length_map).
  assert (Heq : length times = length poses).
  { apply Nat.le_antisymm; [|exact Hkt].
    destruct (length times) as [|m] eqn:Em; [lia|].
    rewrite Forall_forall in Hall.
    destruct (Hall m) as (_ & Hm & _); [apply in_seq; lia|]. lia. }
  rewrite firstn_all2 in Hts by lia.
  repeat split; try assumption; try reflexivity.
  - rewrite map_map. cbn [ts_timestamp]. apply map_nth_seq.
  - rewrite map_map. cbn [ts_class_percentages].
    rewrite Heq, <- Hcl, map_nth_seq. exact Hcp.
  - rewrite map_map. cbv zeta. cbn [ts_car_count].
    rewrite Heq, <- Hol.
    rewrite <- (map_map (fun i => nth i (object_counts_list acc) (ObjectCounts 0 0 0))
                        oc_car_count).
    rewrite map_nth_seq, Hoc, map_map. reflexivity.
  - rewrite map_map. cbv zeta. cbn [ts_person_count].
    rewrite Heq, <- Hol.
    rewrite <- (map_map (fun i => nth i (object_counts_list acc) (ObjectCounts 0 0 0))
                        oc_person_count).
    rewrite map_nth_seq, Hoc, map_map. reflexivity.
Qed.

(** The [total_distance] of a summary is the length of the path through
    the poses: the displacement of every step is added, also of a step
    whose elapsed time is not positive (where the speed is reported as
    0). *)
Theorem total_distance_is_path_length
    (sd : sequence_dir) (poses : list mat4)
    (fs : list frame_summary) (ss : sequence_summary) :
  process_sequence arctan2 degrees set_iter sd = Ok (fs, ss) ->
  poses_txt sd = Some poses ->
  ss_total_distance ss = path_length poses.
Proof.
  intros H Hp.
  apply process_sequence_Ok in H
    as (Tr & P2 & poses' & times & acc & _ & Hp' & _ & _ & Hinv & -> & Hs).
  rewrite Hp in Hp'. injection Hp' as <-.
  destruct Hinv as (_ & _ & _ & _ & _ & _ & _ & Htd & _).
  unfold summarize in Hs. bind_ok Hs. injection Hs as <-.
  cbn [ss_total_distance]. now rewrite Htd, firstn_all.
Qed.

(** Between two consecutive frame summaries, when the later timestamp
    exceeds the earlier by [dt > 0], the later speed is the displacement
    between the two poses divided by [dt] and the later acceleration is
    the difference of the two reported speeds divided by [dt]; otherwise
    both are 0. *)
Theorem speeds_are_finite_differences
    (sd : sequence_dir) (poses : list mat4)
    (fs : list frame_summary) (ss : sequence_summary) :
  process_sequence arctan2 degrees set_iter sd = Ok (fs, ss) ->
  poses_txt sd = Some poses ->
  forall i f g p q,
    nth_error fs i = Some f -> nth_error fs (S i) = Some g ->
    nth_error poses i = Some p -> nth_error poses (S i) = Some q ->
    let dt := fs_timestamp g - fs_timestamp f in
    fs_speed g = (if 0 <? dt then displacement_of q p / dt else 0) /\
    fs_acceleration g = (if 0 <? dt then (fs_speed g - fs_speed f) / dt else 0).
Proof.
  intros H Hp.
  apply process_sequence_Ok in H
    as (Tr & P2 & poses' & times & acc & _ & Hp' & _ & _ & Hinv & -> & _).
  rewrite Hp in Hp'. injection Hp' as <-.
  destruct Hinv as (_ & _ & _ & _ & _ & _ & _ & _ & _ & _ & Hpair).
  exact Hpair.
Qed.
End SequenceFacts.

(* ------------------------------------------------------------------ *)
(** ** The average class percentages of a sequence *)

(** C4.  In the summary of a sequence, [average_class_percentages] has
    one entry per class name that occurs in the percentages of any frame
    (in the order in which the set of names is iterated, which is also
    the order of [total_unique_classes]).  The value of a class is
    [np.mean] of its percentage over all frames, 0 where the frame lacks
    the class: NumPy's sum of these values divided by the number of
    frames.  For three frames the sum is taken from left to right, and
    frames with 10, no entry and 20 for "car" give exactly 10. *)
Theorem average_over_all_frames
    (arctan2 : float -> float -> float) (degrees : float -> float)
    (set_iter : list string -> list string)
    (sd : sequence_dir) (fs : list frame_summary) (ss : sequence_summary) :
  set_order set_iter ->
  process_sequence arctan2 degrees set_iter sd = Ok (fs, ss) ->
  let avg := ss_average_class_percentages ss in
  let share := fun (cls : string) (f : frame_summary) =>
    dict_get_default String.eqb (fs_class_percentages f) cls 0 in
  NoDup (dict_keys avg) /\
  total_unique_classes ss = dict_keys avg /\
  (forall cls, In cls (dict_keys avg) <->
               exists f, In f fs /\ In cls (dict_keys (fs_class_percentages f))) /\
  (forall cls, In cls (dict_keys avg) ->
     dict_get String.eqb avg cls =
     Some (np_sum (map (share cls) fs) / float_of_Z (Z.of_nat (length fs)))) /\
  length fs = total_frames ss /\
  (forall cls f1 f2 f3, fs = [f1; f2; f3] -> In cls (dict_keys avg) ->
     dict_get String.eqb avg cls =
     Some ((0 + (share cls f1 + share cls f2 + share cls f3)) / 3)) /\
  (forall f1 f2 f3, fs = [f1; f2; f3] ->
     dict_get String.eqb (fs_class_percentages f1) "car"%string = Some 10 ->
     dict_get String.eqb (fs_class_percentages f2) "car"%string = None ->
     dict_get String.eqb (fs_class_percentages f3) "car"%string = Some 20 ->
     dict_get String.eqb avg "car"%string = Some 10).
Proof.
  intros Hord H.
  apply process_sequence_Ok in H
    as (Tr & P2 & poses & times & acc & _ & _ & _ & _ & Hinv & -> & Hs).
  destruct Hinv as (_ & _ & Hid & _ & _ & Hcp & _).
  unfold summarize in Hs. bind_ok Hs. injection Hs as <-.
  cbv zeta. cbn [ss_average_class_percentages total_unique_classes total_frames].
  rewrite Hcp. set (fs := frame_summaries acc) in *.
  pose proof (@average_class_percentages_eq float _ set_iter Hord
                (map fs_class_percentages fs)) as Eavg.
  assert (Hkeys : dict_keys (average_class_percentages set_iter
                               (map fs_class_percentages fs))
                  = all_classes set_iter (map fs_class_percentages fs)).
  { rewrite Eavg. unfold dict_keys. rewrite map_map. cbn [fst]. apply map_id. }
  assert (Hget : forall cls,
            In cls (all_classes set_iter (map fs_class_percentages fs)) ->
            dict_get String.eqb
              (average_class_percentages set_iter (map fs_class_percentages fs)) cls =
            Some (np_sum (map (fun f => dict_get_default String.eqb
                                          (fs_class_percentages f) cls 0) fs)
                  / float_of_Z (Z.of_nat (length fs)))).
  { intros cls Hin. rewrite Eavg.
    rewrite (dict_get_map_key String.eqb_eq _ _ _ Hin).
    unfold np_mean. rewrite map_map, length_map. reflexivity. }
  assert (Hin : forall cls,
            In cls (all_classes set_iter (map fs_class_percentages fs)) <->
            exists f, In f fs /\ In cls (dict_keys (fs_class_percentages f))).
  { intros cls. rewrite (all_classes_In Hord). split.
    - intros (cp & Hcpin & Hc). apply in_map_iff in Hcpin as (f & <- & Hf). eauto.
    - intros (f & Hf & Hc). exists (fs_class_percentages f).
      split; [now apply in_map|exact Hc]. }
  rewrite Hkeys.
  split; [now apply all_classes_NoDup|]. split; [reflexivity|].
  split; [exact Hin|]. split; [exact Hget|].
  split; [rewrite <- (length_map fs_frame_id), Hid; apply length_seq|].
  split.
  - intros cls f1 f2 f3 Efs Hc. rewrite (Hget cls Hc), Efs. reflexivity.
  - intros f1 f2 f3 Efs H1 H2 H3.
    assert (Hc : In "car"%string (all_classes set_iter (map fs_class_percentages fs))).
    { apply Hin. exists f1. split; [rewrite Efs; now left|].
      apply (dict_get_In String.eqb_eq) in H1.
      unfold dict_keys. now apply (in_map fst) in H1. }
    rewrite (Hget _ Hc), Efs. cbn [map]. unfold dict_get_default.
    rewrite H1, H2, H3. vm_compute. reflexivity.
Qed.

(** The sample sequence with 10%, 0% and 20% of car points in its three
    frames: the average for "car" is exactly 10, for "road" 90. *)
Lemma average_over_all_frames_witness :
  set_order Sample.set_iter /\
  exists fs ss,
    process_sequence Sample.arctan2 Sample.degrees Sample.set_iter
                     Sample.car_sequence = Ok (fs, ss) /\
    map (fun f => dict_get String.eqb (fs_class_percentages f) "car"%string) fs
      = [Some 10; None; Some 20] /\
    dict_get String.eqb (ss_average_class_percentages ss) "car"%string = Some 10 /\
    ss_average_class_percentages ss = [("road"%string, 90); ("car"%string, 10)].
Proof.
  assert (Hord : set_order Sample.set_iter) by (intros s; apply Permutation_rev).
  split; [exact Hord|].
  destruct (process_sequence Sample.arctan2 Sample.degrees Sample.set_iter
                             Sample.car_sequence)
    as [[fs ss]|e] eqn:E; [|vm_compute in E; discriminate].
  exists fs, ss. split; [reflexivity|].
  pose proof (@average_over_all_frames _ _ _ _ _ _ Hord E)
    as (_ & _ & _ & _ & _ & _ & Hcar).
  vm_compute in E. injection E as <- <-.
  split; [reflexivity|]. split; [|reflexivity].
  eapply Hcar; reflexivity.
Defined.

Lemma summary_shape_witness :
  exists fs ss,
    process_sequence Sample.arctan2 Sample.degrees Sample.set_iter Sample.sequence = Ok (fs, ss) /\
    map fs_timestamp fs = [0; 2] /\ map ts_timestamp (time_series ss) = [0; 2].
Proof.
  destruct (process_sequence Sample.arctan2 Sample.degrees Sample.set_iter Sample.sequence)
    as [[fs ss]|e] eqn:E; [|vm_compute in E; discriminate].
  exists fs, ss. split; [reflexivity|].
  destruct (@summary_shape Sample.arctan2 Sample.degrees Sample.set_iter Sample.sequence
              [Sample.Tr; Sample.pose_3_4] [0; 2] fs ss E eq_refl eq_refl)
    as (_ & _ & _ & _ & H1 & H2 & _).
  now split.
Defined.

Lemma total_distance_is_path_length_witness :
  exists fs ss,
    process_sequence Sample.arctan2 Sample.degrees Sample.set_iter Sample.sequence = Ok (fs, ss) /\
    ss_total_distance ss = 5.
Proof.
  destruct (process_sequence Sample.arctan2 Sample.degrees Sample.set_iter Sample.sequence)
    as [[fs ss]|e] eqn:E; [|vm_compute in E; discriminate].
  exists fs, ss. split; [reflexivity|].
  rewrite (@total_distance_is_path_length Sample.arctan2 Sample.degrees Sample.set_iter
             Sample.sequence [Sample.Tr; Sample.pose_3_4] fs ss E eq_refl).
  vm_compute. reflexivity.
Defined.

Lemma speeds_are_finite_differences_witness :
  exists fs ss f g,
    process_sequence Sample.arctan2 Sample.degrees Sample.set_iter Sample.sequence = Ok (fs, ss) /\
    nth_error fs 0 = Some f /\ nth_error fs 1 = Some g /\
    fs_speed g = 2.5 /\ fs_acceleration g = 1.25.
Proof.
  destruct (process_sequence Sample.arctan2 Sample.degrees Sample.set_iter Sample.sequence)
    as [[fs ss]|e] eqn:E; [|vm_compute in E; discriminate].
  destruct (nth_error fs 0) as [f|] eqn:Ef;
    [|vm_compute in E; injection E as <- _; discriminate].
  destruct (nth_error fs 1) as [g|] eqn:Eg;
    [|vm_compute in E; injection E as <- _; discriminate].
  exists fs, ss, f, g. split; [reflexivity|]. split; [exact Ef|].
  split; [exact Eg|].
  destruct (@speeds_are_finite_differences Sample.arctan2 Sample.degrees Sample.set_iter
              Sample.sequence [Sample.Tr; Sample.pose_3_4] fs ss E eq_refl
              0%nat f g Sample.Tr Sample.pose_3_4 Ef Eg eq_refl eq_refl)
    as [Hs Ha].
  cbv zeta in Hs, Ha. rewrite Ha, Hs.
  vm_compute in E. injection E as <- _.
  cbn in Ef, Eg. injection Ef as <-. injection Eg as <-.
  split; vm_compute; reflexivity.
Defined.

(* ------------------------------------------------------------------ *)
(** ** The largest speed *)

Lemma ltb_true_not_nan (x y : float) :
  (x <? y) = true -> PrimFloat.is_nan x = false /\ PrimFloat.is_nan y = false.
Proof.
  intros H. split.
  - destruct (PrimFloat.is_nan x) eqn:E; [|reflexivity].
    rewrite (@ltb_nan_l x y E) in H. discriminate.
  - destruct (PrimFloat.is_nan y) eqn:E; [|reflexivity].
    rewrite (@ltb_nan_r x y E) in H. discriminate.
Qed.

(** Python's [max], started from a value that is not NaN, returns one of
    the values, which is not NaN, and none of the values is strictly
    above it, NaN or not. *)
Lemma fold_py_max (xs : list float) : forall (m : float) (seen : list float),
  PrimFloat.is_nan m = false ->
  In m seen ->
  (forall y, In y seen -> (m <? y) = false) ->
  let r := fold_left (fun m y => if m <? y then y else m) xs m in
  In r (seen ++ xs) /\ (forall y, In y (seen ++ xs) -> (r <? y) = false) /\
  PrimFloat.is_nan r = false.
Proof.
  induction xs as [|x xs IH]; intros m seen Hm Hin Hall; cbn [fold_left].
  - cbv zeta. rewrite app_nil_r. now repeat split.
  - cbv zeta.
    replace (seen ++ x :: xs) with ((seen ++ [x]) ++ xs)
      by (now rewrite <- app_assoc).
    destruct (m <? x) eqn:E.
    + destruct (@ltb_true_not_nan _ _ E) as [_ Hx].
      apply IH; [exact Hx|apply in_or_app; right; now left|].
      intros y Hy. apply in_app_or in Hy as [Hy|[<-|[]]].
      * destruct (PrimFloat.is_nan y) eqn:Ey; [now apply ltb_nan_r|].
        apply ltb_float_le; [assumption..|].
        unfold float_le. eapply key_le_trans.
        -- apply (proj1 (@ltb_float_le m y Hm Ey)). now apply Hall.
        -- now apply ltb_true_float_le.
      * apply ltb_float_le; [assumption..|]. apply key_le_refl.
    + apply IH; [exact Hm|apply in_or_app; now left|].
      intros y Hy. apply in_app_or in Hy as [Hy|[<-|[]]]; [now apply Hall|exact E].
Qed.

(** [max_speed] is the speed of one of the frames and no frame's speed
    is strictly above it; it is never negative and never NaN, even when
    some frame's speed is NaN: a NaN speed is never selected, and
    [max_speed] is at least every speed that is not NaN.  (With no frame
    at all it is 0.) *)
Theorem max_speed_is_largest
    (arctan2 : float -> float -> float) (degrees : float -> float)
    (set_iter : list string -> list string)
    (sd : sequence_dir) (fs : list frame_summary) (ss : sequence_summary) :
  process_sequence arctan2 degrees set_iter sd = Ok (fs, ss) ->
  (fs = [] -> max_speed ss = 0) /\
  (fs <> [] -> In (max_speed ss) (map fs_speed fs)) /\
  Forall (fun f => (max_speed ss <? fs_speed f) = false) fs /\
  (max_speed ss <? 0) = false /\
  PrimFloat.is_nan (max_speed ss) = false /\
  Forall (fun f => PrimFloat.is_nan (fs_speed f) = false ->
                   (fs_speed f <=? max_speed ss) = true) fs.
Proof.
  intros H. unfold process_sequence in H. bind_ok H. injection H as <- <-.
  match goal with
  | Hl : frames_loop _ _ _ _ _ _ _ _ _ = Ok ?a |- _ =>
      rename a into acc;
      apply frames_loop_speeds_ok in Hl as [[Hmap Hinv] _]; [|split; reflexivity]
  end.
  match goal with
  | Hs : summarize _ _ _ _ = Ok _ |- _ =>
      unfold summarize in Hs; bind_ok Hs; injection Hs as <-
  end.
  cbn [max_speed].
  destruct (prev acc) as [pv|].
  - destruct Hinv as (rest & Hs & _). rewrite Hs in *. unfold py_max.
    destruct (@fold_py_max rest 0 [0]) as (Hin & Hmax & Hnan);
      [reflexivity|now left|intros y [<-|[]]; reflexivity|].
    cbv zeta in Hin, Hmax, Hnan. cbn [app] in Hin, Hmax.
    split; [intros Hnil; rewrite Hnil in Hmap; discriminate|].
    split; [intros _; now rewrite <- Hmap|].
    split; [|split; [|split]].
    + apply Forall_forall. intros f Hf. apply Hmax. rewrite Hmap.
      now apply in_map.
    + apply Hmax. now left.
    + exact Hnan.
    + apply Forall_forall. intros f Hf Hfn.
      apply leb_float_le; [exact Hfn|exact Hnan|].
      apply (proj1 (@ltb_float_le _ _ Hnan Hfn)).
      apply Hmax. rewrite Hmap. now apply in_map.
  - rewrite Hinv in *. split; [reflexivity|].
    destruct (frame_summaries acc); [|discriminate].
    split; [congruence|]. split; [constructor|].
    split; [reflexivity|]. split; [reflexivity|constructor].
Qed.

(** The sample sequence moves 5 m in 2 s: the largest speed is 2.5, that
    of the second frame. *)
Lemma max_speed_is_largest_witness :
  exists fs ss,
    process_sequence Sample.arctan2 Sample.degrees Sample.set_iter Sample.sequence
      = Ok (fs, ss) /\
    In (max_speed ss) (map fs_speed fs) /\
    PrimFloat.is_nan (max_speed ss) = false /\ max_speed ss = 2.5.
Proof.
  destruct (process_sequence Sample.arctan2 Sample.degrees Sample.set_iter
                             Sample.sequence)
    as [[fs ss]|e] eqn:E; [|vm_compute in E; discriminate].
  exists fs, ss. split; [reflexivity|].
  pose proof (@max_speed_is_largest _ _ _ _ _ _ E) as (_ & Hin & _ & _ & Hnan & _).
  vm_compute in E. injection E as <- <-.
  split; [apply Hin; discriminate|]. split; [exact Hnan|reflexivity].
Defined.

(* ------------------------------------------------------------------ *)
(** ** A sequence of a single frame *)

(** A sequence with a single pose that is processed successfully has a
    single frame summary with speed and acceleration 0, and its summary
    reports no distance, no duration, and 0 for the average, minimum,
    maximum and mean speed: no quotient by the zero duration is taken. *)
Theorem single_frame_sequence
    (arctan2 : float -> float -> float) (degrees : float -> float)
    (set_iter : list string -> list string)
    (sd : sequence_dir) (pose : mat4)
    (fs : list frame_summary) (ss : sequence_summary) :
  process_sequence arctan2 degrees set_iter sd = Ok (fs, ss) ->
  poses_txt sd = Some [pose] ->
  (exists f, fs = [f] /\ fs_speed f = 0 /\ fs_acceleration f = 0) /\
  total_frames ss = 1%nat /\
  total_duration ss = 0 /\ ss_total_distance ss = 0 /\ average_speed ss = 0 /\
  min_speed ss = 0 /\ max_speed ss = 0 /\ average_speed_from_frames ss = 0.
Proof.
  intros H Hp.
  pose proof (@process_sequence_Ok _ _ _ _ _ _ H)
    as (Tr & P2 & poses & times & acc & _ & Hp' & Ht & Hl & _ & -> & Hs).
  rewrite Hp in Hp'. injection Hp' as <-.
  pose proof (@process_sequence_lengths _ _ _ _ _ _ _ _ H Hp Ht) as Hlen.
  destruct times as [|t [|t' times]]; try discriminate.
  cbn [length seq frames_loop] in Hl. bind_ok Hl. injection Hl as <-.
  match goal with
  | Hf : process_frame _ _ _ _ _ _ _ _ _ = Ok _ |- _ =>
      unfold process_frame in Hf; bind_ok Hf; injection Hf as <-
  end.
  unfold summarize in Hs. bind_ok Hs. injection Hs as <-.
  cbn. split; [eexists; split; [reflexivity|split; reflexivity]|].
  repeat split; vm_compute; reflexivity.
Qed.

Lemma single_frame_sequence_witness :
  exists fs ss,
    process_sequence Sample.arctan2 Sample.degrees Sample.set_iter
      (SequenceDir (Some (Sample.Tr, Sample.P2)) (Some [Sample.pose_3_4]) (Some [7])
                   (fun _ => Some (Sample.points, Sample.labels)))
      = Ok (fs, ss) /\
    total_duration ss = 0 /\ average_speed ss = 0.
Proof.
  destruct (process_sequence Sample.arctan2 Sample.degrees Sample.set_iter
              (SequenceDir (Some (Sample.Tr, Sample.P2)) (Some [Sample.pose_3_4])
                           (Some [7]) (fun _ => Some (Sample.points, Sample.labels))))
    as [[fs ss]|e] eqn:E; [|vm_compute in E; discriminate].
  exists fs, ss. split; [reflexivity|].
  destruct (@single_frame_sequence _ _ _ _ Sample.pose_3_4 _ _ E eq_refl)
    as (_ & _ & Hd & _ & Ha & _).
  now split.
Defined.

(* ------------------------------------------------------------------ *)
(** ** The outcome of a batch run *)

Lemma dict_set_same {K V} (eqb : K -> K -> bool)
    (eqb_eq : forall a b, eqb a b = true <-> a = b)
    (d : dict K V) (k : K) (v : V) :
  dict_get eqb d k = Some v -> dict_set eqb d k v = d.
Proof.
  induction d as [|[k' v'] d IH]; cbn [dict_get dict_set]; [discriminate|].
  destruct (eqb k' k) eqn:E.
  - now intros [= ->].
  - intros H. now rewrite IH.
Qed.

Section BatchOutcome.
Variables (arctan2 : float -> float -> float) (degrees : float -> float).
Variable set_iter : list string -> list string.
Variable dataset : nat -> option sequence_dir.

Lemma process_loop_outcome (ids : list nat) : forall w,
  NoDup ids ->
  (forall i, In i ids -> ~ In i (dict_keys (stats w))) ->
  let w' := fold_left (process_one arctan2 degrees set_iter dataset) ids w in
  dict_keys (stats w') =
    dict_keys (stats w) ++
    filter (fun i => match dataset i with
                     | Some sd => is_ok (process_sequence arctan2 degrees set_iter sd)
                     | None => false
                     end) ids /\
  console w' =
    console w ++
    flat_map (fun i => match dataset i with
                       | None => [LogSkipping i]
                       | Some sd =>
                           match process_sequence arctan2 degrees set_iter sd with
                           | Ok _ => [LogProcessing i; LogGenerated i]
                           | Raise e => [LogProcessing i; LogError i e]
                           end
                       end) ids.
Proof.
  induction ids as [|i ids IH]; intros w Hnd Hfresh; cbn [fold_left filter flat_map].
  - cbv zeta. now rewrite !app_nil_r.
  - inversion Hnd as [|? ? Hni Hnd']; subst. cbv zeta.
    assert (Hstep :
      dict_keys (stats (process_one arctan2 degrees set_iter dataset w i)) =
        dict_keys (stats w) ++
        (if match dataset i with
            | Some sd => is_ok (process_sequence arctan2 degrees set_iter sd)
            | None => false
            end then [i] else []) /\
      console (process_one arctan2 degrees set_iter dataset w i) =
        console w ++
        match dataset i with
        | None => [LogSkipping i]
        | Some sd =>
            match process_sequence arctan2 degrees set_iter sd with
            | Ok _ => [LogProcessing i; LogGenerated i]
            | Raise e => [LogProcessing i; LogError i e]
            end
        end).
    { unfold process_one. destruct (dataset i) as [sd|];
        [|cbn; now rewrite app_nil_r].
      destruct (process_sequence arctan2 degrees set_iter sd) as [out|e]; cbn [stats console is_ok].
      - rewrite (dict_set_fresh Nat.eqb_eq)
          by (apply Hfresh; now left).
        unfold dict_keys. rewrite map_app, <- app_assoc. now split.
      - now rewrite app_nil_r, <- app_assoc. }
    destruct Hstep as [Hk Hc].
    destruct (IH (process_one arctan2 degrees set_iter dataset w i) Hnd') as [Hk' Hc'].
    { intros j Hj. rewrite Hk. intros Hin. apply in_app_or in Hin as [Hin|Hin].
      - apply (Hfresh j); [now right|exact Hin].
      - destruct (dataset i) as [sd|]; [|destruct Hin].
        destruct (is_ok (process_sequence arctan2 degrees set_iter sd)); [|destruct Hin].
        destruct Hin as [<-|[]]. contradiction. }
    cbv zeta in Hk', Hc'. rewrite Hk', Hc', Hk, Hc. split.
    + rewrite <- (app_assoc (dict_keys (stats w))). f_equal.
      destruct (dataset i) as [sd|]; [|reflexivity].
      now destruct (is_ok (process_sequence arctan2 degrees set_iter sd)).
    + rewrite <- (app_assoc (console w)). reflexivity.
Qed.

(** What a batch run leaves behind, started with an empty [stats]
    directory: output for exactly the sequences 00 to 10 whose directory
    exists and whose processing succeeds, in that order; on the console,
    for each of the eleven ids in order, either the "skipping" line of a
    missing directory or a "processing" line followed by the "generated"
    line or by the error. *)
Theorem batch_outcome :
  let w' := process_all_sequences arctan2 degrees set_iter dataset (World [] []) in
  dict_keys (stats w') =
    filter (fun i => match dataset i with
                     | Some sd => is_ok (process_sequence arctan2 degrees set_iter sd)
                     | None => false
                     end) (seq 0 11) /\
  console w' =
    flat_map (fun i => match dataset i with
                       | None => [LogSkipping i]
                       | Some sd =>
                           match process_sequence arctan2 degrees set_iter sd with
                           | Ok _ => [LogProcessing i; LogGenerated i]
                           | Raise e => [LogProcessing i; LogError i e]
                           end
                       end) (seq 0 11).
Proof.
  cbv zeta. unfold process_all_sequences.
  destruct (@process_loop_outcome (seq 0 11) (World [] []))
    as [Hk Hc]; [apply seq_NoDup|intros i _ []|].
  cbv zeta in Hk, Hc. cbn [stats console dict_keys map app] in Hk, Hc.
  exact (conj Hk Hc).
Qed.

Lemma same_up_to_class_order_refl (a : sequence_summary) :
  same_up_to_class_order a a.
Proof. unfold same_up_to_class_order. now repeat split. Qed.

(** The iteration order of sets only decides the order of the class
    names in the summary: whether the sequence is processed, the error
    it raises and everything else it writes do not depend on it. *)
Lemma process_sequence_set_order (s1 s2 : list string -> list string)
    (sd : sequence_dir) :
  set_order s1 -> set_order s2 ->
  match process_sequence arctan2 degrees s1 sd,
        process_sequence arctan2 degrees s2 sd with
  | Ok (fs1, ss1), Ok (fs2, ss2) => fs1 = fs2 /\ same_up_to_class_order ss1 ss2
  | Raise e1, Raise e2 => e1 = e2
  | _, _ => False
  end.
Proof.
  intros H1 H2. unfold process_sequence.
  destruct (load_calib sd) as [[Tr P2]|e]; cbn [bind]; [|reflexivity].
  destruct (load_poses sd) as [poses|e]; cbn [bind]; [|reflexivity].
  destruct (load_times sd) as [times|e]; cbn [bind]; [|reflexivity].
  destruct (frames_loop _ _ _ _ _ _ _ _ _) as [acc|e]; cbn [bind]; [|reflexivity].
  unfold summarize.
  destruct (time_series_of times acc (seq 0 (length times))) as [ts|e];
    cbn [bind]; [|reflexivity].
  split; [reflexivity|]. unfold same_up_to_class_order.
  cbn [total_frames total_duration ss_total_distance average_speed min_speed max_speed
       average_speed_from_frames ss_average_class_percentages total_unique_classes
       time_series].
  assert (Hp : Permutation (all_classes s1 (class_percentages_list acc))
                           (all_classes s2 (class_percentages_list acc))).
  { unfold all_classes. etransitivity; [symmetry; apply H1|apply H2]. }
  repeat split; try reflexivity; [|exact Hp].
  rewrite !average_class_percentages_eq by assumption.
  now apply Permutation_map.
Qed.

Lemma dict_keys_set_present {K V} (eqb : K -> K -> bool)
    (eqb_eq : forall a b, eqb a b = true <-> a = b)
    (d : dict K V) (k : K) (v : V) :
  In k (dict_keys d) -> dict_keys (dict_set eqb d k v) = dict_keys d.
Proof.
  induction d as [|[k' v'] d IH]; cbn [dict_keys map dict_set fst]; [intros []|].
  destruct (eqb k' k) eqn:E; [reflexivity|].
  intros [->|Hin].
  - assert (T : eqb k k = true) by now apply eqb_eq. congruence.
  - cbn [map fst]. f_equal. now apply IH.
Qed.

Lemma process_loop_keys (s : list string -> list string) (ids : list nat) : forall w,
  (forall i sd, In i ids -> dataset i = Some sd ->
     is_ok (process_sequence arctan2 degrees s sd) = true ->
     In i (dict_keys (stats w))) ->
  dict_keys (stats (fold_left (process_one arctan2 degrees s dataset) ids w))
    = dict_keys (stats w).
Proof.
  induction ids as [|i ids IH]; intros w Hw; cbn [fold_left]; [reflexivity|].
  assert (Hstep : dict_keys (stats (process_one arctan2 degrees s dataset w i))
                  = dict_keys (stats w)).
  { unfold process_one. destruct (dataset i) as [sd|] eqn:Ed; [|reflexivity].
    destruct (process_sequence arctan2 degrees s sd) as [out|e] eqn:Ep; [|reflexivity].
    cbn [stats]. apply (dict_keys_set_present Nat.eqb Nat.eqb_eq).
    apply (Hw i sd); [now left|exact Ed|now rewrite Ep]. }
  rewrite IH; [exact Hstep|].
  intros j sd Hj Hd Hp. rewrite Hstep. eapply Hw; [now right|eassumption..].
Qed.

(** A second batch run over the same dataset, in a process that may
    iterate its sets in another order, adds no file to the [stats]
    directory, and overwrites the files of each sequence with the same
    frame summaries and with a sequence summary that differs at most in
    the order of the class names. *)
Theorem batch_rerun_same_up_to_class_order
    (s1 s2 : list string -> list string) (w : world) :
  set_order s1 -> set_order s2 ->
  let w1 := process_all_sequences arctan2 degrees s1 dataset w in
  let w2 := process_all_sequences arctan2 degrees s2 dataset w1 in
  dict_keys (stats w2) = dict_keys (stats w1) /\
  forall i,
    match dict_get Nat.eqb (stats w1) i, dict_get Nat.eqb (stats w2) i with
    | Some (fs1, ss1), Some (fs2, ss2) =>
        fs1 = fs2 /\ same_up_to_class_order ss1 ss2
    | None, None => True
    | _, _ => False
    end.
Proof.
  intros H1 H2. cbv zeta. unfold process_all_sequences. split.
  - apply process_loop_keys. intros i sd Hi Hd Hok.
    assert (E : existsb (Nat.eqb i) (seq 0 11) = true).
    { apply existsb_exists. exists i. split; [exact Hi|apply Nat.eqb_refl]. }
    pose proof (@process_sequence_set_order s1 s2 sd H1 H2) as Hrel.
    destruct (process_sequence arctan2 degrees s1 sd) as [out1|e1] eqn:E1.
    + assert (Hget : dict_get Nat.eqb
                (stats (fold_left (process_one arctan2 degrees s1 dataset)
                                  (seq 0 11) w)) i = Some out1).
      { rewrite process_loop_stats, Hd, E1, E. reflexivity. }
      apply (dict_get_In Nat.eqb_eq) in Hget.
      unfold dict_keys. now apply (in_map fst) in Hget.
    + destruct (process_sequence arctan2 degrees s2 sd) as [[fs2 ss2]|e2];
        [destruct Hrel|discriminate].
  - intros i. rewrite !process_loop_stats.
    destruct (dataset i) as [sd|].
    + pose proof (@process_sequence_set_order s1 s2 sd H1 H2) as Hrel.
      destruct (process_sequence arctan2 degrees s1 sd) as [[fs1 ss1]|e1],
               (process_sequence arctan2 degrees s2 sd) as [[fs2 ss2]|e2];
        try contradiction.
      * destruct (existsb (Nat.eqb i) (seq 0 11)); [exact Hrel|].
        destruct (dict_get Nat.eqb (stats w) i) as [[fs ss]|]; [|exact I].
        split; [reflexivity|apply same_up_to_class_order_refl].
      * destruct (dict_get Nat.eqb (stats w) i) as [[fs ss]|]; [|exact I].
        split; [reflexivity|apply same_up_to_class_order_refl].
    + destruct (dict_get Nat.eqb (stats w) i) as [[fs ss]|]; [|exact I].
      split; [reflexivity|apply same_up_to_class_order_refl].
Qed.
End BatchOutcome.

(** The sample dataset, processed with the reversed and then with the
    plain insertion order: the same two sequences have output, and the
    summary of sequence 00 lists the same classes in another order. *)
Lemma batch_rerun_same_up_to_class_order_witness :
  set_order Sample.set_iter /\ set_order (fun s => s) /\
  let w1 := process_all_sequences Sample.arctan2 Sample.degrees Sample.set_iter
                                  Sample.dataset (World [] []) in
  let w2 := process_all_sequences Sample.arctan2 Sample.degrees (fun s => s)
                                  Sample.dataset w1 in
  dict_keys (stats w2) = dict_keys (stats w1) /\
  dict_keys (stats w1) = [0; 2]%nat /\
  option_map (fun out => total_unique_classes (snd out))
             (dict_get Nat.eqb (stats w1) 0%nat)
    = Some ["unknown_99"; "car"]%string /\
  option_map (fun out => total_unique_classes (snd out))
             (dict_get Nat.eqb (stats w2) 0%nat)
    = Some ["car"; "unknown_99"]%string.
Proof.
  assert (H1 : set_order Sample.set_iter) by (intros s; apply Permutation_rev).
  assert (H2 : set_order (fun s : list string => s)) by (intros s; reflexivity).
  split; [exact H1|]. split; [exact H2|]. cbv zeta. split.
  - exact (proj1 (@batch_rerun_same_up_to_class_order
                    Sample.arctan2 Sample.degrees Sample.dataset
                    Sample.set_iter (fun s => s) (World [] []) H1 H2)).
  - vm_compute. repeat split.
Defined.

(* ------------------------------------------------------------------ *)
(** ** The two statistics scripts side by side *)

Lemma test_class_percentages_named_eq {F : Type} `{Arith F} (lbl_f : list Z) :
  TestPercentages.class_percentages_named lbl_f =
  map (fun u => (percentage_key u,
                 n_div (n_mul (of_int (Z.of_nat (count_occ Z.eq_dec lbl_f u)))
                              (of_int 100))
                       (of_int (total_points lbl_f))))
      (np_unique lbl_f).
Proof.
  unfold TestPercentages.class_percentages_named, TestPercentages.class_percentages,
    np_unique_counts.
  rewrite combine_map_r, map_map. cbn [fst snd].
  rewrite (dict_of_items_NoDup Z.eqb_eq)
    by (rewrite map_map; cbn [fst]; rewrite map_id; apply np_unique_NoDup).
  rewrite map_map. cbn [fst snd].
  rewrite (dict_of_items_NoDup String.eqb_eq); [reflexivity|].
  rewrite map_map. cbn [fst].
  apply Injective_map_NoDup; [|apply np_unique_NoDup].
  intros a b. apply percentage_key_inj.
Qed.

(** The test script masks the labels before the projection and the
    train script after it; both compute the percentages of the same
    semantic ids.  The two percentage maps have the same keys in the same
    order, and their values, [count * 100 / total] in the one and
    [count / total * 100] in the other, are equal in exact arithmetic;
    in binary64 they are not always equal. *)
Theorem train_and_test_percentages :
  (forall (points : list point3) (labels_raw : list Z) Tr P2 pf pi lf,
     project_to_front_view points labels_raw Tr P2 = Ok (pf, pi, lf) ->
     TestStatistics.project_to_front_view
       points (TestPercentages.load_labels labels_raw) Tr P2
     = Ok (pf, pi, map semantic_of lf)) /\
  (forall lbl_f : list Z,
     dict_keys (TestPercentages.class_percentages_named (F:=float) lbl_f)
     = dict_keys (class_percentages_named (F:=float) lbl_f)) /\
  (forall lbl_f : list Z,
     Forall2 (fun a b => fst a = fst b /\ Qeq (snd a) (snd b))
             (TestPercentages.class_percentages_named (F:=Q) lbl_f)
             (class_percentages_named (F:=Q) lbl_f)) /\
  (exists lbl_f : list Z,
     TestPercentages.class_percentages_named (F:=float) lbl_f
     <> class_percentages_named (F:=float) lbl_f).
Proof.
  split; [|split; [|split]].
  - intros points labels_raw Tr P2 pf pi lf H.
    apply project_to_front_view_spec in H as (Hlen & -> & -> & ->).
    rewrite test_statistics_projection. unfold TestPercentages.load_labels.
    rewrite project_to_front_view_value by now rewrite length_map.
    cbv zeta.
    assert (Hc : forall (ps : list point3) (ls : list Z),
              combine ps (map semantic_of ls)
              = map (fun pl => (fst pl, semantic_of (snd pl))) (combine ps ls)).
    { induction ps as [|p ps IH]; intros [|l ls]; cbn; [reflexivity..|].
      now rewrite IH. }
    rewrite Hc.
    assert (Hf : forall l : list (point3 * Z),
              filter (fun pl => visible Tr P2 (fst pl))
                     (map (fun pl => (fst pl, semantic_of (snd pl))) l)
              = map (fun pl => (fst pl, semantic_of (snd pl)))
                    (filter (fun pl => visible Tr P2 (fst pl)) l)).
    { induction l as [|[p l0] l IH]; cbn [map filter fst snd]; [reflexivity|].
      destruct (visible Tr P2 p); cbn [map fst snd]; now rewrite IH. }
    rewrite Hf, !map_map. reflexivity.
  - intros lbl_f. rewrite test_class_percentages_named_eq,
      class_percentages_named_eq. unfold dict_keys. now rewrite !map_map.
  - intros lbl_f. rewrite test_class_percentages_named_eq,
      class_percentages_named_eq.
    induction (np_unique lbl_f) as [|u us IH]; cbn [map]; constructor; [|exact IH].
    cbn [fst snd]. split; [reflexivity|].
    unfold percent_of. cbn [of_int n_mul n_div Q_Arith].
    unfold Qdiv. ring.
  - exists [10; 40; 50]%Z. vm_compute. discriminate.
Qed.

Lemma train_and_test_percentages_witness :
  project_to_front_view Sample.points Sample.labels Sample.Tr Sample.P2
    = Ok ([P3 0 0 1; P3 0.5 0.125 2], [(600, 180); (775, 223.75)], [327690; 99]%Z)
  /\
  TestStatistics.project_to_front_view
    Sample.points (TestPercentages.load_labels Sample.labels) Sample.Tr Sample.P2
    = Ok ([P3 0 0 1; P3 0.5 0.125 2], [(600, 180); (775, 223.75)], [10; 99]%Z).
Proof.
  assert (H : project_to_front_view Sample.points Sample.labels Sample.Tr Sample.P2
              = Ok ([P3 0 0 1; P3 0.5 0.125 2], [(600, 180); (775, 223.75)],
                    [327690; 99]%Z)) by (vm_compute; reflexivity).
  split; [exact H|].
  exact (proj1 train_and_test_percentages _ _ _ _ _ _ _ H).
Defined.

(* ------------------------------------------------------------------ *)
(** ** Truncation of image coordinates *)

(** The mantissa of a finite binary64 value has at most 53 bits. *)
Lemma finite_mantissa_bound (x : float) (s : bool) (m : positive) (e : Z) :
  Prim2SF x = S754_finite s m e -> (Z.pos m < 2 ^ 53)%Z.
Proof.
  intros E. pose proof (Prim2SF_valid x) as V. rewrite E in V.
  unfold SpecFloat.valid_binary, bounded, canonical_mantissa, fexp in V.
  apply andb_prop in V as [V _]. apply Z.eqb_eq in V.
  change (IntDef.Z.max) with Z.max in V. change prec with 53%Z in V.
  pose proof (digits2_pos_bound m) as D.
  assert (Hd : (Z.pos (digits2_pos m) <= 53)%Z) by lia.
  eapply Z.lt_le_trans; [exact D|]. apply Z.pow_le_mono_r; lia.
Qed.

(** A coordinate in [0, bound) truncates to an integer in [0, B), for a
    bound that is the integer [B] with at least [52 + e0] bits, [e0]
    being its binary64 exponent. *)
Lemma py_int_in_range (u bound : float) (B : Z) (m0 : positive) (e0 : Z) :
  Prim2SF bound = S754_finite false m0 e0 ->
  (-52 <= e0 < 0)%Z -> Z.pos m0 = (B * 2 ^ (- e0))%Z -> (2 ^ (52 + e0) <= B)%Z ->
  (0 <=? u) = true -> (u <? bound) = true ->
  exists z, PcdToProjection.py_int u = Some z /\ (0 <= z < B)%Z.
Proof.
  intros Hb He0 Hm0 HB Hlo Hhi.
  assert (HBpos : (0 < B)%Z).
  { eapply Z.lt_le_trans; [|exact HB]. apply Z.pow_pos_nonneg; lia. }
  rewrite leb_spec in Hlo. rewrite ltb_spec, Hb in Hhi.
  change (Prim2SF 0) with (S754_zero false) in Hlo.
  unfold PcdToProjection.py_int.
  destruct (Prim2SF u) as [s|s| |s m e] eqn:Eu; try discriminate.
  - exists 0%Z. split; [reflexivity|lia].
  - destruct s; discriminate.
  - pose proof (finite_mantissa_bound _ Eu) as Hm.
    destruct s; [discriminate|].
    unfold SFltb, SFcompare in Hhi.
    change (PosDef.Pos.compare_cont Eq m m0) with (Pos.compare m m0) in Hhi.
    assert (Hcase : (e < e0 \/ (e = e0 /\ Z.pos m < Z.pos m0))%Z).
    { destruct (Z.compare_spec e e0) as [->| |]; [|now left|discriminate].
      right. split; [reflexivity|].
      destruct (Pos.compare_spec m m0); try discriminate. lia. }
    exists (Z.shiftl (Z.pos m) e). split; [reflexivity|].
    assert (Hneg : (e < 0)%Z) by lia.
    rewrite Z.shiftl_div_pow2 by lia.
    assert (Hp : (0 < 2 ^ (- e))%Z) by (apply Z.pow_pos_nonneg; lia).
    split; [apply Z.div_pos; lia|].
    apply Z.div_lt_upper_bound; [exact Hp|].
    destruct Hcase as [Hlt|[-> Hlt]].
    + assert (H1 : (2 ^ (1 - e0) <= 2 ^ (- e))%Z) by (apply Z.pow_le_mono_r; lia).
      assert (H2 : (2 ^ (1 - e0) * 2 ^ (52 + e0) = 2 ^ 53)%Z)
        by (rewrite <- Z.pow_add_r by lia; f_equal; lia).
      assert (H3 : (0 < 2 ^ (52 + e0))%Z) by (apply Z.pow_pos_nonneg; lia).
      nia.
    + rewrite Hm0 in Hlt. lia.
Qed.

Lemma in_image_cell (pt : float * float) :
  in_image pt = true ->
  exists x y,
    PcdToProjection.py_int (fst pt) = Some x /\
    PcdToProjection.py_int (snd pt) = Some y /\
    (0 <= x < 1242)%Z /\ (0 <= y < 375)%Z.
Proof.
  destruct pt as [u v]. unfold in_image. intros H.
  repeat (apply andb_prop in H as [H ?]).
  destruct (@py_int_in_range u 1242 1242 5462373766791168 (-42))
    as (x & Hx & Hxr); try assumption; try reflexivity; try lia.
  destruct (@py_int_in_range v 375 375 6597069766656000 (-44))
    as (y & Hy & Hyr); try assumption; try reflexivity; try lia.
  exists x, y. now repeat split.
Qed.

(* ------------------------------------------------------------------ *)
(** ** The rendered image *)

Lemma index_eqb_eq (a b : Z * Z) : PcdToProjection.index_eqb a b = true <-> a = b.
Proof.
  destruct a as [a1 a2], b as [b1 b2]. unfold PcdToProjection.index_eqb.
  cbn [fst snd]. rewrite andb_true_iff, !Z.eqb_eq. split.
  - now intros [-> ->].
  - now intros [= -> ->].
Qed.

Lemma find_app {A} (f : A -> bool) (l1 l2 : list A) :
  find f (l1 ++ l2) = match find f l1 with Some a => Some a | None => find f l2 end.
Proof.
  induction l1 as [|a l1 IH]; cbn [app find]; [reflexivity|].
  now destruct (f a).
Qed.

(** After a run of assignments, a key holds the value of the last
    assignment to it. *)
Lemma dict_get_fold_set {K V} (eqb : K -> K -> bool)
    (eqb_eq : forall a b, eqb a b = true <-> a = b)
    (items : list (K * V)) : forall (d : dict K V) (k : K),
  dict_get eqb (fold_left (fun d kv => dict_set eqb d (fst kv) (snd kv)) items d) k =
  match find (fun kv => eqb (fst kv) k) (rev items) with
  | Some kv => Some (snd kv)
  | None => dict_get eqb d k
  end.
Proof.
  induction items as [|[k0 v0] items IH]; intros d k; cbn [fold_left rev];
    [reflexivity|].
  rewrite IH, find_app. destruct (find _ (rev items)); [reflexivity|].
  cbn [find fst snd]. rewrite (dict_get_set eqb_eq).
  now destruct (eqb k0 k).
Qed.

Lemma dict_keys_fold_set {K V} (eqb : K -> K -> bool)
    (eqb_eq : forall a b, eqb a b = true <-> a = b)
    (items : list (K * V)) : forall (d : dict K V) (k : K),
  In k (dict_keys (fold_left (fun d kv => dict_set eqb d (fst kv) (snd kv)) items d)) ->
  In k (dict_keys d) \/ In k (map fst items).
Proof.
  induction items as [|[k0 v0] items IH]; intros d k H; cbn [fold_left] in H;
    [now left|].
  apply IH in H as [H|H]; [|right; now right].
  cbn [fst snd] in H.
  destruct (dict_get eqb (dict_set eqb d k0 v0) k) as [v|] eqn:E.
  - rewrite (dict_get_set eqb_eq) in E. destruct (eqb k0 k) eqn:Ek.
    + apply eqb_eq in Ek. right. now left.
    + left. destruct (dict_get eqb d k) eqn:Ed; [|discriminate].
      apply (dict_get_In eqb_eq) in Ed. now apply (in_map fst) in Ed.
  - apply (dict_get_None eqb_eq) in E. contradiction.
Qed.

Lemma select_length_eq {A B} (mask : list bool) : forall (a : list A) (b : list B),
  length a = length b -> length (select a mask) = length (select b mask).
Proof.
  induction mask as [|m mask IH]; intros [|x a] [|y b] H; try discriminate;
    try reflexivity.
  cbn [select]. injection H as H. destruct m; cbn [length]; auto.
Qed.

Section Rendering.
Import PcdToProjection.
Variables (Tr : mat4) (P2 : mat34).

(** The loop over points that are all inside the image never fails: it
    is the run of assignments [img[cell] = colour]. *)
Lemma draw_in_image (pairs : list ((float * float) * color)) : forall img,
  Forall (fun pc => in_image (fst pc) = true) pairs ->
  draw pairs img =
  Some (fold_left (fun d kv => dict_set index_eqb d (fst kv) (snd kv))
                  (map (fun pc => (cell (fst pc), to_rgb (snd pc))) pairs) img).
Proof.
  induction pairs as [|[pt c] pairs IH]; intros img Hall; [reflexivity|].
  inversion Hall as [|? ? Hpt Hall']; subst. cbn [fst] in Hpt.
  destruct (in_image_cell pt Hpt) as (x & y & Hx & Hy & Hxr & Hyr).
  cbn [draw map fold_left fst snd]. unfold cell. rewrite Hx, Hy.
  unfold img_set.
  replace ((-375 <=? y) && (y <? 375) && (-1242 <=? x) && (x <? 1242))%Z with true
    by (symmetry; rewrite !andb_true_iff, !Z.leb_le, !Z.ltb_lt; lia).
  rewrite !Z.mod_small by lia. now apply IH.
Qed.

(** [project_to_image] runs the projection of the statistics scripts,
    with the colours in the place of the labels, and draws its result. *)
Lemma project_to_image_eq (pcd : point_cloud) :
  project_to_image pcd (Some (Tr, P2)) =
  match project_to_front_view (pcd_points pcd) (pcd_colors pcd) Tr P2 with
  | Ok (_, points_img, colors) => draw (combine points_img colors) []
  | Raise _ => None
  end.
Proof.
  destruct pcd as [points colors]. unfold project_to_image. cbn [pcd_points pcd_colors].
  destruct (Nat.eq_dec (length colors) (length points)) as [E|N].
  - unfold project_to_front_view, front_hemisphere.
    rewrite (mask_index_same_length points) by now rewrite !length_map.
    rewrite (mask_index_same_length (map _ points)) by now rewrite !length_map.
    rewrite (mask_index_same_length colors) by now rewrite !length_map.
    cbn [bind]. unfold image_plane.
    rewrite (mask_index_same_length (map _ (map _ _))) by now rewrite !length_map.
    rewrite (mask_index_same_length (select colors _))
      by (rewrite !length_map; apply select_length_eq; now rewrite length_map).
    rewrite (mask_index_same_length (select points _))
      by (rewrite !length_map; apply select_length_eq; now rewrite length_map).
    reflexivity.
  - rewrite project_to_front_view_mismatch by exact N.
    rewrite (mask_index_same_length (map _ points)) by now rewrite !length_map.
    rewrite (mask_index_mismatch colors) by now rewrite !length_map.
    reflexivity.
Qed.
End Rendering.

Lemma find_map {A B} (h : A -> B) (g : B -> bool) (l : list A) :
  find g (map h l) = option_map h (find (fun a => g (h a)) l).
Proof.
  induction l as [|a l IH]; cbn [map find]; [reflexivity|].
  now destruct (g (h a)).
Qed.

Lemma combine_map_snd {A B C} (f : B -> C) (l : list A) : forall l' : list B,
  combine l (map f l') = map (fun ab => (fst ab, f (snd ab))) (combine l l').
Proof.
  induction l as [|a l IH]; intros [|b l']; cbn; [reflexivity..|]. now rewrite IH.
Qed.

Lemma filter_map_fst {A B C} (f : B -> C) (g : A -> bool) (l : list (A * B)) :
  filter (fun ac => g (fst ac)) (map (fun ab => (fst ab, f (snd ab))) l)
  = map (fun ab => (fst ab, f (snd ab))) (filter (fun ab => g (fst ab)) l).
Proof.
  induction l as [|[a b] l IH]; cbn [map filter fst snd]; [reflexivity|].
  destruct (g a); cbn [map fst snd]; now rewrite IH.
Qed.

Section RenderingTheorems.
Import PcdToProjection.

Lemma byte_round_trip (c : Z) :
  (0 <= c <= 255)%Z -> astype_uint8 (float_of_Z c / 255 * 255) = c.
Proof.
  assert (Hall : forallb (fun n => Z.eqb
             (astype_uint8 (float_of_Z (Z.of_nat n) / 255 * 255)) (Z.of_nat n))
             (seq 0 256) = true) by (vm_compute; reflexivity).
  intros Hc. rewrite forallb_forall in Hall.
  specialize (Hall (Z.to_nat c)). rewrite Z2Nat.id in Hall by lia.
  apply Z.eqb_eq, Hall. apply in_seq. lia.
Qed.

Lemma colormap_bytes (label r g b : Z) :
  dict_get Z.eqb SEMANTIC_KITTI_COLORMAP label = Some (r, g, b) ->
  (0 <= r <= 255 /\ 0 <= g <= 255 /\ 0 <= b <= 255)%Z.
Proof.
  assert (Hall : forallb (fun kv =>
             let '(r, g, b) := snd kv in
             ((0 <=? r) && (r <=? 255) && (0 <=? g) && (g <=? 255)
              && (0 <=? b) && (b <=? 255))%Z)
             SEMANTIC_KITTI_COLORMAP = true) by (vm_compute; reflexivity).
  intros H. apply (dict_get_In Z.eqb_eq) in H.
  rewrite forallb_forall in Hall. specialize (Hall _ H). cbn [snd] in Hall.
  rewrite !andb_true_iff, !Z.leb_le in Hall. lia.
Qed.

Lemma to_rgb_color_of_label (label : Z) :
  to_rgb (color_of_label label) =
  dict_get_default Z.eqb SEMANTIC_KITTI_COLORMAP label (0, 0, 0)%Z.
Proof.
  unfold color_of_label, dict_get_default.
  destruct (dict_get Z.eqb SEMANTIC_KITTI_COLORMAP label) as [[[r g] b]|] eqn:Eg;
    [|vm_compute; reflexivity].
  destruct (colormap_bytes _ Eg) as (Hr & Hg & Hb).
  cbn [to_rgb]. now rewrite !byte_round_trip.
Qed.

(** What [project_to_image] returns for a cloud with one colour per
    point. *)
Lemma project_to_image_value (pcd : point_cloud) (Tr : mat4) (P2 : mat34) :
  length (pcd_colors pcd) = length (pcd_points pcd) ->
  let kept := filter (fun pc => visible Tr P2 (fst pc))
                     (combine (pcd_points pcd) (pcd_colors pcd)) in
  exists img,
    project_to_image pcd (Some (Tr, P2)) = Some img /\
    (forall y x, In (y, x) (dict_keys img) -> (0 <= y < 375 /\ 0 <= x < 1242)%Z) /\
    (forall y x,
       img_get img y x =
       match find (fun pc => index_eqb (cell (pixel Tr P2 (fst pc))) (y, x))
                  (rev kept) with
       | Some pc => to_rgb (snd pc)
       | None => (0, 0, 0)%Z
       end).
Proof.
  intros E. cbv zeta. rewrite project_to_image_eq.
  rewrite project_to_front_view_value by exact E. cbv beta iota zeta.
  set (kept := filter _ (combine _ _)).
  assert (Hpairs : forall l : list (point3 * color),
            combine (map (fun pl => pixel Tr P2 (fst pl)) l) (map snd l)
            = map (fun pl => (pixel Tr P2 (fst pl), snd pl)) l).
  { induction l as [|pl l IH]; cbn [map combine]; [reflexivity|]. now rewrite IH. }
  rewrite Hpairs.
  assert (Hvis : forall pl, In pl kept -> in_image (pixel Tr P2 (fst pl)) = true).
  { intros pl Hpl. apply filter_In in Hpl as [_ Hv]. unfold visible in Hv.
    now apply andb_prop in Hv as [_ Hv]. }
  rewrite draw_in_image
    by (apply Forall_forall; intros pc Hpc;
        apply in_map_iff in Hpc as (pl & <- & Hpl); now apply Hvis).
  rewrite map_map. cbn [fst snd].
  eexists. split; [reflexivity|]. split.
  - intros y x Hin.
    apply (dict_keys_fold_set index_eqb index_eqb_eq) in Hin as [[]|Hin].
    rewrite map_map in Hin. cbn [fst] in Hin.
    apply in_map_iff in Hin as (pl & Hc & Hpl).
    destruct (in_image_cell _ (Hvis pl Hpl)) as (x' & y' & Hx & Hy & Hxr & Hyr).
    unfold cell in Hc. rewrite Hx, Hy in Hc. injection Hc as <- <-. now split.
  - intros y x. unfold img_get, dict_get_default.
    rewrite (dict_get_fold_set index_eqb index_eqb_eq).
    rewrite <- map_rev, find_map. cbn [fst snd dict_get].
    now destruct (find _ (rev kept)).
Qed.

(** Storing a colour as [c / 255.0] and writing it back as
    [(c * 255).astype(uint8)] returns every byte [c] unchanged, so the
    colour written for a point is exactly the colour map's entry for its
    label, black for a label that the colour map lacks. *)
Theorem rendered_colour_is_exact :
  (forall c : Z, (0 <= c <= 255)%Z ->
     astype_uint8 (float_of_Z c / 255 * 255) = c) /\
  (forall label : Z,
     to_rgb (color_of_label label) =
     dict_get_default Z.eqb SEMANTIC_KITTI_COLORMAP label (0, 0, 0)%Z).
Proof.
  split; [exact byte_round_trip|exact to_rgb_color_of_label].
Qed.


(** For a cloud made by [load_point_cloud] from as many labels as
    points (at least one), a cell of the rendered image holds the colour-map colour of
    the semantic id (the label's low 16 bits) of the last visible point
    that falls into it, and is black when there is none. *)
Theorem rendered_image_content
    (points : list point3) (labels_raw : list Z) (Tr : mat4) (P2 : mat34) :
  labels_raw <> [] ->
  length labels_raw = length points ->
  exists img,
    project_to_image (load_point_cloud points labels_raw) (Some (Tr, P2)) = Some img /\
    forall y x,
      img_get img y x =
      match find (fun pl => index_eqb (cell (pixel Tr P2 (fst pl))) (y, x))
                 (rev (filter (fun pl => visible Tr P2 (fst pl))
                              (combine points labels_raw))) with
      | Some pl =>
          dict_get_default Z.eqb SEMANTIC_KITTI_COLORMAP (semantic_of (snd pl))
                           (0, 0, 0)%Z
      | None => (0, 0, 0)%Z
      end.
Proof.
  intros _ E.
  destruct (@project_to_image_value (load_point_cloud points labels_raw) Tr P2)
    as (img & Himg & _ & Hget).
  { cbn [load_point_cloud pcd_colors pcd_points]. now rewrite !length_map. }
  exists img. split; [exact Himg|].
  intros y x. rewrite Hget. cbn [load_point_cloud pcd_colors pcd_points].
  rewrite map_map, combine_map_snd.
  rewrite (filter_map_fst (fun l => color_of_label (Z.land l 65535))
                          (visible Tr P2)).
  rewrite <- map_rev, find_map. cbn [fst snd].
  destruct (find _ (rev _)) as [[p l]|]; [|reflexivity].
  cbn [option_map snd]. unfold semantic_of. apply to_rgb_color_of_label.
Qed.
End RenderingTheorems.


Lemma rendered_image_content_witness :
  exists img,
    PcdToProjection.project_to_image
      (PcdToProjection.load_point_cloud Sample.points Sample.labels)
      (Some (Sample.Tr, Sample.P2)) = Some img /\
    PcdToProjection.img_get img 223 775 = (128, 128, 128)%Z.
Proof.
  destruct (@rendered_image_content Sample.points Sample.labels
              Sample.Tr Sample.P2 ltac:(discriminate) eq_refl)
    as (img & Himg & Hget).
  exists img. split; [exact Himg|].
  rewrite Hget. vm_compute. reflexivity.
Defined.

Lemma rendered_colour_is_exact_witness :
  (0 <= 128 <= 255)%Z /\
  PcdToProjection.astype_uint8 (float_of_Z 128 / 255 * 255) = 128%Z.
Proof.
  split; [lia|].
  apply (proj1 rendered_colour_is_exact). lia.
Defined.
